(** * A shallow embedding of thunder's interpreter extension

    The development follows three source files:

    - [thunder/core/script/python_ir.py]: the table of stack effects of the
      Python 3.10 opcodes and [stack_effect_detail], the insertion of a
      node before or after another, and the writer of the line table;
    - [thunder/core/script/passes.py]: [split_block];
    - [thunder/core/jit_ext.py]: the sharp-edge policy, the two global
      callbacks, the lookaside map of the proxy methods, the wrap callback,
      the discovery of the inputs of the computation trace, the synthesis
      of the prologue trace and the entry point
      [meso_thunder_interpreter].

    Python integers are [Z]; dictionaries that are searched by object
    identity are [gmap]s and [gset]s over the identities; a raised exception
    is the [Raise] case of a result type. *)

From Stdlib Require Import ZArith String List Bool Lia.
From stdpp Require Import gmap strings list fin_maps.

Set Warnings "-register-all".


(** ** Exceptions and results *)

Inductive PyError :=
| ValueError (msg : string)
| NotImplementedError (msg : string)
| AssertionError (msg : string)
| IndexError
| AttributeError
| UnboundLocalError
| OutOfFuel.

Inductive Result (A : Type) :=
| Ok (a : A)
| Raise (e : PyError).

Arguments Ok {A} a.
Arguments Raise {A} e.

(** [d.get(k)] for a dictionary with string keys that the source writes as
    a literal; the entries are in the order of the source. *)
Fixpoint dict_get {V} (d : list (string * V)) (k : string) : option V :=
  match d with
  | [] => None
  | (k', v) :: d' => if String.eqb k k' then Some v else dict_get d' k
  end.

(** ** Opcode table ([python_ir.py]) *)

Module PythonIR.

Local Open Scope Z_scope.

(** The dictionary [fixed_stack_effects_detail], in the order of the
    source.  Each entry is (opname, (inputs, outputs)). *)
Definition fixed_stack_effects_detail : list (string * (Z * Z)) :=
  [ ("NOP", (0, 0));
    ("EXTENDED_ARG", (0, 0));
    ("POP_TOP", (1, 0));
    ("ROT_TWO", (2, 2));
    ("ROT_THREE", (3, 3));
    ("ROT_FOUR", (4, 4));
    ("DUP_TOP", (1, 2));
    ("DUP_TOP_TWO", (2, 4));
    ("UNARY_POSITIVE", (1, 1));
    ("UNARY_NOT", (1, 1));
    ("UNARY_INVERT", (1, 1));
    ("SET_ADD", (2, 1));
    ("LIST_APPEND", (2, 1));
    ("MAP_ADD", (3, 1));
    ("BINARY_POWER", (2, 1));
    ("BINARY_MULTIPLY", (2, 1));
    ("BINARY_MATRIX_MULTIPLY", (2, 1));
    ("BINARY_MODULO", (2, 1));
    ("BINARY_ADD", (2, 1));
    ("BINARY_SUBTRACT", (2, 1));
    ("BINARY_SUBSCR", (2, 1));
    ("BINARY_FLOOR_DIVIDE", (2, 1));
    ("BINARY_TRUE_DIVIDE", (2, 1));
    ("INPLACE_FLOOR_DIVIDE", (2, 1));
    ("INPLACE_TRUE_DIVIDE", (2, 1));
    ("INPLACE_ADD", (2, 1));
    ("INPLACE_SUBTRACT", (2, 1));
    ("INPLACE_MULTIPLY", (2, 1));
    ("INPLACE_MATRIX_MULTIPLY", (2, 1));
    ("INPLACE_MODULO", (2, 1));
    ("BINARY_LSHIFT", (2, 1));
    ("BINARY_RSHIFT", (2, 1));
    ("BINARY_AND", (2, 1));
    ("BINARY_XOR", (2, 1));
    ("BINARY_OR", (2, 1));
    ("INPLACE_POWER", (2, 1));
    ("INPLACE_LSHIFT", (2, 1));
    ("INPLACE_RSHIFT", (2, 1));
    ("INPLACE_AND", (2, 1));
    ("INPLACE_XOR", (2, 1));
    ("INPLACE_OR", (2, 1));
    ("STORE_SUBSCR", (3, 0));
    ("DELETE_SUBSCR", (2, 0));
    ("GET_ITER", (1, 1));
    ("PRINT_EXPR", (1, 0));
    ("LOAD_BUILD_CLASS", (0, 1));
    ("RETURN_VALUE", (1, 0));
    ("IMPORT_STAR", (1, 0));
    ("SETUP_ANNOTATIONS", (0, 0));
    ("YIELD_VALUE", (1, 1));
    ("YIELD_FROM", (2, 1));
    ("POP_BLOCK", (0, 0));
    ("POP_EXCEPT", (3, 0));
    ("STORE_NAME", (1, 0));
    ("DELETE_NAME", (0, 0));
    ("STORE_ATTR", (2, 0));
    ("DELETE_ATTR", (1, 0));
    ("STORE_GLOBAL", (1, 0));
    ("DELETE_GLOBAL", (0, 0));
    ("LOAD_CONST", (0, 1));
    ("LOAD_NAME", (0, 1));
    ("LOAD_ATTR", (1, 1));
    ("COMPARE_OP", (2, 1));
    ("IS_OP", (2, 1));
    ("CONTAINS_OP", (2, 1));
    ("JUMP_IF_NOT_EXC_MATCH", (2, 0));
    ("IMPORT_NAME", (2, 1));
    ("IMPORT_FROM", (1, 2));
    ("JUMP_FORWARD", (0, 0));
    ("JUMP_ABSOLUTE", (0, 0));
    ("POP_JUMP_IF_FALSE", (1, 0));
    ("POP_JUMP_IF_TRUE", (1, 0));
    ("LOAD_GLOBAL", (0, 1));
    ("RERAISE", (3, 0));
    ("WITH_EXCEPT_START", (7, 8));
    ("LOAD_FAST", (0, 1));
    ("STORE_FAST", (1, 0));
    ("DELETE_FAST", (0, 0));
    ("LOAD_CLOSURE", (0, 1));
    ("LOAD_DEREF", (0, 1));
    ("LOAD_CLASSDEREF", (0, 1));
    ("STORE_DEREF", (1, 0));
    ("DELETE_DEREF", (0, 0));
    ("GET_AWAITABLE", (1, 1));
    ("BEFORE_ASYNC_WITH", (1, 2));
    ("GET_AITER", (1, 1));
    ("GET_ANEXT", (1, 2));
    ("GET_YIELD_FROM_ITER", (1, 1));
    ("END_ASYNC_FOR", (7, 0));
    ("LOAD_METHOD", (1, 2));
    ("LOAD_ASSERTION_ERROR", (0, 1));
    ("LIST_TO_TUPLE", (1, 1));
    ("GEN_START", (1, 0));
    ("LIST_EXTEND", (2, 1));
    ("SET_UPDATE", (2, 1));
    ("DICT_MERGE", (2, 1));
    ("DICT_UPDATE", (2, 1));
    ("COPY_DICT_WITHOUT_KEYS", (2, 2));
    ("MATCH_CLASS", (3, 2));
    ("GET_LEN", (1, 2));
    ("MATCH_MAPPING", (1, 2));
    ("MATCH_SEQUENCE", (1, 2));
    ("MATCH_KEYS", (2, 4)) ].

(** [opname in {...}] for a set literal. *)
Definition in_names (opname : string) (names : list string) : bool :=
  existsb (String.eqb opname) names.

(** [(oparg & mask) != 0], a Python [bool] that the source adds to an
    [int]; [Z.b2z] is that coercion. *)
Definition flag (oparg mask : Z) : Z :=
  Z.b2z (negb (Z.land oparg mask =? 0)).

Definition stack_effect_detail (opname : string) (oparg : Z) (jump : bool)
  : Result (Z * Z) :=
  match dict_get fixed_stack_effects_detail opname with
  | Some eff => Ok eff
  | None =>
    if String.eqb opname "ROT_N" then Ok (oparg, oparg)
    else if in_names opname ["BUILD_TUPLE"; "BUILD_LIST"; "BUILD_SET"; "BUILD_STRING"]
      then Ok (oparg, 1)
    else if String.eqb opname "BUILD_MAP" then Ok (2 * oparg, 1)
    else if String.eqb opname "BUILD_CONST_KEY_MAP" then Ok (oparg + 1, 1)
    else if in_names opname ["JUMP_IF_TRUE_OR_POP"; "JUMP_IF_FALSE_OR_POP"]
      then (if jump then Ok (1, 1) else Ok (1, 0))
    else if String.eqb opname "SETUP_FINALLY"
      then (if jump then Ok (0, 6) else Ok (0, 0))
    else if String.eqb opname "RAISE_VARARGS" then Ok (oparg, 0)
    else if String.eqb opname "CALL_FUNCTION" then Ok (oparg + 1, 1)
    else if String.eqb opname "CALL_METHOD" then Ok (oparg + 2, 1)
    else if String.eqb opname "CALL_FUNCTION_KW" then Ok (oparg + 2, 1)
    else if String.eqb opname "CALL_FUNCTION_EX" then Ok (2 + flag oparg 1, 1)
    else if String.eqb opname "MAKE_FUNCTION"
      then Ok (2 + flag oparg 1 + flag oparg 2 + flag oparg 4 + flag oparg 8, 1)
    else if String.eqb opname "BUILD_SLICE" then Ok (oparg, 1)
    else if String.eqb opname "SETUP_ASYNC_WITH"
      then (if jump then Ok (1, 6) else Ok (0, 0))
    else if String.eqb opname "FORMAT_VALUE"
      then (if negb (Z.land oparg 4 =? 0) then Ok (2, 1) else Ok (1, 1))
    else if String.eqb opname "UNPACK_SEQUENCE" then Ok (1, oparg)
    else if String.eqb opname "UNPACK_EX"
      then Ok (1, Z.land oparg 255 + Z.shiftr oparg 8 + 1)
    else if String.eqb opname "FOR_ITER"
      then (if jump then Ok (1, 0) else Ok (0, 1))
    else Raise (ValueError ("Invalid opname " +:+ opname))
  end.

(** The opcode names the function has a case for: the keys of the table and
    the names tested in the chain of [elif]s. *)
Definition dynamic_opnames : list string :=
  [ "ROT_N"; "BUILD_TUPLE"; "BUILD_LIST"; "BUILD_SET"; "BUILD_STRING";
    "BUILD_MAP"; "BUILD_CONST_KEY_MAP"; "JUMP_IF_TRUE_OR_POP";
    "JUMP_IF_FALSE_OR_POP"; "SETUP_FINALLY"; "RAISE_VARARGS";
    "CALL_FUNCTION"; "CALL_METHOD"; "CALL_FUNCTION_KW"; "CALL_FUNCTION_EX";
    "MAKE_FUNCTION"; "BUILD_SLICE"; "SETUP_ASYNC_WITH"; "FORMAT_VALUE";
    "UNPACK_SEQUENCE"; "UNPACK_EX"; "FOR_ITER" ].

Definition supported_opnames : list string :=
  map fst fixed_stack_effects_detail ++ dynamic_opnames.

End PythonIR.

(** ** The interpreter extension ([jit_ext.py]) *)

Module JitExt.

(** *** Options

    [thunder.core.options] is imported by the source; the three sharp-edge
    levels are the ones the source tests for.  Of the cache options only
    the two the entry point accepts are named there. *)
Inductive SHARP_EDGES_OPTIONS := ALLOW | WARN | ERROR.

Inductive CACHE_OPTIONS :=
| CONSTANT_VALUES
| NO_CACHING
| OTHER_CACHE_OPTION (name : string).

(** *** Python objects

    The objects the functions below inspect: the literals a [CONSTANT]
    record can hold, the callables an [OPAQUE] record names, tensors, and
    [PyInstance typ c] for an object of any other class, with the name of
    its exact type and whether it is callable.  Floats and complex numbers
    are carried by their printed form; no arithmetic is done on them
    here. *)
Inductive PyObj :=
| PyNone
| PyInt (z : Z)
| PyBool (b : bool)
| PyFloat (repr : string)
| PyComplex (repr : string)
| PyStr (s : string)
| PyTensor (shape : list Z) (device dtype : string) (requires_grad : bool)
| GetSetDescriptorType___get__
| PyFunction (name : string)
| PyGetSetDescriptor (name : string)
| PyInstance (typ : string) (is_callable : bool).

(** [o.__name__]; [None] where the attribute is missing. *)
Definition py_name (o : PyObj) : option string :=
  match o with
  | GetSetDescriptorType___get__ => Some "__get__"
  | PyFunction n => Some n
  | PyGetSetDescriptor n => Some n
  | _ => None
  end.

(** [isinstance(o, (int, str))]; [bool] is a subclass of [int]. *)
Definition is_int_or_str (o : PyObj) : bool :=
  match o with
  | PyInt _ | PyBool _ | PyStr _ => true
  | _ => false
  end.

(** [isinstance(o, (float, int, complex, str))]. *)
Definition is_number_or_str (o : PyObj) : bool :=
  match o with
  | PyInt _ | PyBool _ | PyFloat _ | PyComplex _ | PyStr _ => true
  | _ => false
  end.

(** *** Provenance records

    [inst] is a member of the string enumeration [PseudoInst] or a
    [dis.Instruction]; the source reads the former by [.value] and the
    latter by [.opname]. *)
Inductive Inst :=
| PseudoInst (value : string)
| Instruction (opname : string).

Definition INPUT_ARGS := PseudoInst "INPUT_ARGS".
Definition INPUT_KWARGS := PseudoInst "INPUT_KWARGS".
Definition INPUT_FN := PseudoInst "INPUT_FN".
Definition LOAD_ATTR := PseudoInst "LOAD_ATTR".
Definition CONSTANT := PseudoInst "CONSTANT".
Definition BINARY_SUBSCR := PseudoInst "BINARY_SUBSCR".
Definition OPAQUE := PseudoInst "OPAQUE".

(** [inst == PseudoInst.X] and [inst is PseudoInst.X]: an instruction is
    never equal to a member of the enumeration. *)
Definition inst_is (i : Inst) (member : Inst) : bool :=
  match i, member with
  | PseudoInst v, PseudoInst w => String.eqb v w
  | _, _ => false
  end.

(** The key under which the dispatch table and the safe set see a tag. *)
Definition inst_name (i : Inst) : string :=
  match i with
  | PseudoInst v => v
  | Instruction opname => opname
  end.

(** A record.  [rid] is the identity of the object: the attribute [proxy]
    that the prologue synthesis assigns is stored per identity, so two
    occurrences of one shared record carry the same [rid].  The records
    that [from_opaque] builds live only for the duration of one call and
    are referenced from nowhere else; they have no [rid]. *)
Inductive ProvenanceRecord :=
| mkProvenanceRecord (rid : option nat) (inst : Inst)
    (inputs : list ProvenanceRecord) (value : PyObj).

Definition rid (r : ProvenanceRecord) : option nat :=
  match r with mkProvenanceRecord i _ _ _ => i end.
Definition inst (r : ProvenanceRecord) : Inst :=
  match r with mkProvenanceRecord _ i _ _ => i end.
Definition inputs (r : ProvenanceRecord) : list ProvenanceRecord :=
  match r with mkProvenanceRecord _ _ l _ => l end.
Definition value (r : ProvenanceRecord) : PyObj :=
  match r with mkProvenanceRecord _ _ _ v => v end.

Fixpoint pr_size (r : ProvenanceRecord) : nat :=
  match r with
  | mkProvenanceRecord _ _ l _ => S (list_sum (map pr_size l))
  end.

(** *** Proxies, bound symbols, traces *)

Inductive ProxyKind :=
| TensorProxy (shape : list Z) (device dtype : string) (requires_grad : bool)
| NumberProxy (val : PyObj)
| StringProxy (val : string)
| PlainProxy.

(** [pid] is [id(p)]; the proxies that the prologue synthesis creates for
    intermediate objects are never looked up by identity and have none. *)
Record Proxy := mkProxy {
  pid : option nat;
  name : string;
  kind : ProxyKind;
  history : option ProvenanceRecord
}.

Definition is_TensorProxy (p : Proxy) : bool :=
  match kind p with TensorProxy _ _ _ _ => true | _ => false end.

(** An argument or output of a bound symbol. *)
Inductive Arg :=
| AProxy (p : Proxy)
| AObj (o : PyObj)
| ATuple (elts : list Arg).

Inductive Prim :=
| unpack_trivial
| unpack_function_obj
| unpack_attr
| unpack_getitem
| assert_tensor_metadata
| check_tensor_shape_and_metadata
| check_string_value
| check_number_type_and_value
| python_return
| other_prim (id : string).

Record BoundSymbol := mkBoundSymbol {
  sym : Prim;
  args : list Arg;
  output : option Arg
}.

Record SigInfo := mkSigInfo {
  si_name : string;
  si_args : list string;
  si_varargs : option string;
  si_varkwargs : option string
}.

Record TraceCtx := mkTraceCtx {
  bound_symbols : list BoundSymbol;
  names : gset string;
  _siginfo : option SigInfo;
  trace_args : list Proxy
}.

(** [TraceCtx()] *)
Definition TraceCtx_new : TraceCtx :=
  {| bound_symbols := []; names := ∅; _siginfo := None; trace_args := [] |}.

Definition set_bound_symbols (t : TraceCtx) (b : list BoundSymbol) : TraceCtx :=
  {| bound_symbols := b; names := names t; _siginfo := _siginfo t;
     trace_args := trace_args t |}.

(** Calling a primitive inside [tracectx(t)] appends its bound symbol to
    [t]. *)
Definition record_bsym (t : TraceCtx) (b : BoundSymbol) : TraceCtx :=
  set_bound_symbols t (bound_symbols t ++ [b]).

(** [t.has_name(n)] / [t.add_name(n)] *)
Definition has_name (t : TraceCtx) (n : string) : bool :=
  bool_decide (n ∈ names t).
Definition add_name (t : TraceCtx) (n : string) : TraceCtx :=
  {| bound_symbols := bound_symbols t; names := {[n]} ∪ names t;
     _siginfo := _siginfo t; trace_args := trace_args t |}.

(** A constraint [(prim, *args)]. *)
Definition Constraint : Type := Prim * list Arg.

(** *** The context and the sharp-edge policy *)

(** [MesoCtx].  [warnings] collects the messages given to
    [warnings.warn]; [next_id] is the counter from which new proxies
    receive their identity and their name. *)
Record MesoCtx := mkMesoCtx {
  sharp_edges : SHARP_EDGES_OPTIONS;
  _constraints : list Constraint;
  warnings : list string;
  next_id : nat
}.

Definition MesoCtx_new (sharp_edges : SHARP_EDGES_OPTIONS) : MesoCtx :=
  {| sharp_edges := sharp_edges; _constraints := []; warnings := [];
     next_id := 0 |}.

Definition add_constraint (ctx : MesoCtx) (c : Constraint) : MesoCtx :=
  {| sharp_edges := sharp_edges ctx; _constraints := _constraints ctx ++ [c];
     warnings := warnings ctx; next_id := next_id ctx |}.

Definition warn (ctx : MesoCtx) (s : string) : MesoCtx :=
  {| sharp_edges := sharp_edges ctx; _constraints := _constraints ctx;
     warnings := warnings ctx ++ [s]; next_id := next_id ctx |}.

Definition bump_id (ctx : MesoCtx) : MesoCtx :=
  {| sharp_edges := sharp_edges ctx; _constraints := _constraints ctx;
     warnings := warnings ctx; next_id := S (next_id ctx) |}.

Definition _sharp_edge_suffix : string :=
  " is a sharp edge that cannot be translated to a thunder program unless using interpretation=INTERPRETATION_OPTIONS.TRANSLATE_PYTHON.".

Definition _meso_sharp_edge_suffix : string :=
  " This is currently considered a sharp edge even with interpretation=INTERPRETATION_OPTIONS.TRANSLATE_PYTHON. For cases in which we are overly strict, please file an issue. Thank you!".

Definition _sharp_edge (desc : string) (ctx : MesoCtx) : Result MesoCtx :=
  let s := desc +:+ _sharp_edge_suffix in
  match sharp_edges ctx with
  | ERROR => Raise (AssertionError s)
  | WARN => Ok (warn ctx s)
  | ALLOW => Ok ctx
  end.

Definition _meso_sharp_edge (desc : string) (ctx : MesoCtx) : Result MesoCtx :=
  let s := desc +:+ _meso_sharp_edge_suffix in
  match sharp_edges ctx with
  | ERROR => Raise (AssertionError s)
  | WARN => Ok (warn ctx s)
  | ALLOW => Ok ctx
  end.

(** *** Wrapped values *)

(** What [value.value] can be: a Python object, a proxy, the marker
    [Py_NULL()] or (for [proxify]) a wrapped value, of which only the tag
    of the provenance is read. *)
Inductive PyValue :=
| Obj (o : PyObj)
| ProxyValue (p : Proxy)
| Py_NULL
| Wrapped (provenance_inst : Inst).

(** Modelled from the spec: the class [WrappedValue] is declared in
    [thunder.core.jit].  A wrapped value is a pair of a concrete value and
    a provenance and carries an optional bound proxy; consumers see the
    proxy once one is bound, and a bound proxy is not overwritten. *)
Record WrappedValue := mkWrappedValue {
  concrete_value : PyValue;
  provenance : ProvenanceRecord;
  bound_proxy : option Proxy
}.

Definition wv_value (w : WrappedValue) : PyValue :=
  match bound_proxy w with
  | Some p => ProxyValue p
  | None => concrete_value w
  end.

Definition register_proxy (w : WrappedValue) (p : Proxy) : WrappedValue :=
  match bound_proxy w with
  | Some _ => w
  | None => {| concrete_value := concrete_value w;
               provenance := provenance w; bound_proxy := Some p |}
  end.

(** [callable(v)] *)
Definition callable (v : PyValue) : bool :=
  match v with
  | Obj GetSetDescriptorType___get__ => true
  | Obj (PyFunction _) => true
  | Obj (PyInstance _ c) => c
  | _ => false
  end.

(** [type(v) in (tuple, list, dict, CellType, ModuleType, set)] *)
Definition is_basic_container (v : PyValue) : bool :=
  match v with
  | Obj (PyInstance typ _) =>
      existsb (String.eqb typ) ["tuple"; "list"; "dict"; "cell"; "module"; "set"]
  | _ => false
  end.

(** [type(v).__name__] *)
Definition type_name (v : PyValue) : string :=
  match v with
  | Obj PyNone => "NoneType"
  | Obj (PyInt _) => "int"
  | Obj (PyBool _) => "bool"
  | Obj (PyFloat _) => "float"
  | Obj (PyComplex _) => "complex"
  | Obj (PyStr _) => "str"
  | Obj (PyTensor _ _ _ _) => "Tensor"
  | Obj GetSetDescriptorType___get__ => "wrapper_descriptor"
  | Obj (PyFunction _) => "function"
  | Obj (PyGetSetDescriptor _) => "getset_descriptor"
  | Obj (PyInstance typ _) => typ
  | ProxyValue p =>
      match kind p with
      | TensorProxy _ _ _ _ => "TensorProxy"
      | NumberProxy _ => "NumberProxy"
      | StringProxy _ => "StringProxy"
      | PlainProxy => "Proxy"
      end
  | Py_NULL => "Py_NULL"
  | Wrapped _ => "WrappedValue"
  end.

(** *** Tags of a provenance *)

Fixpoint collect_provenance_inst (pr : ProvenanceRecord) : gset string :=
  match pr with
  | mkProvenanceRecord _ i l _ =>
      fold_left (fun res x => res ∪ collect_provenance_inst x) l {[inst_name i]}
  end.

Definition safe_provenance_inst : gset string :=
  {[ "INPUT_ARGS"; "INPUT_KWARGS"; "INPUT_FN"; "LOAD_ATTR"; "CONSTANT";
     "BINARY_SUBSCR" ]}.

Section Callbacks.

(** The name minted for the [n]-th proxy; [make_proxy_name] is imported
    from [thunder.core.proxies]. *)
Variable make_proxy_name : nat -> string.

(** Modelled from the spec: [proxy] is imported from
    [thunder.core.proxies].  For a tensor it returns a [TensorProxy] that
    captures shape, device, dtype and requires-grad; for a number or a
    string the corresponding proxy; the name is generated when none is
    supplied, and the history is installed at creation.  Any other object
    cannot be proxied. *)
Definition proxy (v : PyValue) (name : option string)
    (history : ProvenanceRecord) (ctx : MesoCtx) : Result (Proxy * MesoCtx) :=
  let n := next_id ctx in
  let mk k := Ok ({| pid := Some n;
                     name := match name with Some s => s | None => make_proxy_name n end;
                     kind := k; history := Some history |}, bump_id ctx) in
  match v with
  | Obj (PyTensor shape device dtype requires_grad) =>
      mk (TensorProxy shape device dtype requires_grad)
  | Obj (PyStr s) => mk (StringProxy s)
  | Obj (PyInt z) => mk (NumberProxy (PyInt z))
  | Obj (PyBool b) => mk (NumberProxy (PyBool b))
  | Obj (PyFloat r) => mk (NumberProxy (PyFloat r))
  | Obj (PyComplex r) => mk (NumberProxy (PyComplex r))
  | _ => Raise (ValueError ("Can't proxy unknown type " +:+ type_name v))
  end.

(** The result of [MesoCtx.proxify]: the argument itself, or a new
    proxy.  [p is not val] holds exactly in the second case. *)
Inductive Proxified :=
| Unchanged
| Proxied (p : Proxy).

Definition proxify (ctx : MesoCtx) (val : PyValue) (name : option string)
    (history : ProvenanceRecord) : Result (Proxified * MesoCtx) :=
  match val with
  | Py_NULL => Ok (Unchanged, ctx)
  | Wrapped i =>
      if inst_is i CONSTANT then Ok (Unchanged, ctx)
      else match proxy val name history ctx with
           | Ok (p, ctx') => Ok (Proxied p, ctx')
           | Raise e => Raise e
           end
  | ProxyValue _ => Ok (Unchanged, ctx)
  | _ => match proxy val name history ctx with
         | Ok (p, ctx') => Ok (Proxied p, ctx')
         | Raise e => Raise e
         end
  end.

(** The value a constraint records for [p]. *)
Definition proxified_arg (r : Proxified) (val : PyValue) : Arg :=
  match r, val with
  | Proxied p, _ => AProxy p
  | Unchanged, ProxyValue p => AProxy p
  | Unchanged, Obj o => AObj o
  | Unchanged, _ => AObj PyNone
  end.

Definition value_arg (val : PyValue) : Arg := proxified_arg Unchanged val.

(** [p.history] for the result of [proxify]. *)
Definition proxified_history (r : Proxified) (val : PyValue)
  : Result (option ProvenanceRecord) :=
  match r, val with
  | Proxied p, _ => Ok (history p)
  | Unchanged, ProxyValue p => Ok (history p)
  | Unchanged, _ => Raise AttributeError
  end.

Definition is_str (v : PyValue) : bool :=
  match v with Obj (PyStr _) => true | _ => false end.

Definition is_tensor (v : PyValue) : bool :=
  match v with Obj (PyTensor _ _ _ _) => true | _ => false end.

(** [isinstance(v, (float, int, complex, str)) and not isinstance(v, Proxy)] *)
Definition is_plain_number_or_str (v : PyValue) : bool :=
  match v with Obj o => is_number_or_str o | _ => false end.

(** The two descriptions given to [_meso_sharp_edge] print the record; here
    the printed record is cut down to its tag. *)
Definition _lit_wrap_callback (ctx : MesoCtx) (value : WrappedValue)
  : Result (MesoCtx * WrappedValue) :=
  let uvalue := wv_value value in
  if is_tensor uvalue then
    match proxify ctx uvalue None (provenance value) with
    | Raise e => Raise e
    | Ok (p, ctx) =>
        let value := match p with
                     | Proxied p => register_proxy value p
                     | Unchanged => value
                     end in
        Ok (add_constraint ctx
              (check_tensor_shape_and_metadata, [proxified_arg p uvalue]),
            value)
    end
  else if inst_is (inst (provenance value)) CONSTANT then Ok (ctx, value)
  else if callable uvalue then Ok (ctx, value)
  else if is_basic_container uvalue then Ok (ctx, value)
  else if is_plain_number_or_str uvalue then
    if bool_decide (collect_provenance_inst (provenance value)
                      ∖ safe_provenance_inst = ∅) then
      match proxify ctx uvalue None (provenance value) with
      | Raise e => Raise e
      | Ok (p, ctx) =>
          match proxified_history p uvalue with
          | Raise e => Raise e
          | Ok None => Raise (AssertionError "p.history is None")
          | Ok (Some _) =>
              let value := match p with
                           | Proxied p => register_proxy value p
                           | Unchanged => value
                           end in
              if is_str uvalue then
                Ok (add_constraint ctx
                      (check_string_value,
                       [proxified_arg p uvalue; value_arg uvalue]),
                    value)
              else
                Ok (add_constraint ctx
                      (check_number_type_and_value,
                       [proxified_arg p uvalue; value_arg uvalue]),
                    value)
          end
      end
    else
      match _meso_sharp_edge
              ("We are using a (non-const) value of type " +:+ type_name uvalue
               +:+ " with provenance "
               +:+ inst_name (inst (provenance value))
               +:+ ", which is not identified as an input.") ctx with
      | Raise e => Raise e
      | Ok ctx => Ok (ctx, value)
      end
  else
    match _meso_sharp_edge
            ("We are using a (non-const) value of unknown type "
             +:+ type_name uvalue +:+ ", which may or may not be safe.") ctx with
    | Raise e => Raise e
    | Ok ctx => Ok (ctx, value)
    end.

End Callbacks.

(** *** Lookasides *)

Inductive ProxyClass := NumberProxyClass | TensorProxyClass.

(** The callables that occur as keys or values of the lookaside map.
    [jit_needs_wrap f] and [prop_lookaside_wrap g] are the results of
    applying these two decorators. *)
Inductive PyCallable :=
| torch_function (name : string)
| thunder_function (name : string)
| builtin_function (name : string)
| proxy_method (cls : ProxyClass) (name : string)
| proxy_property_fget (cls : ProxyClass) (name : string)
| prop_lookaside_helper
| _lit_getattr_lookaside
| _lit_hasattr_lookaside
| _lit_bool_lookaside
| jit_needs_wrap (fn : PyCallable)
| prop_lookaside_wrap (attr_getter : PyCallable).

#[global] Instance ProxyClass_eq_dec : EqDecision ProxyClass.
Proof. solve_decision. Defined.

#[global] Instance PyCallable_eq_dec : EqDecision PyCallable.
Proof. solve_decision. Defined.

(** A dictionary keyed by callables, in insertion order. *)
Definition FnDict : Type := list (PyCallable * PyCallable).

Fixpoint fn_dict_get (d : FnDict) (k : PyCallable) : option PyCallable :=
  match d with
  | [] => None
  | (k', v) :: d' => if decide (k = k') then Some v else fn_dict_get d' k
  end.

(** [d[k] = v]: an existing key keeps its place and takes the new value. *)
Fixpoint fn_dict_set (d : FnDict) (k v : PyCallable) : FnDict :=
  match d with
  | [] => [(k, v)]
  | (k', v') :: d' =>
      if decide (k = k') then (k', v) :: d' else (k', v') :: fn_dict_set d' k v
  end.

(** [d.update(entries)], and [{**a, **b, k: v, ...}] as the update of the
    empty dictionary by the entries in the order they are written. *)
Definition fn_dict_update (d : FnDict) (entries : list (PyCallable * PyCallable))
  : FnDict :=
  fold_left (fun d kv => fn_dict_set d (fst kv) (snd kv)) entries d.

(** What [getattr(typ, meth_name)] is, as far as [get_methods_properties]
    distinguishes: a method, builtin method, method descriptor or wrapper
    descriptor ([owned]: its [__objclass__] or [__self__] is [typ]); a
    function; a property with its [fget]; anything else. *)
Inductive Member :=
| MethodLike (meth : PyCallable) (owned : bool)
| FunctionMember (meth : PyCallable)
| PropertyMember (fget : option PyCallable)
| OtherMember.

(** The generator [get_methods_properties(typ)], given the members that
    [dir(typ)] lists. *)
Definition get_methods_properties (members : list Member)
  : list (PyCallable * PyCallable) :=
  flat_map (fun m =>
    match m with
    | MethodLike meth true => [(meth, meth)]
    | MethodLike _ false => []
    | FunctionMember meth => [(meth, meth)]
    | PropertyMember (Some fget) => [(fget, prop_lookaside_wrap fget)]
    | PropertyMember None => []
    | OtherMember => []
    end) members.

Definition NumberProxy_ (name : string) : PyCallable :=
  proxy_method NumberProxyClass name.
Definition TensorProxy_ (name : string) : PyCallable :=
  proxy_method TensorProxyClass name.

(** [_safe_functions] *)
Definition _safe_functions : list PyCallable :=
  map builtin_function
    [ "dict.get"; "FunctionType.__new__"; "isinstance";
      "member_descriptor.__get__"; "MethodDescriptorType.__get__"; "type";
      "tuple.__len__"; "tuple.__getitem__"; "FunctionType.__get__";
      "torch._C._get_tracing_state"; "object.__new__"; "object.__init__";
      "callable"; "NoneType.__bool__"; "dict.__len__"; "dict.__contains__";
      "dict.__getitem__"; "contextvars.ContextVar.get"; "type.__or__";
      "list.__new__"; "list.__init__"; "list.__getitem__";
      "reversed.__new__"; "CellType.__new__"; "GetSetDescriptorType.__get__";
      "Exception.__new__"; "StopIteration.__init__" ].

Section Lookasides.

(** What the module imports: the translation table from torch functions to
    thunder functions, the members of the two proxy classes, the test
    [isinstance(fn, Symbol) or fn in _clang_fn_set], the interpreter's
    default lookaside, [is_opaque] and [extract_callable_name]. *)
Variable _torch_to_thunder_function_map : list (PyCallable * PyCallable).
Variable dir_NumberProxy dir_TensorProxy : list Member.
Variable is_symbol_or_clang_fn : PyCallable -> bool.
Variable default_lookaside : PyCallable -> option PyCallable.
Variable is_opaque : PyCallable -> bool.
Variable extract_callable_name : PyCallable -> string.

(** [_lit_lookaside_map], by the statements of the module in order. *)
Definition _lit_lookaside_map : FnDict :=
  let m := [] in
  let m := fn_dict_update m
             (map (fun kv => (fst kv, jit_needs_wrap (snd kv)))
                  _torch_to_thunder_function_map) in
  let m := fn_dict_set m (builtin_function "getattr") _lit_getattr_lookaside in
  let m := fn_dict_set m (builtin_function "hasattr") _lit_hasattr_lookaside in
  let m := fn_dict_set m (builtin_function "bool") _lit_bool_lookaside in
  fn_dict_update m
    (fn_dict_update []
       (map (fun kv => (fst kv, jit_needs_wrap (snd kv)))
            (get_methods_properties dir_NumberProxy)
        ++ map (fun kv => (fst kv, jit_needs_wrap (snd kv)))
               (get_methods_properties dir_TensorProxy)
        ++ [ (prop_lookaside_helper, prop_lookaside_helper);
             (NumberProxy_ "__add__", jit_needs_wrap (NumberProxy_ "__add__"));
             (NumberProxy_ "__bool__", jit_needs_wrap (NumberProxy_ "__bool__"));
             (NumberProxy_ "__neg__", jit_needs_wrap (NumberProxy_ "__neg__"));
             (NumberProxy_ "__sub__", jit_needs_wrap (NumberProxy_ "__sub__"));
             (NumberProxy_ "__floordiv__",
              jit_needs_wrap (NumberProxy_ "__floordiv__"));
             (NumberProxy_ "__le__", jit_needs_wrap (NumberProxy_ "__ge__"));
             (NumberProxy_ "__ge__", jit_needs_wrap (NumberProxy_ "__le__"));
             (TensorProxy_ "__add__", jit_needs_wrap (TensorProxy_ "__add__"));
             (TensorProxy_ "__mul__", jit_needs_wrap (TensorProxy_ "__mul__"));
             (TensorProxy_ "__sub__", jit_needs_wrap (TensorProxy_ "__sub__")) ])).

Definition lit_lookaside (fn : PyCallable) (ctx : MesoCtx)
  : Result (option PyCallable * MesoCtx) :=
  let lookaside :=
    if is_symbol_or_clang_fn fn then Some (jit_needs_wrap fn)
    else match fn_dict_get _lit_lookaside_map fn with
         | Some lit_lookaside => Some lit_lookaside
         | None => default_lookaside fn
         end in
  match lookaside with
  | None =>
      if is_opaque fn && negb (bool_decide (fn ∈ _safe_functions)) then
        match _meso_sharp_edge
                ("Trying to call opaque function " +:+ extract_callable_name fn
                 +:+ ", but it's unsupported. Please file an issue requesting supporting.")
                ctx with
        | Raise e => Raise e
        | Ok ctx => Ok (None, ctx)
        end
      else Ok (None, ctx)
  | Some lookaside => Ok (Some lookaside, ctx)
  end.

End Lookasides.

(** Modelled from the spec: the methods of [NumberProxy] are declared in
    [thunder.core.proxies].  The comparison and arithmetic methods dispatch
    to the primitive of the same name; on two integers with known values
    the primitive computes the operation. *)
Definition call_number_method (name : string) (a b : Z) : option PyObj :=
  if String.eqb name "__le__" then Some (PyBool (a <=? b)%Z)
  else if String.eqb name "__ge__" then Some (PyBool (a >=? b)%Z)
  else if String.eqb name "__add__" then Some (PyInt (a + b)%Z)
  else if String.eqb name "__sub__" then Some (PyInt (a - b)%Z)
  else if String.eqb name "__floordiv__" then
    (if (b =? 0)%Z then None else Some (PyInt (a / b)%Z))
  else None.

(** The function a callable computes on unwrapped integer operands.
    [jit_needs_wrap f] unwraps the arguments, calls [f] and wraps the
    result. *)
Fixpoint call (f : PyCallable) (a b : Z) : option PyObj :=
  match f with
  | proxy_method NumberProxyClass name => call_number_method name a b
  | jit_needs_wrap g => call g a b
  | _ => None
  end.

(** *** The inputs of the computation trace *)

(** Modelled from the spec: [flat_variableified_proxy_args] is a property
    of [BoundSymbol], declared in [thunder.core.symbol]: the proxies among
    the flattened arguments, in order, each as a [Variable].  A [Variable]
    wraps one proxy and is hashed and compared by the proxy's name, names
    being unique within a compilation. *)
Fixpoint flat_proxies (a : Arg) : list Proxy :=
  match a with
  | AProxy p => [p]
  | AObj _ => []
  | ATuple elts => flat_map flat_proxies elts
  end.

Definition flat_variableified_proxy_args (bsym : BoundSymbol) : list Proxy :=
  flat_map flat_proxies (args bsym).

(** The body of the inner loop: [acc] is [(inputs_list, inputs_set)]. *)
Definition add_input (acc : list Proxy * gset string) (v : Proxy)
  : list Proxy * gset string :=
  match history v with
  | Some _ =>
      if bool_decide (name v ∈ acc.2) then acc
      else (acc.1 ++ [v], {[name v]} ∪ acc.2)
  | None => acc
  end.

Definition get_computation_inputs (computation_trace : TraceCtx) : list Proxy :=
  (fold_left
     (fun acc bsym => fold_left add_input (flat_variableified_proxy_args bsym) acc)
     (bound_symbols computation_trace) ([], ∅)).1.

(** *** Prologue synthesis *)

(** The state [unpack_inputs] works on: the prologue trace, the keys of
    [already_unpacked], and the attribute [proxy] of the provenance
    records, by record identity. *)
Record UnpackState := mkUnpackState {
  prologue_trace : TraceCtx;
  already_unpacked : gset nat;
  record_proxy : gmap nat Arg
}.

Definition M (A : Type) : Type := UnpackState -> Result (A * UnpackState).

Definition ret {A} (a : A) : M A := fun s => Ok (a, s).

Definition bind {A B} (m : M A) (k : A -> M B) : M B :=
  fun s => match m s with
           | Ok (a, s') => k a s'
           | Raise e => Raise e
           end.

Definition raise {A} (e : PyError) : M A := fun _ => Raise e.

Notation "'let!' x := m 'in' k" := (bind m (fun x => k))
  (at level 10, x name, m at level 100, k at level 200).

Fixpoint mapM {A B} (f : A -> M B) (l : list A) : M (list B) :=
  match l with
  | [] => ret []
  | x :: l' => let! y := f x in let! ys := mapM f l' in ret (y :: ys)
  end.

(** [prologue_trace.bound_symbols.append(bsym)] *)
Definition append_bsym (bsym : BoundSymbol) : M unit :=
  fun s => Ok (tt, {| prologue_trace := record_bsym (prologue_trace s) bsym;
                      already_unpacked := already_unpacked s;
                      record_proxy := record_proxy s |}).

(** [hasattr(provenance, "proxy")] together with [provenance.proxy] *)
Definition get_record_proxy (provenance : ProvenanceRecord) : M (option Arg) :=
  fun s => Ok (match rid provenance with
               | Some i => record_proxy s !! i
               | None => None
               end, s).

(** [provenance.proxy = v] *)
Definition set_record_proxy (provenance : ProvenanceRecord) (v : Arg) : M unit :=
  fun s => Ok (tt, {| prologue_trace := prologue_trace s;
                      already_unpacked := already_unpacked s;
                      record_proxy :=
                        match rid provenance with
                        | Some i => <[i := v]> (record_proxy s)
                        | None => record_proxy s
                        end |}).

(** [Proxy(name=n)]: a new proxy of the base class, without history. *)
Definition Proxy_new (n : string) : Proxy :=
  {| pid := None; name := n; kind := PlainProxy; history := None |}.

(** [prim.bind(a0, a1, ..., output=output)] *)
Definition bind_symbol (prim : Prim) (args : list Arg) (output : Arg)
  : BoundSymbol :=
  {| sym := prim; args := args; output := Some output |}.

Inductive UnpackFn :=
| from_input_fn
| from_load_attr_fn
| from_constant_fn
| from_binary_subscr_fn
| from_opaque_fn.

(** The dictionary [d] of [from_provenance]. *)
Definition d : list (string * UnpackFn) :=
  [ ("INPUT_ARGS", from_input_fn);
    ("INPUT_KWARGS", from_input_fn);
    ("INPUT_FN", from_input_fn);
    ("LOAD_ATTR", from_load_attr_fn);
    ("CONSTANT", from_constant_fn);
    ("BINARY_SUBSCR", from_binary_subscr_fn);
    ("OPAQUE", from_opaque_fn) ].

Section Prologue.

(** The classes of the number and string proxies are declared in
    [thunder.core.proxies].  For a proxy [q], [proxy_index q] is
    [Some i] when [isinstance(q, (int, str))] holds, [i] being [int(q)] or
    [str(q)], and [None] when it does not. *)
Variable proxy_index : Proxy -> option PyObj.

(** The index that [from_binary_subscr] binds, when [idx] is an [int] or a
    [str]; [int(True)] is [1]. *)
Definition subscr_index (idx : Arg) : option PyObj :=
  match idx with
  | AObj (PyInt z) => Some (PyInt z)
  | AObj (PyBool b) => Some (PyInt (Z.b2z b))
  | AObj (PyStr s) => Some (PyStr s)
  | AProxy q => proxy_index q
  | _ => None
  end.

(** The functions nested in [unpack].  [p] is the proxy being unpacked and
    [from_provenance] the recursive call. *)
Section Handlers.

Variable p : Proxy.
Variable from_provenance : ProvenanceRecord -> bool -> M Arg.

Definition from_input (provenance : ProvenanceRecord) (new_output : bool)
  : M Arg :=
  let! output :=
    (if new_output then
       let! name :=
         (if inst_is (inst provenance) INPUT_ARGS then ret "args"
          else if inst_is (inst provenance) INPUT_KWARGS then ret "kwargs"
          else if inst_is (inst provenance) INPUT_FN then ret "fn"
          else raise UnboundLocalError) in
       let output := Proxy_new name in
       let! _ := set_record_proxy provenance (AProxy output) in
       ret output
     else
       let! _ := set_record_proxy provenance (AProxy p) in
       ret p) in
  let bsym :=
    if inst_is (inst provenance) INPUT_FN
    then bind_symbol unpack_function_obj [AProxy output] (AProxy output)
    else bind_symbol unpack_trivial [AProxy output] (AProxy output) in
  let! _ := append_bsym bsym in
  ret (AProxy output).

Definition from_load_attr (provenance : ProvenanceRecord) (new_output : bool)
  : M Arg :=
  let! inputs := mapM (fun i => from_provenance i true) (inputs provenance) in
  let output := if new_output then Proxy_new "obj" else p in
  match inputs with
  | i0 :: i1 :: _ =>
      let! _ := append_bsym (bind_symbol unpack_attr [i0; i1] (AProxy output)) in
      ret (AProxy output)
  | _ => raise IndexError
  end.

Definition from_constant (provenance : ProvenanceRecord) (new_output : bool)
  : M Arg :=
  if is_int_or_str (value provenance) then ret (AObj (value provenance))
  else raise (NotImplementedError "constant of type").

Definition from_binary_subscr (provenance : ProvenanceRecord)
    (new_output : bool) : M Arg :=
  let! inputs := mapM (fun i => from_provenance i true) (inputs provenance) in
  match inputs with
  | [obj; idx] =>
      let output := if new_output then Proxy_new "subscr" else p in
      match subscr_index idx with
      | Some idx =>
          let! _ := append_bsym (bind_symbol unpack_getitem [obj; AObj idx] (AProxy output)) in
          ret (AProxy output)
      | None =>
          raise (NotImplementedError
                   "Unpacking from BINARY_SUBSCR with elaborate inputs")
      end
  | _ => raise (ValueError "not enough or too many values to unpack (expected 2)")
  end.

Definition from_opaque (provenance : ProvenanceRecord) (new_output : bool)
  : M Arg :=
  match inputs provenance with
  | fn :: args :: _ =>
      if negb (inst_is (inst fn) CONSTANT) then
        raise (NotImplementedError "unpacking from nonconstant opaque function")
      else
        match py_name (value fn) with
        | None => raise AttributeError
        | Some fn_name =>
            if String.eqb fn_name "__getitem__" then
              match inputs args with
              | [idx; obj] =>
                  from_provenance
                    (mkProvenanceRecord None BINARY_SUBSCR [obj; idx] PyNone)
                    new_output
              | _ => raise (ValueError
                       "not enough or too many values to unpack (expected 2)")
              end
            else
              match value fn with
              | GetSetDescriptorType___get__ =>
                  match inputs args with
                  | [_; a1; a2] =>
                      match inst_is (inst a2) CONSTANT, value a2 with
                      | true, PyGetSetDescriptor attr_name =>
                          from_provenance
                            (mkProvenanceRecord None LOAD_ATTR
                               [a1;
                                mkProvenanceRecord None CONSTANT []
                                  (PyStr attr_name)]
                               PyNone)
                            false
                      | _, _ =>
                          raise (AssertionError
                                   "args.inputs[2] is not a constant GetSetDescriptorType")
                      end
                  | _ => raise (AssertionError "len(args.inputs) != 3")
                  end
              | _ => raise (NotImplementedError "unpacking from OPAQUE")
              end
        end
  | _ => raise IndexError
  end.

Definition unpack_fn (f : UnpackFn) : ProvenanceRecord -> bool -> M Arg :=
  match f with
  | from_input_fn => from_input
  | from_load_attr_fn => from_load_attr
  | from_constant_fn => from_constant
  | from_binary_subscr_fn => from_binary_subscr
  | from_opaque_fn => from_opaque
  end.

End Handlers.

(** [from_provenance].  The recursion descends into the inputs of a record
    or, from [from_opaque], into a new record built from inputs of an
    input; [fuel] bounds its depth. *)
Fixpoint from_provenance (fuel : nat) (p : Proxy)
    (provenance : ProvenanceRecord) (new_output : bool) : M Arg :=
  match fuel with
  | O => raise OutOfFuel
  | S fuel =>
      let! cached := get_record_proxy provenance in
      match cached with
      | Some v => ret v
      | None =>
          match dict_get d (inst_name (inst provenance)) with
          | None => raise (NotImplementedError
                             ("Unpacking from " +:+ inst_name (inst provenance)))
          | Some f =>
              let! res := unpack_fn p (from_provenance fuel p) f provenance new_output in
              let! _ := set_record_proxy provenance res in
              ret res
          end
      end
  end.

(** [set_state]-like helpers of [unpack]. *)
Definition is_already_unpacked (p : Proxy) : M bool :=
  fun s => Ok (match pid p with
               | Some i => bool_decide (i ∈ already_unpacked s)
               | None => false
               end, s).

Definition mark_unpacked (p : Proxy) : M unit :=
  fun s => Ok (tt, {| prologue_trace := prologue_trace s;
                      already_unpacked :=
                        match pid p with
                        | Some i => {[i]} ∪ already_unpacked s
                        | None => already_unpacked s
                        end;
                      record_proxy := record_proxy s |}).

Definition register_name (n : string) : M unit :=
  fun s => Ok (tt, {| prologue_trace :=
                        if has_name (prologue_trace s) n then prologue_trace s
                        else add_name (prologue_trace s) n;
                      already_unpacked := already_unpacked s;
                      record_proxy := record_proxy s |}).

(** The bound symbol of
    [prims.assert_tensor_metadata(p, p.shape, p.device, p.dtype, p.requires_grad)];
    a device and a dtype are written by their names. *)
Definition assert_tensor_metadata_bsym (p : Proxy) : BoundSymbol :=
  match kind p with
  | TensorProxy shape device dtype requires_grad =>
      {| sym := assert_tensor_metadata;
         args := [AProxy p; ATuple (map (fun z => AObj (PyInt z)) shape);
                  AObj (PyStr device); AObj (PyStr dtype);
                  AObj (PyBool requires_grad)];
         output := None |}
  | _ => {| sym := assert_tensor_metadata; args := [AProxy p]; output := None |}
  end.

Definition unpack (p : Proxy) : M Proxy :=
  match history p with
  | None => raise (AssertionError "p.history is None")
  | Some h =>
      let! seen := is_already_unpacked p in
      if seen then ret p
      else
        let! _ := register_name (name p) in
        let! _ := from_provenance (pr_size h) p h false in
        let! _ := mark_unpacked p in
        let! _ := (if is_TensorProxy p
                   then append_bsym (assert_tensor_metadata_bsym p)
                   else ret tt) in
        ret p
  end.

(** One turn of the loop over [ctx._constraints]: every argument that is a
    proxy is unpacked, then the guard is called, which records its bound
    symbol in the prologue trace. *)
Definition replay_constraint (c : Constraint) : M unit :=
  let! _ := mapM (fun a => match a with
                           | AProxy q => let! _ := unpack q in ret tt
                           | _ => ret tt
                           end) (snd c) in
  append_bsym {| sym := fst c; args := snd c; output := None |}.

Definition python_return_bsym (a : Arg) : BoundSymbol :=
  {| sym := python_return; args := [a]; output := None |}.

(** The body of [unpack_inputs], as a computation on the state. *)
Definition unpack_inputs_body (ctx : MesoCtx) (inputs : list Proxy)
  : M (list Proxy) :=
  let! prologue_outputs := mapM unpack inputs in
  let! _ := mapM replay_constraint (_constraints ctx) in
  let! _ := append_bsym
              (python_return_bsym (ATuple (map AProxy prologue_outputs))) in
  ret prologue_outputs.

(** [unpack_inputs].  No record carries the attribute [proxy] at the start:
    it is assigned only by [from_input] and [from_provenance]. *)
Definition unpack_inputs (ctx : MesoCtx) (prologue_trace : TraceCtx)
    (inputs : list Proxy) : Result (list Proxy * TraceCtx) :=
  match unpack_inputs_body ctx inputs
          {| prologue_trace := prologue_trace; already_unpacked := ∅;
             record_proxy := ∅ |} with
  | Ok (prologue_outputs, s) => Ok (prologue_outputs, JitExt.prologue_trace s)
  | Raise e => Raise e
  end.

(** *** The entry point *)

(** The start index of the slice [l[i:]] and the stop index of [l[:i]]: a
    negative index counts from the end, and both are clipped to the
    list. *)
Definition py_index {A} (l : list A) (i : Z) : nat :=
  if (i <? 0)%Z then Z.to_nat (Z.max (Z.of_nat (length l) + i) 0)
  else Nat.min (Z.to_nat i) (length l).

Definition py_slice_from {A} (l : list A) (i : Z) : list A :=
  drop (py_index l i) l.
Definition py_slice_to {A} (l : list A) (i : Z) : list A :=
  take (py_index l i) l.

(** The bound symbol that the call [prims.unpack_trivial(p)] records; the
    primitive returns its argument. *)
Definition unpack_trivial_bsym (p : Proxy) : BoundSymbol :=
  bind_symbol unpack_trivial [AProxy p] (AProxy p).

(** "Unpacks inputs into the computation trace": the unpacks are recorded
    at the end of the trace and then moved to the beginning.  This is the
    pass on a trace whose [bound_symbols] has not been assigned, as
    [meso_thunder_interpreter] runs it: what the primitives record is
    appended to [bound_symbols].  [HoistScope] has the pass on a trace in
    any state. *)
Definition hoist_unpacks (prologue_outputs : list Proxy)
    (computation_trace : TraceCtx) : TraceCtx :=
  let computation_trace :=
    fold_left (fun t p => record_bsym t (unpack_trivial_bsym p))
              prologue_outputs computation_trace in
  let bsyms := bound_symbols computation_trace in
  let n := Z.of_nat (length prologue_outputs) in
  set_bound_symbols computation_trace
    (py_slice_from bsyms (- n) ++ py_slice_to bsyms (- n)).

Definition set_siginfo (t : TraceCtx) (si : SigInfo) : TraceCtx :=
  {| bound_symbols := bound_symbols t; names := names t; _siginfo := Some si;
     trace_args := trace_args t |}.

Definition set_trace_args (t : TraceCtx) (a : list Proxy) : TraceCtx :=
  {| bound_symbols := bound_symbols t; names := names t;
     _siginfo := _siginfo t; trace_args := a |}.

(** [co not in {CACHE_OPTIONS.CONSTANT_VALUES, CACHE_OPTIONS.NO_CACHING}] *)
Definition cache_option_supported (co : CACHE_OPTIONS) : bool :=
  match co with
  | CONSTANT_VALUES | NO_CACHING => true
  | OTHER_CACHE_OPTION _ => false
  end.

(** What the entry point has done so far, in order: the construction of a
    trace context and the run of the interpreter. *)
Inductive Event :=
| NewTraceCtx
| RunInterpreter.

Section EntryPoint.

(** The interpreter of [thunder.core.jit], applied to the user's function
    and arguments with [lit_lookaside] and [lit_callbacks]: from the
    context and the computation trace it yields the result of the
    function and the two as the callbacks and the primitives left them, or
    raises. *)
Variable jfn : MesoCtx -> TraceCtx -> Result (Arg * MesoCtx * TraceCtx).

(** The part of [meso_thunder_interpreter] after the cache option has been
    accepted. *)
Definition interpret_and_build (sharp_edges : SHARP_EDGES_OPTIONS)
  : list Event * Result (TraceCtx * TraceCtx) :=
  let prologue_trace := TraceCtx_new in
  let computation_trace := TraceCtx_new in
  let si := {| si_name := "prologue"; si_args := [];
               si_varargs := Some "args"; si_varkwargs := Some "kwargs" |} in
  let prologue_trace := set_siginfo prologue_trace si in
  let ctx := MesoCtx_new sharp_edges in
  ([NewTraceCtx; NewTraceCtx; RunInterpreter],
   match jfn ctx computation_trace with
   | Raise e => Raise e
   | Ok (result, ctx, computation_trace) =>
       let computation_trace :=
         record_bsym computation_trace (python_return_bsym result) in
       let computation_inputs := get_computation_inputs computation_trace in
       match unpack_inputs ctx prologue_trace computation_inputs with
       | Raise e => Raise e
       | Ok (prologue_outputs, prologue_trace) =>
           let computation_trace :=
             hoist_unpacks prologue_outputs computation_trace in
           let si := {| si_name := "computation";
                        si_args := map name computation_inputs;
                        si_varargs := None; si_varkwargs := None |} in
           let computation_trace := set_siginfo computation_trace si in
           let computation_trace :=
             set_trace_args computation_trace prologue_outputs in
           Ok (prologue_trace, computation_trace)
       end
   end).

Definition meso_thunder_interpreter (co : CACHE_OPTIONS)
    (sharp_edges : SHARP_EDGES_OPTIONS)
  : list Event * Result (TraceCtx * TraceCtx) :=
  if negb (cache_option_supported co) then
    ([], Raise (NotImplementedError "Only constant constraints is supported"))
  else interpret_and_build sharp_edges.

End EntryPoint.

End Prologue.

End JitExt.

(** ** Vocabulary of the statements *)

Module JitExtSpec.
Import JitExt.

(** "Every tag in the transitive closure": [t] is the tag of the record or
    of a record reached through inputs. *)
Inductive tag_of_closure (t : string) : ProvenanceRecord -> Prop :=
| tag_here pr : inst_name (inst pr) = t -> tag_of_closure t pr
| tag_below pr x :
    In x (inputs pr) -> tag_of_closure t x -> tag_of_closure t pr.

Definition safe_for_guarding (pr : ProvenanceRecord) : Prop :=
  forall t, tag_of_closure t pr ->
    In t ["INPUT_ARGS"; "INPUT_KWARGS"; "INPUT_FN"; "LOAD_ATTR"; "CONSTANT";
          "BINARY_SUBSCR"].

(** The proxy that [proxy] makes for a value that can be proxied. *)
Definition fresh_proxy (make_proxy_name : nat -> string) (ctx : MesoCtx)
    (k : ProxyKind) (h : ProvenanceRecord) : Proxy :=
  {| pid := Some (next_id ctx); name := make_proxy_name (next_id ctx);
     kind := k; history := Some h |}.

(** [p.history is not None] *)
Definition has_history (p : Proxy) : bool :=
  match history p with Some _ => true | None => false end.

(** The uses of inputs in a list of bound symbols: the proxies with a
    history among the arguments, in the order of the symbols and of their
    arguments, with repetitions. *)
Definition used_inputs (bsyms : list BoundSymbol) : list Proxy :=
  List.filter has_history (flat_map flat_variableified_proxy_args bsyms).

(** [q1] is used before the first use of [q2]: there is a use of [q1] such
    that no proxy named as [q2] is used up to and including it. *)
Definition first_used_before (used : list Proxy) (q1 q2 : Proxy) : Prop :=
  exists l1 l2, used = l1 ++ q1 :: l2 /\ ~ In (name q2) (map name (l1 ++ [q1])).

(** [outs] lists its elements in the order of their first use in [used]. *)
Definition in_first_use_order (used outs : list Proxy) : Prop :=
  forall l1 q1 l2 q2 l3,
    outs = l1 ++ q1 :: l2 ++ q2 :: l3 -> first_used_before used q1 q2.

(** Names identify proxies: two uses under one name are uses of one
    proxy. *)
Definition names_identify (used : list Proxy) : Prop :=
  forall p q, In p used -> In q used -> name p = name q -> p = q.

(** The unpack family of primitives. *)
Definition is_unpack_prim (prim : Prim) : bool :=
  match prim with
  | unpack_trivial | unpack_function_obj | unpack_attr | unpack_getitem => true
  | _ => false
  end.

Definition is_unpack_bsym (b : BoundSymbol) : Prop :=
  is_unpack_prim (sym b) = true.

(** What [unpack p] appends for the guard of [p]. *)
Definition tensor_guard (p : Proxy) : list BoundSymbol :=
  if is_TensorProxy p then [assert_tensor_metadata_bsym p] else [].

(** An unpack symbol of [p]: its primitive is of the unpack family and
    what it binds is [p], or a proxy that the synthesis has made for an
    object on the way to [p], which has no identity of its own. *)
Definition unpacks_for (p : Proxy) (b : BoundSymbol) : Prop :=
  is_unpack_prim (sym b) = true
  /\ exists q, output b = Some (AProxy q) /\ (q = p \/ pid q = None).

(** [r'] is [r] or a record reached from [r] through inputs. *)
Inductive reached_from (r : ProvenanceRecord) : ProvenanceRecord -> Prop :=
| reached_here : reached_from r r
| reached_below x r' :
    In x (inputs r) -> reached_from x r' -> reached_from r r'.

(** The history of [p] is met for the first time when [p] is unpacked
    after the inputs [earlier]: it is no record reached from the history
    of one of them; and it is not a constant, for which nothing is
    bound. *)
Definition first_reached (earlier : list Proxy) (p : Proxy) : Prop :=
  exists h, history p = Some h
    /\ inst_name (inst h) <> "CONSTANT"
    /\ forall i q hq r',
         rid h = Some i -> In q earlier -> history q = Some hq ->
         reached_from hq r' -> rid r' <> Some i.

(** The symbols that the input [p] contributes to the prologue, after the
    inputs [earlier]: unpack symbols of [p], the last of which binds [p]
    when the history of [p] is met for the first time, and then the guard
    of [p] if it is a tensor proxy. *)
Definition input_chunk (earlier : list Proxy) (p : Proxy)
    (chunk : list BoundSymbol) : Prop :=
  exists us,
    chunk = us ++ tensor_guard p
    /\ Forall (unpacks_for p) us
    /\ (first_reached earlier p ->
        exists us' b, us = us' ++ [b] /\ output b = Some (AProxy p)).

(** One chunk per input, in the order of the inputs. *)
Fixpoint input_chunks (earlier inputs : list Proxy)
    (chunks : list (list BoundSymbol)) : Prop :=
  match inputs, chunks with
  | [], [] => True
  | p :: inputs', chunk :: chunks' =>
      input_chunk earlier p chunk
      /\ input_chunks (earlier ++ [p]) inputs' chunks'
  | _, _ => False
  end.

(** No record of the state carries the attribute [proxy] for [r]. *)
Definition uncached (r : ProvenanceRecord) (s : UnpackState) : Prop :=
  match rid r with
  | Some i => record_proxy s !! i = None
  | None => True
  end.

(** The invariant of the loop, after the uses [l] have been visited. *)
Definition inputs_invariant (l : list Proxy) (r : list Proxy * gset string)
  : Prop :=
  (forall n, n ∈ r.2 <-> In n (map name r.1))
  /\ NoDup (map name r.1)
  /\ (forall q, In q r.1 -> In q l)
  /\ (forall p, In p l -> In (name p) (map name r.1))
  /\ in_first_use_order l r.1.

(** A computation that only appends unpack symbols to the prologue trace
    and touches neither the names nor [already_unpacked]. *)
Definition only_unpacks (s s' : UnpackState) : Prop :=
  (exists us, bound_symbols (prologue_trace s')
              = bound_symbols (prologue_trace s) ++ us
              /\ Forall is_unpack_bsym us)
  /\ names (prologue_trace s') = names (prologue_trace s)
  /\ already_unpacked s' = already_unpacked s.

Definition unpacking {A} (m : M A) : Prop :=
  forall s a s', m s = Ok (a, s') -> only_unpacks s s'.

(** A computation whose effect on the state is within a relation. *)
Definition stepping (R : UnpackState -> UnpackState -> Prop) {A} (m : M A)
  : Prop :=
  forall s a s', m s = Ok (a, s') -> R s s'.

(** The symbols appended are unpack symbols of [p]. *)
Definition appends_for (p : Proxy) (s s' : UnpackState) : Prop :=
  exists us, bound_symbols (prologue_trace s')
             = bound_symbols (prologue_trace s) ++ us
             /\ Forall (unpacks_for p) us.

(** The records that have received the attribute [proxy] are reached from
    [r]. *)
Definition caches_below (r : ProvenanceRecord) (s s' : UnpackState) : Prop :=
  forall i, record_proxy s' !! i <> None ->
    record_proxy s !! i <> None
    \/ exists r', reached_from r r' /\ rid r' = Some i.

(** Every record that carries the attribute [proxy] is reached from the
    history of one of the inputs [earlier]. *)
Definition cached_from (earlier : list Proxy) (s : UnpackState) : Prop :=
  forall i, record_proxy s !! i <> None ->
    exists q hq r', In q earlier /\ history q = Some hq
                    /\ reached_from hq r' /\ rid r' = Some i.

(** A computation that does not stop for lack of fuel. *)
Definition fueled {A} (m : M A) : Prop :=
  forall s, m s <> Raise OutOfFuel.

End JitExtSpec.

(** ** Concrete inputs for the examples *)

Module JitExtExamples.
Import JitExt.

Definition mk_name (n : nat) : string := "p".

(** The literal [1] behind a [CONSTANT] record, and an integer argument
    [args[0]]; the latter also as the result of [len(args)], whose record
    is tagged by the call instruction. *)
Definition const_one : WrappedValue :=
  {| concrete_value := Obj (PyInt 1);
     provenance := mkProvenanceRecord (Some 0) CONSTANT [] (PyInt 1);
     bound_proxy := None |}.

Definition arg_zero : ProvenanceRecord :=
  mkProvenanceRecord (Some 2) BINARY_SUBSCR
    [mkProvenanceRecord (Some 0) INPUT_ARGS [] PyNone;
     mkProvenanceRecord (Some 1) CONSTANT [] (PyInt 0)] PyNone.

Definition int_input : WrappedValue :=
  {| concrete_value := Obj (PyInt 7); provenance := arg_zero;
     bound_proxy := None |}.

Definition int_computed : WrappedValue :=
  {| concrete_value := Obj (PyInt 7);
     provenance := mkProvenanceRecord (Some 3) (Instruction "CALL_FUNCTION")
                     [arg_zero] PyNone;
     bound_proxy := None |}.

Definition tensor_const : WrappedValue :=
  {| concrete_value := Obj (PyTensor [4; 4]%Z "cpu" "float32" false);
     provenance := mkProvenanceRecord (Some 0) CONSTANT [] PyNone;
     bound_proxy := None |}.

(** [f(x, y) = x + y] on two tensors: the records of [args[0]] and
    [args[1]], the proxies of the two inputs and of the sum, and the
    computation trace after interpretation. *)
Definition rec_args : ProvenanceRecord :=
  mkProvenanceRecord (Some 0) INPUT_ARGS [] PyNone.
Definition rec_x : ProvenanceRecord :=
  mkProvenanceRecord (Some 2) BINARY_SUBSCR
    [rec_args; mkProvenanceRecord (Some 1) CONSTANT [] (PyInt 0)] PyNone.
Definition rec_y : ProvenanceRecord :=
  mkProvenanceRecord (Some 4) BINARY_SUBSCR
    [rec_args; mkProvenanceRecord (Some 3) CONSTANT [] (PyInt 1)] PyNone.

Definition float_4x4 : ProxyKind := TensorProxy [4; 4]%Z "cpu" "float32" false.

Definition t0 : Proxy :=
  {| pid := Some 0; name := "t0"; kind := float_4x4; history := Some rec_x |}.
Definition t1 : Proxy :=
  {| pid := Some 1; name := "t1"; kind := float_4x4; history := Some rec_y |}.
Definition t2 : Proxy :=
  {| pid := Some 2; name := "t2"; kind := float_4x4; history := None |}.

Definition add_bsym : BoundSymbol :=
  {| sym := other_prim "add"; args := [AProxy t0; AProxy t1];
     output := Some (AProxy t2) |}.

Definition add_trace : TraceCtx :=
  set_bound_symbols TraceCtx_new [add_bsym; python_return_bsym (AProxy t2)].

(** The interpreter's run on [f]: the wrap callback has recorded a
    constraint per tensor and the primitive [add] its bound symbol. *)
Definition add_jfn (ctx : MesoCtx) (computation_trace : TraceCtx)
  : Result (Arg * MesoCtx * TraceCtx) :=
  Ok (AProxy t2,
      add_constraint
        (add_constraint ctx (check_tensor_shape_and_metadata, [AProxy t0]))
        (check_tensor_shape_and_metadata, [AProxy t1]),
      record_bsym computation_trace add_bsym).

(** No proxy is an [int] or a [str]. *)
Definition no_proxy_index (q : Proxy) : option PyObj := None.

(** A tensor reached as [args.__getitem__(0)]: the record of the opaque
    call, with the callee, the arguments in the order the interpreter
    stores them, and the keyword arguments. *)
Definition rec_getitem : ProvenanceRecord :=
  mkProvenanceRecord (Some 10) CONSTANT [] (PyFunction "__getitem__").
Definition rec_call_args : ProvenanceRecord :=
  mkProvenanceRecord (Some 11) (PseudoInst "BUILD_TUPLE")
    [mkProvenanceRecord (Some 1) CONSTANT [] (PyInt 0); rec_args] PyNone.
Definition rec_call_kwargs : ProvenanceRecord :=
  mkProvenanceRecord (Some 12) (PseudoInst "BUILD_DICT") [] PyNone.
Definition rec_opaque_getitem : ProvenanceRecord :=
  mkProvenanceRecord (Some 13) OPAQUE
    [rec_getitem; rec_call_args; rec_call_kwargs] PyNone.

(** The same call with the callee [len]. *)
Definition rec_opaque_len : ProvenanceRecord :=
  mkProvenanceRecord (Some 14) OPAQUE
    [mkProvenanceRecord (Some 15) CONSTANT [] (PyFunction "len");
     rec_call_args; rec_call_kwargs] PyNone.

(** An attribute read through a getset descriptor:
    [GetSetDescriptorType.__get__(descriptor, obj, type)]. *)
Definition rec_descr_args : ProvenanceRecord :=
  mkProvenanceRecord (Some 21) (PseudoInst "BUILD_TUPLE")
    [mkProvenanceRecord (Some 22) CONSTANT [] (PyInstance "type" true);
     rec_x;
     mkProvenanceRecord (Some 23) CONSTANT [] (PyGetSetDescriptor "grad")]
    PyNone.
Definition rec_opaque_get : ProvenanceRecord :=
  mkProvenanceRecord (Some 24) OPAQUE
    [mkProvenanceRecord (Some 20) CONSTANT [] GetSetDescriptorType___get__;
     rec_descr_args; rec_call_kwargs] PyNone.

(** The descriptor called with two arguments,
    [GetSetDescriptorType.__get__(descriptor, obj)]. *)
Definition rec_descr_two_args : ProvenanceRecord :=
  mkProvenanceRecord (Some 25) (PseudoInst "BUILD_TUPLE")
    [mkProvenanceRecord (Some 23) CONSTANT [] (PyGetSetDescriptor "grad");
     rec_x]
    PyNone.
Definition rec_opaque_get_two : ProvenanceRecord :=
  mkProvenanceRecord (Some 26) OPAQUE
    [mkProvenanceRecord (Some 20) CONSTANT [] GetSetDescriptorType___get__;
     rec_descr_two_args; rec_call_kwargs] PyNone.

Definition t5 : Proxy :=
  {| pid := Some 5; name := "t5"; kind := float_4x4;
     history := Some rec_opaque_getitem |}.

Definition empty_state : UnpackState :=
  {| prologue_trace := TraceCtx_new; already_unpacked := ∅;
     record_proxy := ∅ |}.

End JitExtExamples.

(** ** The line table writer ([python_ir.py]) *)

Module LineTable.

Local Open Scope Z_scope.

(** The variables that the closures [_update], [update] and [end] of
    [linetable_writer] share. *)
Record Writer := mkWriter {
  linetable : list Z;
  lineno : Z;
  lineno_delta : Z;
  byteno : Z
}.

(** The state right after [linetable_writer(first_lineno)]. *)
Definition linetable_writer (first_lineno : Z) : Writer :=
  {| linetable := []; lineno := first_lineno; lineno_delta := 0; byteno := 0 |}.

(** The loop of [_update]; [fuel] bounds the number of turns. *)
Fixpoint _update_loop (fuel : nat) (byteno_delta lineno_delta : Z)
    (linetable : list Z) : Result (list Z) :=
  match fuel with
  | O => Raise OutOfFuel
  | S fuel =>
      if negb (byteno_delta =? 0) || negb (lineno_delta =? 0) then
        let byte_offset := Z.max 0 (Z.min byteno_delta 254) in
        let line_offset := Z.max (-127) (Z.min lineno_delta 127) in
        if negb (byte_offset =? 0) || negb (line_offset =? 0) then
          _update_loop fuel (byteno_delta - byte_offset)
            (lineno_delta - line_offset)
            (linetable ++ [byte_offset; Z.land line_offset 255])
        else Raise (AssertionError "byte_offset != 0 or line_offset != 0")
      else Ok linetable
  end.

(** [_update]: every turn of the loop that does not fail the assertion
    brings one of the two deltas nearer to 0, so their absolute values
    bound the number of turns. *)
Definition _update (byteno_delta lineno_delta : Z) (linetable : list Z)
  : Result (list Z) :=
  _update_loop (S (Z.to_nat (Z.abs byteno_delta + Z.abs lineno_delta)))
    byteno_delta lineno_delta linetable.

Definition update (w : Writer) (lineno_new byteno_new : Z) : Result Writer :=
  let byteno_delta := byteno_new - byteno w in
  match _update byteno_delta (lineno_delta w) (linetable w) with
  | Raise e => Raise e
  | Ok t => Ok {| linetable := t; lineno := lineno_new;
                  lineno_delta := lineno_new - lineno w;
                  byteno := byteno_new |}
  end.

(** The closure [end]. *)
Definition end_ (w : Writer) (total_bytes : Z) : Result Writer :=
  match _update (total_bytes - byteno w) (lineno_delta w) (linetable w) with
  | Raise e => Raise e
  | Ok t => Ok {| linetable := t; lineno := lineno w;
                  lineno_delta := lineno_delta w; byteno := byteno w |}
  end.

(** The use [generate_function] makes of a writer: one [update] per node
    that has a line number, with the line and the address of the node,
    then [end] with the length of the code. *)
Fixpoint updates (w : Writer) (marks : list (Z * Z)) : Result Writer :=
  match marks with
  | [] => Ok w
  | (line, address) :: marks' =>
      match update w line address with
      | Raise e => Raise e
      | Ok w' => updates w' marks'
      end
  end.

Definition write_table (first_lineno : Z) (marks : list (Z * Z))
    (total_bytes : Z) : Result (list Z) :=
  match updates (linetable_writer first_lineno) marks with
  | Raise e => Raise e
  | Ok w => match end_ w total_bytes with
            | Raise e => Raise e
            | Ok w' => Ok (linetable w')
            end
  end.

(** Reading a table: its entries are pairs of an address increment and a
    line increment, the latter a signed byte. *)
Definition signed_byte (x : Z) : Z := if x <? 128 then x else x - 256.

Fixpoint byte_total (t : list Z) : Z :=
  match t with
  | b :: _ :: t' => b + byte_total t'
  | _ => 0
  end.

Fixpoint line_total (t : list Z) : Z :=
  match t with
  | _ :: l :: t' => signed_byte l + line_total t'
  | _ => 0
  end.

(** A list of entries: pairs of an address increment in 0..254 and a line
    byte that stands for an increment in -127..127. *)
Inductive entries : list Z -> Prop :=
| entries_nil : entries []
| entries_cons b l t :
    0 <= b <= 254 -> 0 <= l <= 255 -> l <> 128 -> entries t ->
    entries (b :: l :: t).

(** The last line of a list of marks, [first] when there is none. *)
Definition last_line (first : Z) (marks : list (Z * Z)) : Z :=
  match last marks with
  | Some (line, _) => line
  | None => first
  end.

(** The addresses of the marks do not decrease, from [start] on. *)
Fixpoint ascending (start : Z) (marks : list (Z * Z)) : Prop :=
  match marks with
  | [] => True
  | (_, address) :: marks' => start <= address /\ ascending address marks'
  end.

Definition last_address (start : Z) (marks : list (Z * Z)) : Z :=
  match last marks with
  | Some (_, address) => address
  | None => start
  end.

(** What holds of a writer between two calls: the table is a list of
    entries; its address increments add up to the current address and its
    line increments to the distance from the first line to the line
    before the pending increment. *)
Definition writer_invariant (first : Z) (w : Writer) : Prop :=
  entries (linetable w)
  /\ byte_total (linetable w) = byteno w
  /\ line_total (linetable w) = lineno w - lineno_delta w - first
  /\ 0 <= byteno w.

End LineTable.

(** ** Blocks and nodes ([python_ir.py], [passes.py]) *)

Module GraphOps.

(** The objects of a graph, by identity.  [thunder.core.script.graph] is
    imported by the two files: a [Block] has the lists [nodes] and
    [jump_sources], both empty when it is created; a [Node] has the list
    [jump_targets], of pairs of a stack effect and a block, and an
    instruction, of which the functions here set the name; the attribute [block] of a node exists once it has been assigned.
    [gr.blocks] is the list of the blocks of the graph.  [next_object] is
    the identity that the next created object receives. *)
Record Graph := mkGraph {
  blocks : list nat;
  nodes : gmap nat (list nat);
  jump_sources : gmap nat (list nat);
  jump_targets : gmap nat (list (Z * Z * nat));
  block : gmap nat nat;
  opname : gmap nat string;
  next_object : nat
}.

(** [bl.nodes] and [bl.jump_sources] *)
Definition nodes_of (gr : Graph) (bl : nat) : list nat :=
  default [] (nodes gr !! bl).
Definition jump_sources_of (gr : Graph) (bl : nat) : list nat :=
  default [] (jump_sources gr !! bl).

(** [l.index(x)]: the first position of [x], if any. *)
Fixpoint index (l : list nat) (x : nat) : option nat :=
  match l with
  | [] => None
  | y :: l' => if decide (y = x) then Some 0%nat
               else option_map S (index l' x)
  end.

(** [l.insert(idx, x)] for [idx >= 0]. *)
Definition py_insert (idx : nat) (x : nat) (l : list nat) : list nat :=
  take idx l ++ x :: drop idx l.

Definition set_nodes (gr : Graph) (bl : nat) (l : list nat) : Graph :=
  {| blocks := blocks gr; nodes := <[bl := l]> (nodes gr);
     jump_sources := jump_sources gr; jump_targets := jump_targets gr;
     block := block gr; opname := opname gr; next_object := next_object gr |}.

Definition set_block (gr : Graph) (n bl : nat) : Graph :=
  {| blocks := blocks gr; nodes := nodes gr;
     jump_sources := jump_sources gr; jump_targets := jump_targets gr;
     block := <[n := bl]> (block gr); opname := opname gr;
     next_object := next_object gr |}.

Definition insert_before (new_n n : nat) (gr : Graph) : Result Graph :=
  match block gr !! n with
  | None => Raise AttributeError
  | Some bl =>
      match index (nodes_of gr bl) n with
      | None => Raise (ValueError "x is not in list")
      | Some idx =>
          Ok (set_block
                (set_nodes gr bl (py_insert idx new_n (nodes_of gr bl)))
                new_n bl)
      end
  end.

Definition insert_after (new_n n : nat) (gr : Graph) : Result Graph :=
  match block gr !! n with
  | None => Raise AttributeError
  | Some bl =>
      match index (nodes_of gr bl) n with
      | None => Raise (ValueError "x is not in list")
      | Some idx =>
          Ok (set_block
                (set_nodes gr bl (py_insert (idx + 1) new_n (nodes_of gr bl)))
                new_n bl)
      end
  end.

(** The two loops at the head of [split_block]: the first position at
    which the element is the object sought, the length of the list when
    there is none. *)
Fixpoint first_position (l : list nat) (x : nat) : nat :=
  match l with
  | [] => 0
  | y :: l' => if decide (y = x) then 0 else S (first_position l' x)
  end.

Definition split_block (gr : Graph) (bl n : nat) : Result (Graph * nat) :=
  let i := first_position (blocks gr) bl in
  if negb (i <? length (blocks gr))%nat then
    Raise (AssertionError "block not found")
  else
    let j := first_position (nodes_of gr bl) n in
    if negb (j <? length (nodes_of gr bl))%nat then
      Raise (AssertionError "node not found")
    else
      let nbl := next_object gr in
      let jump_node := S (next_object gr) in
      (* nbl.nodes = bl.nodes[j:] *)
      let nodes1 := <[nbl := drop j (nodes_of gr bl)]> (nodes gr) in
      (* del bl.nodes[j:]; bl.nodes.append(jump_node) *)
      let nodes2 :=
        <[bl := take j (default [] (nodes1 !! bl)) ++ [jump_node]]> nodes1 in
      Ok ({| blocks := py_insert (i + 1) nbl (blocks gr);
             nodes := nodes2;
             jump_sources := <[nbl := [jump_node]]> (jump_sources gr);
             jump_targets :=
               <[jump_node := [((0, 0)%Z, nbl)]]> (jump_targets gr);
             block := block gr;
             opname := <[jump_node := "JUMP_ABSOLUTE"]> (opname gr);
             next_object := S (S (next_object gr)) |},
          nbl).

(** No object of the graph has the identity of an object yet to be
    created. *)
Definition fresh (gr : Graph) : Prop :=
  forall id, (next_object gr <= id)%nat ->
    ~ In id (blocks gr) /\ nodes gr !! id = None
    /\ jump_sources gr !! id = None /\ jump_targets gr !! id = None
    /\ (forall bl, ~ In id (nodes_of gr bl)).

(** Each node listed in a block points back to that block. *)
Definition back_pointers (gr : Graph) : Prop :=
  forall bl n, In n (nodes_of gr bl) -> block gr !! n = Some bl.

End GraphOps.

(** ** The callbacks for global loads ([jit_ext.py]) *)

Module GlobalCallbacks.
Import JitExt.

(** The values of the globals, as far as the two callbacks tell them
    apart: the eight objects that [_lit_global_callback] lets through,
    any other module, any other object. *)
Inductive GlobalValue :=
| torch
| _global_backward_pre_hooks
| _global_backward_hooks
| _global_forward_hooks
| _global_forward_pre_hooks
| torch_nn_functional
| get_langctx
| prop_lookaside_helper_fn
| other_module (name : string)
| other_object (name : string).

(** [isinstance(value, ModuleType)] *)
Definition is_module (v : GlobalValue) : bool :=
  match v with
  | torch | torch_nn_functional | other_module _ => true
  | _ => false
  end.

(** The outcome of a function that starts with [globals_dict[name]]. *)
Inductive Loaded (A : Type) :=
| KeyError (key : string)
| Found (r : Result A).

Arguments KeyError {A} key.
Arguments Found {A} r.

Definition _minimal_global_callback (globals_dict : gmap string GlobalValue)
    (name : string) (ctx : MesoCtx) : Loaded (GlobalValue * MesoCtx) :=
  match globals_dict !! name with
  | None => KeyError name
  | Some value =>
      if negb (is_module value) then
        match _sharp_edge "Loading a global that is not a module" ctx with
        | Raise e => Found (Raise e)
        | Ok ctx => Found (Ok (value, ctx))
        end
      else Found (Ok (value, ctx))
  end.

(** The disjunction of the eight identity tests. *)
Definition is_supported_global (v : GlobalValue) : bool :=
  match v with
  | torch | _global_backward_pre_hooks | _global_backward_hooks
  | _global_forward_hooks | _global_forward_pre_hooks | torch_nn_functional
  | get_langctx | prop_lookaside_helper_fn => true
  | other_module _ | other_object _ => false
  end.

Definition _lit_global_callback (globals_dict : gmap string GlobalValue)
    (name : string) (ctx : MesoCtx) : Loaded (GlobalValue * MesoCtx) :=
  match globals_dict !! name with
  | None => KeyError name
  | Some value =>
      if is_supported_global value then Found (Ok (value, ctx))
      else
        match _meso_sharp_edge
                ("Tried to loading global " +:+ name
                 +:+ ". Global support is limited.") ctx with
        | Raise e => Found (Raise e)
        | Ok ctx => Found (Ok (value, ctx))
        end
  end.

End GlobalCallbacks.

(** ** The scope of a trace *)

Module HoistScope.
Import JitExt.

(** [TraceCtx] is imported from [thunder.core.trace].  A primitive called
    inside [tracectx(t)] appends its bound symbol to the scope of [t], a
    list that the constructor makes the very list [t.bound_symbols]; an
    assignment [t.bound_symbols = l] makes the attribute name the list [l]
    and leaves the scope the list it was.  [scope] is [None] as long as
    the scope is the list that [bound_symbols] names, and holds the
    content of the scope once the two are different lists. *)
Record ScopedTrace := mkScopedTrace {
  trace : TraceCtx;
  scope : option (list BoundSymbol)
}.

(** A trace as its constructor and the primitives leave it. *)
Definition unassigned (t : TraceCtx) : ScopedTrace :=
  {| trace := t; scope := None |}.

(** The content of the scope. *)
Definition scope_symbols (t : ScopedTrace) : list BoundSymbol :=
  match scope t with
  | None => bound_symbols (trace t)
  | Some l => l
  end.

(** Calling a primitive inside [tracectx(t)]. *)
Definition record_in_scope (t : ScopedTrace) (b : BoundSymbol) : ScopedTrace :=
  match scope t with
  | None => {| trace := record_bsym (trace t) b; scope := None |}
  | Some l => {| trace := trace t; scope := Some (l ++ [b]) |}
  end.

(** [t.bound_symbols = l], for a list [l] that has just been built. *)
Definition assign_bound_symbols (t : ScopedTrace) (l : list BoundSymbol)
  : ScopedTrace :=
  {| trace := set_bound_symbols (trace t) l;
     scope := Some (scope_symbols t) |}.

(** Lines 850 to 856 of [meso_thunder_interpreter], on a trace in any
    state: the unpacks are recorded in the scope, and the list that
    [bound_symbols] names is read, rotated and assigned. *)
Definition hoist_unpacks_in_scope (prologue_outputs : list Proxy)
    (computation_trace : ScopedTrace) : ScopedTrace :=
  let computation_trace :=
    fold_left (fun t p => record_in_scope t (unpack_trivial_bsym p))
              prologue_outputs computation_trace in
  let bsyms := bound_symbols (trace computation_trace) in
  let n := Z.of_nat (length prologue_outputs) in
  assign_bound_symbols computation_trace
    (py_slice_from bsyms (- n) ++ py_slice_to bsyms (- n)).

End HoistScope.

(** ** Further vocabulary and concrete inputs *)

Module JitExtMore.
Import JitExt JitExtSpec.

(** The entries that the last dictionary literal of [_lit_lookaside_map]
    writes out, after the two comprehensions. *)
Definition explicit_lookasides : list (PyCallable * PyCallable) :=
  [ (prop_lookaside_helper, prop_lookaside_helper);
    (NumberProxy_ "__add__", jit_needs_wrap (NumberProxy_ "__add__"));
    (NumberProxy_ "__bool__", jit_needs_wrap (NumberProxy_ "__bool__"));
    (NumberProxy_ "__neg__", jit_needs_wrap (NumberProxy_ "__neg__"));
    (NumberProxy_ "__sub__", jit_needs_wrap (NumberProxy_ "__sub__"));
    (NumberProxy_ "__floordiv__", jit_needs_wrap (NumberProxy_ "__floordiv__"));
    (NumberProxy_ "__le__", jit_needs_wrap (NumberProxy_ "__ge__"));
    (NumberProxy_ "__ge__", jit_needs_wrap (NumberProxy_ "__le__"));
    (TensorProxy_ "__add__", jit_needs_wrap (TensorProxy_ "__add__"));
    (TensorProxy_ "__mul__", jit_needs_wrap (TensorProxy_ "__mul__"));
    (TensorProxy_ "__sub__", jit_needs_wrap (TensorProxy_ "__sub__")) ].

(** The entries of a comprehension [{fn: jit_needs_wrap(la) for fn, la in
    pairs}]. *)
Definition wrapped (pairs : list (PyCallable * PyCallable))
  : list (PyCallable * PyCallable) :=
  map (fun kv => (fst kv, jit_needs_wrap (snd kv))) pairs.

(** The last binding of a key among entries written one after the
    other. *)
Definition last_binding (entries : list (PyCallable * PyCallable))
    (k : PyCallable) : option PyCallable :=
  fn_dict_get (rev entries) k.

(** The first of two lookups that finds something. *)
Definition or_else (a b : option PyCallable) : option PyCallable :=
  match a with Some v => Some v | None => b end.

(** A property of the state that every step of the prologue synthesis
    keeps. *)
Definition kept (P : UnpackState -> Prop) {A} (m : M A) : Prop :=
  forall s a s', P s -> m s = Ok (a, s') -> P s'.

(** The bound symbol that replaying a constraint records. *)
Definition constraint_bsym (c : Constraint) : BoundSymbol :=
  {| sym := fst c; args := snd c; output := None |}.

(** Every proxy among the arguments of the constraints is one of the
    inputs, by identity. *)
Definition constraints_on_inputs (constraints : list Constraint)
    (inputs : list Proxy) : Prop :=
  forall c q, In c constraints -> In (AProxy q) (snd c) ->
    exists i, pid q = Some i /\ In (Some i) (map pid inputs).

End JitExtMore.

Module GlobalExamples.
Import GlobalCallbacks.

(** Globals that hold [torch], the module [math] and an object [x]. *)
Definition some_globals : gmap string GlobalValue :=
  <["torch" := torch]>
    (<["math" := other_module "math"]> (<["x" := other_object "x"]> ∅)).

End GlobalExamples.

Module GraphExamples.
Import GraphOps.

(** Two blocks: the first with the nodes 10, 11, 12, the second with the
    node 13; the next object is 20. *)
Definition two_blocks : Graph :=
  {| blocks := [0; 1];
     nodes := <[0 := [10; 11; 12]]> (<[1 := [13]]> ∅);
     jump_sources := ∅;
     jump_targets := ∅;
     block := <[10 := 0]> (<[11 := 0]> (<[12 := 0]> (<[13 := 1]> ∅)));
     opname := ∅;
     next_object := 20 |}.

End GraphExamples.

(** * Theorems *)

(** ** The opcode table *)

Section PythonIRFacts.
Import PythonIR.
Local Open Scope Z_scope.

Lemma in_names_In opname names :
  in_names opname names = true <-> In opname names.
Proof.
  unfold in_names. rewrite existsb_exists. split.
  - intros (x & Hx & He). apply String.eqb_eq in He. now subst.
  - intros H. exists opname. split; [exact H | apply String.eqb_refl].
Qed.

Lemma dict_get_None {V} (d : list (string * V)) k :
  ~ In k (map fst d) -> dict_get d k = None.
Proof.
  induction d as [|[k' v] d IH]; simpl; intros H; [reflexivity|].
  destruct (String.eqb_spec k k') as [->|Hne].
  - exfalso. apply H. now left.
  - apply IH. intros Hin. apply H. now right.
Qed.

Lemma dict_get_Some {V} (d : list (string * V)) k :
  In k (map fst d) -> exists v, dict_get d k = Some v.
Proof.
  induction d as [|[k' v] d IH]; simpl; intros H; [contradiction|].
  destruct (String.eqb_spec k k') as [->|Hne]; [eauto|].
  destruct H as [H|H]; [congruence | auto].
Qed.

Lemma stack_effect_detail_fixed opname oparg jump :
  In opname (map fst fixed_stack_effects_detail) ->
  exists eff, dict_get fixed_stack_effects_detail opname = Some eff
              /\ stack_effect_detail opname oparg jump = Ok eff.
Proof.
  intros H. destruct (dict_get_Some _ _ H) as [eff Heff].
  exists eff. split; [exact Heff|].
  unfold stack_effect_detail. now rewrite Heff.
Qed.

Lemma stack_effect_detail_dynamic opname oparg jump :
  In opname dynamic_opnames ->
  exists eff, stack_effect_detail opname oparg jump = Ok eff.
Proof.
  intros H. unfold dynamic_opnames in H. simpl in H.
  repeat (destruct H as [<-|H]); try contradiction;
    cbv [stack_effect_detail dict_get fixed_stack_effects_detail
         String.eqb Ascii.eqb Bool.eqb in_names existsb orb];
    try destruct jump;
    repeat match goal with
           | |- context [if ?b then _ else _] => destruct b
           end; eauto.
Qed.

Lemma stack_effect_detail_unknown opname oparg jump :
  ~ In opname supported_opnames ->
  stack_effect_detail opname oparg jump
  = Raise (ValueError ("Invalid opname " +:+ opname)).
Proof.
  intros H. unfold supported_opnames in H.
  assert (Hfix : ~ In opname (map fst fixed_stack_effects_detail))
    by (intros Hin; apply H, in_or_app; now left).
  assert (Hdyn : in_names opname dynamic_opnames = false).
  { destruct (in_names opname dynamic_opnames) eqn:E; [|reflexivity].
    exfalso. apply H, in_or_app. right. now apply in_names_In. }
  unfold stack_effect_detail. rewrite (dict_get_None _ _ Hfix).
  unfold in_names, dynamic_opnames in *. simpl in Hdyn. simpl existsb.
  repeat match goal with
         | |- context [String.eqb opname ?s] =>
             destruct (String.eqb opname s); simpl in Hdyn; try discriminate
         end.
  simpl. reflexivity.
Qed.

(** C9: [stack_effect_detail] returns a pair (inputs, outputs) for every
    opcode name in the supported set, whatever the argument and the jump
    flag, and raises [ValueError] for every other name. *)
Theorem stack_effect_detail_total_on_supported opname oparg jump :
  (In opname supported_opnames ->
     exists pops pushes, stack_effect_detail opname oparg jump = Ok (pops, pushes))
  /\ (~ In opname supported_opnames ->
     stack_effect_detail opname oparg jump
     = Raise (ValueError ("Invalid opname " +:+ opname))).
Proof.
  split.
  - intros H. unfold supported_opnames in H. apply in_app_or in H.
    destruct H as [H|H].
    + destruct (stack_effect_detail_fixed opname oparg jump H)
        as ([a b] & _ & He). eauto.
    + destruct (stack_effect_detail_dynamic opname oparg jump H)
        as ([a b] & He). eauto.
  - apply stack_effect_detail_unknown.
Qed.

Lemma stack_effect_detail_total_on_supported_witness :
  (exists pops pushes,
     stack_effect_detail "CALL_FUNCTION" 3 false = Ok (pops, pushes))
  /\ stack_effect_detail "LOAD_SUPER_ATTR" 0 false
     = Raise (ValueError "Invalid opname LOAD_SUPER_ATTR").
Proof.
  split.
  - apply (proj1 (stack_effect_detail_total_on_supported "CALL_FUNCTION" 3 false)).
    unfold supported_opnames. apply in_or_app. right. simpl. tauto.
  - apply (proj2 (stack_effect_detail_total_on_supported "LOAD_SUPER_ATTR" 0 false)).
    intros H. apply in_names_In in H. vm_compute in H. discriminate.
Defined.

(** The effects of the opcodes that depend on the argument or on the
    jump. *)
Example stack_effect_detail_CALL_FUNCTION oparg jump :
  stack_effect_detail "CALL_FUNCTION" oparg jump = Ok (oparg + 1, 1).
Proof. reflexivity. Qed.

Example stack_effect_detail_BUILD_MAP oparg jump :
  stack_effect_detail "BUILD_MAP" oparg jump = Ok (2 * oparg, 1).
Proof. reflexivity. Qed.

Example stack_effect_detail_FOR_ITER oparg :
  stack_effect_detail "FOR_ITER" oparg true = Ok (1, 0)
  /\ stack_effect_detail "FOR_ITER" oparg false = Ok (0, 1).
Proof. split; reflexivity. Qed.

Example stack_effect_detail_MAKE_FUNCTION :
  stack_effect_detail "MAKE_FUNCTION" 9 false = Ok (4, 1).
Proof. reflexivity. Qed.

End PythonIRFacts.

(** ** The sharp-edge policy *)

Section SharpEdgeFacts.
Import JitExt.

Lemma prefix_append (a b : string) : String.prefix a (a +:+ b) = true.
Proof.
  induction a as [|c a IH]; simpl; [now destruct b|].
  destruct (Ascii.ascii_dec c c) as [_|Hne]; [exact IH | now destruct Hne].
Qed.

Lemma warn_keeps_constraints ctx s :
  _constraints (warn ctx s) = _constraints ctx
  /\ warnings (warn ctx s) = warnings ctx ++ [s]
  /\ sharp_edges (warn ctx s) = sharp_edges ctx.
Proof. unfold warn; simpl; auto. Qed.

(** C7: a sharp-edge event with description [desc] raises, under [ERROR],
    an [AssertionError] whose message begins with [desc]; under [WARN] it
    returns after one warning that begins with [desc] has been issued,
    constraints untouched; under [ALLOW] it returns with the context as it
    was.  This holds for [_sharp_edge] and for [_meso_sharp_edge]. *)
Theorem sharp_edge_by_level (desc : string) (ctx : MesoCtx) :
  (sharp_edges ctx = ERROR ->
     exists s s',
       _sharp_edge desc ctx = Raise (AssertionError s)
       /\ _meso_sharp_edge desc ctx = Raise (AssertionError s')
       /\ String.prefix desc s = true /\ String.prefix desc s' = true)
  /\ (sharp_edges ctx = WARN ->
     exists s s',
       _sharp_edge desc ctx = Ok (warn ctx s)
       /\ _meso_sharp_edge desc ctx = Ok (warn ctx s')
       /\ String.prefix desc s = true /\ String.prefix desc s' = true
       /\ warnings (warn ctx s) = warnings ctx ++ [s]
       /\ warnings (warn ctx s') = warnings ctx ++ [s'])
  /\ (sharp_edges ctx = ALLOW ->
     _sharp_edge desc ctx = Ok ctx /\ _meso_sharp_edge desc ctx = Ok ctx).
Proof.
  unfold _sharp_edge, _meso_sharp_edge.
  split; [|split]; intros ->.
  - do 2 eexists. repeat split; eauto using prefix_append.
  - do 2 eexists. repeat split; eauto using prefix_append.
  - split; reflexivity.
Qed.

Lemma sharp_edge_by_level_witness :
  (exists s s',
     _sharp_edge "Loading a global that is not a module"
       (MesoCtx_new ERROR) = Raise (AssertionError s)
     /\ _meso_sharp_edge "Loading a global that is not a module"
          (MesoCtx_new ERROR) = Raise (AssertionError s')
     /\ String.prefix "Loading a global that is not a module" s = true
     /\ String.prefix "Loading a global that is not a module" s' = true)
  /\ _meso_sharp_edge "x" (MesoCtx_new ALLOW) = Ok (MesoCtx_new ALLOW).
Proof.
  split.
  - apply (proj1 (sharp_edge_by_level
                    "Loading a global that is not a module" (MesoCtx_new ERROR))).
    reflexivity.
  - apply (proj2 (proj2 (sharp_edge_by_level "x" (MesoCtx_new ALLOW)))).
    reflexivity.
Defined.

End SharpEdgeFacts.

(** ** The entry point's gate on the cache option *)

Section EntryPointFacts.
Import JitExt.

Variable proxy_index : Proxy -> option PyObj.
Variable jfn : MesoCtx -> TraceCtx -> Result (Arg * MesoCtx * TraceCtx).

(** C8: with a cache option other than [CONSTANT_VALUES] and [NO_CACHING]
    the entry point raises [NotImplementedError] and has neither built a
    trace context nor run the interpreter; with one of the two it goes on:
    it builds the two trace contexts and runs the interpreter, and its
    outcome is that of the rest of the function. *)
Theorem meso_thunder_interpreter_cache_gate
    (co : CACHE_OPTIONS) (sharp_edges : SHARP_EDGES_OPTIONS) :
  (co <> CONSTANT_VALUES -> co <> NO_CACHING ->
     meso_thunder_interpreter proxy_index jfn co sharp_edges
     = ([], Raise (NotImplementedError "Only constant constraints is supported")))
  /\ (co = CONSTANT_VALUES \/ co = NO_CACHING ->
     meso_thunder_interpreter proxy_index jfn co sharp_edges
     = interpret_and_build proxy_index jfn sharp_edges
     /\ fst (meso_thunder_interpreter proxy_index jfn co sharp_edges)
        = [NewTraceCtx; NewTraceCtx; RunInterpreter]).
Proof.
  unfold meso_thunder_interpreter. split.
  - intros H1 H2. destruct co; simpl; congruence.
  - intros [->| ->]; simpl; split; reflexivity.
Qed.

End EntryPointFacts.

Lemma meso_thunder_interpreter_cache_gate_witness :
  JitExt.meso_thunder_interpreter (fun _ => None)
    (fun _ _ => Raise (ValueError "stop"))
    (JitExt.OTHER_CACHE_OPTION "SYMBOLIC_VALUES") JitExt.ERROR
  = ([], Raise (NotImplementedError "Only constant constraints is supported"))
  /\ JitExt.meso_thunder_interpreter (fun _ => None)
       (fun _ _ => Raise (ValueError "stop")) JitExt.NO_CACHING JitExt.ERROR
     = ([JitExt.NewTraceCtx; JitExt.NewTraceCtx; JitExt.RunInterpreter],
        Raise (ValueError "stop")).
Proof.
  split.
  - apply (proj1 (meso_thunder_interpreter_cache_gate (fun _ => None)
                    (fun _ _ => Raise (ValueError "stop"))
                    (JitExt.OTHER_CACHE_OPTION "SYMBOLIC_VALUES") JitExt.ERROR));
      discriminate.
  - destruct (proj2 (meso_thunder_interpreter_cache_gate (fun _ => None)
                       (fun _ _ => Raise (ValueError "stop"))
                       JitExt.NO_CACHING JitExt.ERROR)) as [H _].
    + right; reflexivity.
    + rewrite H. reflexivity.
Defined.

(** ** The wrap callback *)

Section WrapCallbackFacts.
Import JitExt JitExtSpec.

Variable make_proxy_name : nat -> string.

(** A custom induction principle: the inputs of a record satisfy the
    property. *)
Lemma ProvenanceRecord_ind_inputs (P : ProvenanceRecord -> Prop) :
  (forall rid i l v, Forall P l -> P (mkProvenanceRecord rid i l v)) ->
  forall r, P r.
Proof.
  intros H. fix IH 1. intros [rid i l v]. apply H.
  induction l as [|x l IHl]; constructor; [apply IH | exact IHl].
Qed.

Lemma elem_of_fold_union (f : ProvenanceRecord -> gset string) l init t :
  t ∈ fold_left (fun res x => res ∪ f x) l init
  <-> t ∈ init \/ exists x, In x l /\ t ∈ f x.
Proof.
  revert init. induction l as [|y l IH]; intros init; simpl.
  - split; [auto | intros [H|(x & [] & _)]; exact H].
  - rewrite IH. rewrite elem_of_union. split.
    + intros [[H|H]|(x & Hx & Ht)]; eauto.
    + intros [H|(x & [->|Hx] & Ht)]; eauto.
Qed.

Lemma collect_provenance_inst_spec pr t :
  t ∈ collect_provenance_inst pr <-> tag_of_closure t pr.
Proof.
  revert t. induction pr as [rid i l v IH] using ProvenanceRecord_ind_inputs.
  intros t. simpl. rewrite elem_of_fold_union, elem_of_singleton. split.
  - intros [->|(x & Hx & Ht)].
    + now apply tag_here.
    + apply tag_below with x; [exact Hx|].
      rewrite Forall_forall in IH. apply IH; [|exact Ht].
      now apply list_elem_of_In.
  - intros H. inversion H as [pr' He|pr' x Hx Ht]; subst; simpl in *.
    + now left.
    + right. exists x. split; [exact Hx|].
      rewrite Forall_forall in IH. apply IH; [|exact Ht].
      now apply list_elem_of_In.
Qed.

Lemma safe_provenance_inst_In t :
  t ∈ safe_provenance_inst
  <-> In t ["INPUT_ARGS"; "INPUT_KWARGS"; "INPUT_FN"; "LOAD_ATTR"; "CONSTANT";
            "BINARY_SUBSCR"].
Proof.
  unfold safe_provenance_inst. simpl.
  rewrite !elem_of_union, !elem_of_singleton. intuition congruence.
Qed.

Lemma safe_check_spec pr :
  bool_decide (collect_provenance_inst pr ∖ safe_provenance_inst = ∅) = true
  <-> safe_for_guarding pr.
Proof.
  rewrite bool_decide_eq_true. unfold safe_for_guarding. split.
  - intros H t Ht. apply safe_provenance_inst_In.
    apply collect_provenance_inst_spec in Ht.
    destruct (decide (t ∈ safe_provenance_inst)) as [Hin|Hout]; [exact Hin|].
    exfalso. assert (t ∈ collect_provenance_inst pr ∖ safe_provenance_inst)
      as Hd by (apply elem_of_difference; auto).
    rewrite H in Hd. now apply not_elem_of_empty in Hd.
  - intros H. apply leibniz_equiv. intros t. split.
    + rewrite elem_of_difference. intros [Ht Hn]. exfalso. apply Hn.
      apply safe_provenance_inst_In, H. now apply collect_provenance_inst_spec.
    + intros Ht. now apply not_elem_of_empty in Ht.
Qed.

Lemma inst_is_CONSTANT i : inst_is i CONSTANT = true <-> i = CONSTANT.
Proof.
  unfold CONSTANT. destruct i as [v|o]; simpl.
  - rewrite String.eqb_eq. split; congruence.
  - split; discriminate.
Qed.

Lemma wv_value_Obj value o :
  wv_value value = Obj o ->
  bound_proxy value = None /\ concrete_value value = Obj o.
Proof.
  unfold wv_value. destruct (bound_proxy value); [discriminate|auto].
Qed.

(** C10: a wrapped tensor is proxied and the constraint
    [check_tensor_shape_and_metadata] on the proxy is recorded, whatever
    its provenance ([CONSTANT] included): the constraints of the context
    that the callback leaves are those it found, followed by this one.  A
    wrapped number or string whose provenance is [CONSTANT] is left as it
    is, and the context with it. *)
Theorem wrap_callback_tensor_and_constant (ctx : MesoCtx) (value : WrappedValue) :
  (forall shape device dtype requires_grad,
     wv_value value = Obj (PyTensor shape device dtype requires_grad) ->
     let p := fresh_proxy make_proxy_name ctx
                (TensorProxy shape device dtype requires_grad)
                (provenance value) in
     exists ctx' value',
       _lit_wrap_callback make_proxy_name ctx value = Ok (ctx', value')
       /\ ctx' = add_constraint (bump_id ctx)
                   (check_tensor_shape_and_metadata, [AProxy p])
       /\ value' = register_proxy value p
       /\ bound_proxy value' = Some p
       /\ _constraints ctx'
          = _constraints ctx
            ++ [(check_tensor_shape_and_metadata, [AProxy p])])
  /\ (forall o,
     wv_value value = Obj o -> is_number_or_str o = true ->
     inst (provenance value) = CONSTANT ->
     _lit_wrap_callback make_proxy_name ctx value = Ok (ctx, value)
     /\ bound_proxy value = None).
Proof.
  split.
  - intros shape device dtype rg Hv p.
    destruct (wv_value_Obj _ _ Hv) as [Hb Hc].
    unfold _lit_wrap_callback. rewrite Hv. simpl.
    do 2 eexists. split; [reflexivity|].
    split; [reflexivity|]. split; [reflexivity|].
    split; [unfold register_proxy; now rewrite Hb | reflexivity].
  - intros o Hv Hn Hc. destruct (wv_value_Obj _ _ Hv) as [Hb _].
    split; [|exact Hb].
    unfold _lit_wrap_callback. rewrite Hv, Hc.
    destruct o; try discriminate; reflexivity.
Qed.

(** C3, as the code has it: for a number or string that is not a proxy and
    whose provenance is not tagged [CONSTANT], the callback proxies the
    value and records [check_string_value] (strings) or
    [check_number_type_and_value] (numbers) when every tag of the provenance
    is safe for guarding: the constraints of the context that it leaves
    are those it found, followed by the guard.  Otherwise it calls
    [_meso_sharp_edge], registers no proxy and records no constraint. *)
Theorem wrap_callback_number_or_string
    (ctx : MesoCtx) (value : WrappedValue) (o : PyObj) :
  wv_value value = Obj o ->
  is_number_or_str o = true ->
  inst (provenance value) <> CONSTANT ->
  (safe_for_guarding (provenance value) ->
     let p := fresh_proxy make_proxy_name ctx
                (match o with PyStr s => StringProxy s | _ => NumberProxy o end)
                (provenance value) in
     let guard := (match o with
                   | PyStr _ => check_string_value
                   | _ => check_number_type_and_value
                   end, [AProxy p; AObj o]) in
     exists ctx' value',
       _lit_wrap_callback make_proxy_name ctx value = Ok (ctx', value')
       /\ ctx' = add_constraint (bump_id ctx) guard
       /\ value' = register_proxy value p
       /\ bound_proxy value' = Some p
       /\ _constraints ctx' = _constraints ctx ++ [guard])
  /\ (~ safe_for_guarding (provenance value) ->
     exists desc,
       _lit_wrap_callback make_proxy_name ctx value
       = match _meso_sharp_edge desc ctx with
         | Raise e => Raise e
         | Ok ctx' => Ok (ctx', value)
         end
       /\ bound_proxy value = None
       /\ forall ctx', _meso_sharp_edge desc ctx = Ok ctx' ->
                       _constraints ctx' = _constraints ctx).
Proof.
  intros Hv Hn Hc. destruct (wv_value_Obj _ _ Hv) as [Hb _].
  assert (Hc' : inst_is (inst (provenance value)) CONSTANT = false).
  { destruct (inst_is _ CONSTANT) eqn:E; [|reflexivity].
    now apply inst_is_CONSTANT in E. }
  split.
  - intros Hs p guard. apply safe_check_spec in Hs.
    assert (Hr : _lit_wrap_callback make_proxy_name ctx value
                 = Ok (add_constraint (bump_id ctx) guard,
                       register_proxy value p)).
    { unfold _lit_wrap_callback. rewrite Hv, Hc'.
      destruct o; try discriminate; simpl; rewrite Hs; reflexivity. }
    do 2 eexists. split; [exact Hr|].
    split; [reflexivity|]. split; [reflexivity|].
    split; [unfold register_proxy; now rewrite Hb | reflexivity].
  - intros Hs.
    assert (Hs' : bool_decide (collect_provenance_inst (provenance value)
                                 ∖ safe_provenance_inst = ∅) = false).
    { destruct (bool_decide _) eqn:E; [|reflexivity].
      now apply safe_check_spec in E. }
    destruct o; try discriminate;
      (eexists; split; [|split; [exact Hb|]];
       [ unfold _lit_wrap_callback; rewrite Hv, Hc'; simpl; rewrite Hs';
         reflexivity
       | intros ctx'; unfold _meso_sharp_edge;
         destruct (sharp_edges ctx); intros [= <-]; reflexivity ]).
Qed.

End WrapCallbackFacts.

Section WrapCallbackExamples.
Import JitExt JitExtSpec JitExtExamples.

Lemma safe_for_guarding_decide pr :
  bool_decide (collect_provenance_inst pr ∖ safe_provenance_inst = ∅) = true ->
  safe_for_guarding pr.
Proof. apply safe_check_spec. Qed.

Lemma wrap_callback_tensor_and_constant_witness :
  (exists p ctx' value',
     _lit_wrap_callback mk_name (MesoCtx_new ERROR) tensor_const
     = Ok (ctx', value')
     /\ ctx' = add_constraint (bump_id (MesoCtx_new ERROR))
                 (check_tensor_shape_and_metadata, [AProxy p])
     /\ value' = register_proxy tensor_const p
     /\ bound_proxy value' = Some p
     /\ _constraints ctx'
        = _constraints (MesoCtx_new ERROR)
          ++ [(check_tensor_shape_and_metadata, [AProxy p])])
  /\ _lit_wrap_callback mk_name (MesoCtx_new ERROR) const_one
     = Ok (MesoCtx_new ERROR, const_one).
Proof.
  split.
  - eexists.
    apply (proj1 (wrap_callback_tensor_and_constant mk_name
                    (MesoCtx_new ERROR) tensor_const)).
    reflexivity.
  - apply (proj2 (wrap_callback_tensor_and_constant mk_name
                    (MesoCtx_new ERROR) const_one) (PyInt 1));
      reflexivity.
Defined.

(** C3 as stated fails for a number with a [CONSTANT] provenance: every tag
    of its provenance is safe, and yet nothing is proxied or recorded. *)
Lemma wrap_callback_constant_number_not_proxied :
  ~ (forall (ctx : MesoCtx) (value : WrappedValue) (o : PyObj),
       wv_value value = Obj o ->
       is_number_or_str o = true ->
       safe_for_guarding (provenance value) ->
       exists ctx' value' p,
         _lit_wrap_callback mk_name ctx value = Ok (ctx', value')
         /\ bound_proxy value' = Some p
         /\ _constraints ctx' <> _constraints ctx).
Proof.
  intros H.
  destruct (H (MesoCtx_new ERROR) const_one (PyInt 1) eq_refl eq_refl)
    as (ctx' & value' & p & Hr & Hp & _).
  - apply safe_for_guarding_decide. vm_compute. reflexivity.
  - vm_compute in Hr. injection Hr as _ <-. discriminate Hp.
Qed.

Lemma wrap_callback_number_or_string_witness :
  (exists p ctx' value',
     _lit_wrap_callback mk_name (MesoCtx_new ERROR) int_input
     = Ok (ctx', value')
     /\ ctx' = add_constraint (bump_id (MesoCtx_new ERROR))
                 (check_number_type_and_value, [AProxy p; AObj (PyInt 7)])
     /\ value' = register_proxy int_input p
     /\ bound_proxy value' = Some p
     /\ _constraints ctx'
        = _constraints (MesoCtx_new ERROR)
          ++ [(check_number_type_and_value, [AProxy p; AObj (PyInt 7)])])
  /\ (exists s,
     _lit_wrap_callback mk_name (MesoCtx_new ERROR) int_computed
     = Raise (AssertionError s)).
Proof.
  split.
  - eexists.
    apply (proj1 (wrap_callback_number_or_string mk_name (MesoCtx_new ERROR)
                    int_input (PyInt 7) eq_refl eq_refl ltac:(discriminate))).
    apply safe_for_guarding_decide. vm_compute. reflexivity.
  - destruct (proj2 (wrap_callback_number_or_string mk_name (MesoCtx_new ERROR)
                       int_computed (PyInt 7) eq_refl eq_refl
                       ltac:(discriminate))) as (desc & Hr & _).
    + intros Hs. apply safe_check_spec in Hs. vm_compute in Hs. discriminate.
    + rewrite Hr. eexists. reflexivity.
Defined.

End WrapCallbackExamples.

(** ** The lookaside map *)

Section LookasideFacts.
Import JitExt.

Lemma fn_dict_get_set d k k' v :
  fn_dict_get (fn_dict_set d k' v) k
  = if decide (k = k') then Some v else fn_dict_get d k.
Proof.
  induction d as [|[k0 v0] d IH]; simpl.
  - reflexivity.
  - destruct (decide (k' = k0)) as [->|Hne]; simpl.
    + destruct (decide (k = k0)); reflexivity.
    + destruct (decide (k = k0)) as [->|Hne'].
      * destruct (decide (k0 = k')); [congruence | reflexivity].
      * exact IH.
Qed.

Lemma fn_dict_update_snoc d es e :
  fn_dict_update d (es ++ [e]) = fn_dict_set (fn_dict_update d es) (fst e) (snd e).
Proof. unfold fn_dict_update. now rewrite fold_left_app. Qed.

(** After an update, a key is bound to its last binding among the entries,
    and to its former value when the entries do not bind it. *)
Lemma fn_dict_get_update d es k :
  fn_dict_get (fn_dict_update d es) k
  = match fn_dict_get (rev es) k with
    | Some v => Some v
    | None => fn_dict_get d k
    end.
Proof.
  induction es as [|e es IH] using rev_ind.
  - reflexivity.
  - rewrite fn_dict_update_snoc, fn_dict_get_set, rev_unit.
    destruct e as [k' v']. simpl.
    destruct (decide (k = k')); [reflexivity | exact IH].
Qed.

Lemma fn_dict_get_app d1 d2 k :
  fn_dict_get (d1 ++ d2) k
  = match fn_dict_get d1 k with
    | Some v => Some v
    | None => fn_dict_get d2 k
    end.
Proof.
  induction d1 as [|[k0 v0] d1 IH]; simpl; [reflexivity|].
  destruct (decide (k = k0)); [reflexivity | exact IH].
Qed.

Lemma fn_dict_set_keys d k v :
  map fst (fn_dict_set d k v)
  = if bool_decide (k ∈ map fst d) then map fst d else map fst d ++ [k].
Proof.
  induction d as [|[k0 v0] d IH]; simpl; [reflexivity|].
  destruct (decide (k = k0)) as [->|Hne]; simpl.
  - rewrite bool_decide_eq_true_2; [reflexivity | apply elem_of_cons; now left].
  - rewrite IH. destruct (bool_decide (k ∈ map fst d)) eqn:E.
    + apply bool_decide_eq_true in E.
      rewrite bool_decide_eq_true_2; [reflexivity | apply elem_of_cons; now right].
    + apply bool_decide_eq_false in E.
      rewrite bool_decide_eq_false_2; [reflexivity|].
      rewrite elem_of_cons. intros [H|H]; [congruence | contradiction].
Qed.

Lemma fn_dict_set_NoDup d k v :
  NoDup (map fst d) -> NoDup (map fst (fn_dict_set d k v)).
Proof.
  intros H. rewrite fn_dict_set_keys.
  destruct (bool_decide (k ∈ map fst d)) eqn:E; [exact H|].
  apply bool_decide_eq_false in E. apply NoDup_app. repeat split.
  - exact H.
  - intros x Hx Hx'. apply list_elem_of_singleton in Hx'. now subst.
  - apply NoDup_singleton.
Qed.

Lemma fn_dict_update_NoDup d es :
  NoDup (map fst d) -> NoDup (map fst (fn_dict_update d es)).
Proof.
  revert d. induction es as [|e es IH]; intros d H; simpl; [exact H|].
  apply IH. now apply fn_dict_set_NoDup.
Qed.

(** In a dictionary, the order of the entries does not matter for a
    lookup. *)
Lemma fn_dict_get_rev d k :
  NoDup (map fst d) -> fn_dict_get (rev d) k = fn_dict_get d k.
Proof.
  induction d as [|[k0 v0] d IH]; intros H; [reflexivity|].
  simpl in *. apply NoDup_cons in H as [Hk0 Hd].
  rewrite fn_dict_get_app, (IH Hd). simpl.
  destruct (decide (k = k0)) as [->|Hne].
  - destruct (fn_dict_get d k0) eqn:E; [|reflexivity].
    exfalso. apply Hk0. clear -E.
    induction d as [|[k1 v1] d IH]; simpl in *; [discriminate|].
    destruct (decide (k0 = k1)) as [->|Hne]; [left | right; auto].
  - now destruct (fn_dict_get d k).
Qed.

Variable _torch_to_thunder_function_map : list (PyCallable * PyCallable).
Variable dir_NumberProxy dir_TensorProxy : list Member.

(** The entry of a key that the last dictionary literal binds
    explicitly. *)
Lemma _lit_lookaside_map_explicit k v :
  fn_dict_get
    (rev [ (prop_lookaside_helper, prop_lookaside_helper);
           (NumberProxy_ "__add__", jit_needs_wrap (NumberProxy_ "__add__"));
           (NumberProxy_ "__bool__", jit_needs_wrap (NumberProxy_ "__bool__"));
           (NumberProxy_ "__neg__", jit_needs_wrap (NumberProxy_ "__neg__"));
           (NumberProxy_ "__sub__", jit_needs_wrap (NumberProxy_ "__sub__"));
           (NumberProxy_ "__floordiv__",
            jit_needs_wrap (NumberProxy_ "__floordiv__"));
           (NumberProxy_ "__le__", jit_needs_wrap (NumberProxy_ "__ge__"));
           (NumberProxy_ "__ge__", jit_needs_wrap (NumberProxy_ "__le__"));
           (TensorProxy_ "__add__", jit_needs_wrap (TensorProxy_ "__add__"));
           (TensorProxy_ "__mul__", jit_needs_wrap (TensorProxy_ "__mul__"));
           (TensorProxy_ "__sub__", jit_needs_wrap (TensorProxy_ "__sub__")) ])
    k = Some v ->
  fn_dict_get
    (_lit_lookaside_map _torch_to_thunder_function_map
       dir_NumberProxy dir_TensorProxy) k = Some v.
Proof.
  intros H. unfold _lit_lookaside_map.
  rewrite fn_dict_get_update.
  rewrite fn_dict_get_rev by (apply fn_dict_update_NoDup; constructor).
  rewrite fn_dict_get_update.
  rewrite !rev_app_distr, !fn_dict_get_app.
  now rewrite H.
Qed.

(** C2, what the code does: the lookaside registered for
    [NumberProxy.__le__] wraps [NumberProxy.__ge__], and the one for
    [NumberProxy.__ge__] wraps [NumberProxy.__le__]; for the operands 1 and
    2 the interpreter therefore computes [False] where [1 <= 2] is
    [True]. *)
Theorem lit_lookaside_le_ge_swapped :
  fn_dict_get (_lit_lookaside_map _torch_to_thunder_function_map
                 dir_NumberProxy dir_TensorProxy) (NumberProxy_ "__le__")
  = Some (jit_needs_wrap (NumberProxy_ "__ge__"))
  /\ fn_dict_get (_lit_lookaside_map _torch_to_thunder_function_map
                    dir_NumberProxy dir_TensorProxy) (NumberProxy_ "__ge__")
     = Some (jit_needs_wrap (NumberProxy_ "__le__"))
  /\ call (NumberProxy_ "__le__") 1 2 = Some (PyBool true)
  /\ match fn_dict_get (_lit_lookaside_map _torch_to_thunder_function_map
                          dir_NumberProxy dir_TensorProxy)
                       (NumberProxy_ "__le__") with
     | Some lookaside => call lookaside 1 2
     | None => None
     end = Some (PyBool false).
Proof.
  assert (Hle : fn_dict_get (_lit_lookaside_map _torch_to_thunder_function_map
                               dir_NumberProxy dir_TensorProxy)
                  (NumberProxy_ "__le__")
                = Some (jit_needs_wrap (NumberProxy_ "__ge__")))
    by (apply _lit_lookaside_map_explicit; reflexivity).
  repeat split.
  - exact Hle.
  - apply _lit_lookaside_map_explicit; reflexivity.
  - rewrite Hle. reflexivity.
Qed.

(** The other explicit entries do map a method to itself. *)
Lemma lit_lookaside_add_is_add :
  fn_dict_get (_lit_lookaside_map _torch_to_thunder_function_map
                 dir_NumberProxy dir_TensorProxy) (NumberProxy_ "__add__")
  = Some (jit_needs_wrap (NumberProxy_ "__add__")).
Proof. apply _lit_lookaside_map_explicit; reflexivity. Qed.

Variable is_symbol_or_clang_fn : PyCallable -> bool.
Variable default_lookaside : PyCallable -> option PyCallable.
Variable is_opaque : PyCallable -> bool.
Variable extract_callable_name : PyCallable -> string.

(** [NumberProxy.__le__] is a method, not a symbol: the lookaside that
    [lit_lookaside] hands to the interpreter for it is the entry of the
    map. *)
Lemma lit_lookaside_le ctx :
  is_symbol_or_clang_fn (NumberProxy_ "__le__") = false ->
  lit_lookaside _torch_to_thunder_function_map dir_NumberProxy
    dir_TensorProxy is_symbol_or_clang_fn default_lookaside is_opaque
    extract_callable_name (NumberProxy_ "__le__") ctx
  = Ok (Some (jit_needs_wrap (NumberProxy_ "__ge__")), ctx).
Proof.
  intros Hs. unfold lit_lookaside. rewrite Hs.
  rewrite (_lit_lookaside_map_explicit (NumberProxy_ "__le__")
             (jit_needs_wrap (NumberProxy_ "__ge__")) eq_refl).
  reflexivity.
Qed.

(** A call of an opaque function that has no lookaside and is not in
    [_safe_functions] is a sharp edge. *)
Lemma lit_lookaside_opaque_unsafe fn ctx :
  is_symbol_or_clang_fn fn = false ->
  fn_dict_get (_lit_lookaside_map _torch_to_thunder_function_map
                 dir_NumberProxy dir_TensorProxy) fn = None ->
  default_lookaside fn = None ->
  is_opaque fn = true ->
  fn ∉ _safe_functions ->
  lit_lookaside _torch_to_thunder_function_map dir_NumberProxy
    dir_TensorProxy is_symbol_or_clang_fn default_lookaside is_opaque
    extract_callable_name fn ctx
  = match _meso_sharp_edge
            ("Trying to call opaque function " +:+ extract_callable_name fn
             +:+ ", but it's unsupported. Please file an issue requesting supporting.")
            ctx with
    | Raise e => Raise e
    | Ok ctx => Ok (None, ctx)
    end.
Proof.
  intros Hs Hm Hd Ho Hu. unfold lit_lookaside.
  rewrite Hs, Hm, Hd, Ho. now rewrite bool_decide_eq_false_2.
Qed.

End LookasideFacts.

(** ** Moving the unpacks to the front of the computation trace *)

Section HoistFacts.
Import JitExt.

Lemma record_unpacks_bound_symbols outs t :
  bound_symbols
    (fold_left (fun t p => record_bsym t (unpack_trivial_bsym p)) outs t)
  = bound_symbols t ++ map unpack_trivial_bsym outs.
Proof.
  revert t. induction outs as [|p outs IH]; intros t; simpl.
  - now rewrite app_nil_r.
  - rewrite IH. simpl. now rewrite <- app_assoc.
Qed.

(** [b[-n:] + b[:-n]] moves the last [n] elements to the front, for [n]
    up to the length of [b]; for [n = 0] both slices are taken from index
    0 and the list stays as it is. *)
Lemma rotate_last {A} (front back : list A) :
  let b := front ++ back in
  let n := Z.of_nat (length back) in
  py_slice_from b (- n) ++ py_slice_to b (- n) = back ++ front.
Proof.
  intros b n. unfold py_slice_from, py_slice_to, py_index. subst b n.
  destruct back as [|x back].
  - simpl. now rewrite ?app_nil_r.
  - assert (Hneg : (- Z.of_nat (length (x :: back)) <? 0)%Z = true)
      by (apply Z.ltb_lt; simpl length; lia).
    rewrite Hneg.
    assert (Hi : Z.to_nat (Z.max (Z.of_nat (length (front ++ x :: back))
                                  + - Z.of_nat (length (x :: back))) 0)
                 = length front)
      by (rewrite length_app; lia).
    rewrite Hi. now rewrite drop_app_length, take_app_length.
Qed.

Lemma hoist_unpacks_bound_symbols outs t :
  bound_symbols (hoist_unpacks outs t)
  = map unpack_trivial_bsym outs ++ bound_symbols t.
Proof.
  unfold hoist_unpacks. simpl. rewrite record_unpacks_bound_symbols.
  rewrite <- (length_map unpack_trivial_bsym outs). apply rotate_last.
Qed.

Lemma record_unassigned outs t :
  fold_left (fun t p => HoistScope.record_in_scope t (unpack_trivial_bsym p))
            outs (HoistScope.unassigned t)
  = HoistScope.unassigned
      (fold_left (fun t p => record_bsym t (unpack_trivial_bsym p)) outs t).
Proof.
  revert t. induction outs as [|p outs IH]; intros t; simpl; [reflexivity|].
  apply IH.
Qed.

Lemma record_assigned outs t l :
  fold_left (fun t p => HoistScope.record_in_scope t (unpack_trivial_bsym p))
            outs {| HoistScope.trace := t; HoistScope.scope := Some l |}
  = {| HoistScope.trace := t;
       HoistScope.scope := Some (l ++ map unpack_trivial_bsym outs) |}.
Proof.
  revert l. induction outs as [|p outs IH]; intros l; simpl.
  - now rewrite app_nil_r.
  - unfold HoistScope.record_in_scope at 2. simpl. rewrite IH.
    now rewrite <- app_assoc.
Qed.

(** [b[-n:] + b[:-n]] for the [n] elements in front of [b]: the elements
    behind them come to the front. *)
Lemma rotate_first {A} (front back : list A) :
  let b := front ++ back in
  let n := Z.of_nat (length front) in
  py_slice_from b (- n) ++ py_slice_to b (- n)
  = drop (length back) b ++ take (length back) b.
Proof.
  intros b n. unfold py_slice_from, py_slice_to, py_index. subst b n.
  destruct front as [|x front].
  - simpl. rewrite drop_all, firstn_all. now rewrite app_nil_r.
  - assert (Hneg : (- Z.of_nat (length (x :: front)) <? 0)%Z = true)
      by (apply Z.ltb_lt; simpl length; lia).
    rewrite Hneg.
    assert (Hi : Z.to_nat (Z.max (Z.of_nat (length ((x :: front) ++ back))
                                  + - Z.of_nat (length (x :: front))) 0)
                 = length back)
      by (rewrite length_app; lia).
    now rewrite Hi.
Qed.


End HoistFacts.



(** ** The inputs of the computation trace *)

Section ComputationInputsFacts.
Import JitExt JitExtSpec.

Lemma fold_left_flat_map {A B C} (f : A -> C -> A) (g : B -> list C) l a :
  fold_left (fun acc b => fold_left f (g b) acc) l a
  = fold_left f (flat_map g l) a.
Proof.
  revert a. induction l as [|b l IH]; intros a; simpl; [reflexivity|].
  now rewrite fold_left_app, IH.
Qed.

Lemma fold_add_input_filter l acc :
  fold_left add_input l acc = fold_left add_input (List.filter has_history l) acc.
Proof.
  revert acc. induction l as [|v l IH]; intros acc; simpl; [reflexivity|].
  unfold has_history at 1. destruct (history v) eqn:E; simpl.
  - apply IH.
  - rewrite <- IH. unfold add_input at 2. now rewrite E.
Qed.

Lemma get_computation_inputs_fold t :
  get_computation_inputs t
  = (fold_left add_input (used_inputs (bound_symbols t)) ([], ∅)).1.
Proof.
  unfold get_computation_inputs, used_inputs.
  now rewrite fold_left_flat_map, fold_add_input_filter.
Qed.

Lemma first_used_before_app used l q1 q2 :
  first_used_before used q1 q2 -> first_used_before (used ++ l) q1 q2.
Proof.
  intros (l1 & l2 & -> & H). exists l1, (l2 ++ l). split; [|exact H].
  now rewrite <- app_assoc.
Qed.

Lemma add_input_invariant l r x :
  has_history x = true ->
  inputs_invariant l r -> inputs_invariant (l ++ [x]) (add_input r x).
Proof.
  intros Hx (Hset & Hnd & Hsub & Hcov & Hord).
  unfold add_input. unfold has_history in Hx.
  destruct (history x) as [h|]; [clear Hx | discriminate].
  destruct (bool_decide (name x ∈ r.2)) eqn:E.
  - apply bool_decide_eq_true in E. repeat split; auto.
    + apply Hset.
    + apply Hset.
    + intros q Hq. apply in_or_app. left. auto.
    + intros p Hp. apply in_app_or in Hp as [Hp|[<-|[]]]; [auto|].
      now apply Hset.
    + intros l1 q1 l2 q2 l3 He. apply first_used_before_app. eapply Hord, He.
  - apply bool_decide_eq_false in E. unfold inputs_invariant. cbn [fst snd].
    split; [|split; [|split; [|split]]].
    + intros n.
      rewrite elem_of_union, elem_of_singleton, map_app, in_app_iff, Hset.
      simpl. intuition.
    + rewrite map_app. simpl. apply NoDup_app. repeat split.
      * exact Hnd.
      * intros n Hn Hn'. apply list_elem_of_singleton in Hn'. subst n.
        apply E, Hset. now apply list_elem_of_In.
      * apply NoDup_singleton.
    + intros q Hq. apply in_app_or in Hq as [Hq|[<-|[]]]; apply in_or_app.
      * left; auto.
      * right; now left.
    + intros p Hp. rewrite map_app. apply in_or_app.
      apply in_app_or in Hp as [Hp|[<-|[]]]; [left; auto | right; now left].
    + intros l1 q1 l2 q2 l3 He.
      destruct l3 as [|z l3 _] using rev_ind.
      * replace (l1 ++ q1 :: l2 ++ [q2]) with ((l1 ++ q1 :: l2) ++ [q2]) in He
          by (rewrite <- app_assoc; reflexivity).
        apply app_inj_tail in He as [Hr ->].
        assert (Hq1 : In q1 l).
        { apply Hsub. rewrite Hr. apply in_or_app. right. now left. }
        apply in_split in Hq1 as (a & b & ->).
        exists a, (b ++ [q2]). split.
        { rewrite <- app_assoc. reflexivity. }
        intros Hin. apply E, Hset.
        apply in_map_iff in Hin as (y & Hy & Hin).
        rewrite <- Hy. apply Hcov.
        apply in_app_or in Hin as [Hin|[<-|[]]]; apply in_or_app.
        -- left; exact Hin.
        -- right; now left.
      * replace (l1 ++ q1 :: l2 ++ q2 :: l3 ++ [z])
          with ((l1 ++ q1 :: l2 ++ q2 :: l3) ++ [z]) in He
          by (rewrite <- !app_assoc; simpl; rewrite <- app_assoc; reflexivity).
        apply app_inj_tail in He as [Hr _].
        apply first_used_before_app. eapply Hord, Hr.
Qed.

Lemma fold_add_input_invariant l :
  Forall (fun p => has_history p = true) l ->
  inputs_invariant l (fold_left add_input l ([], ∅)).
Proof.
  induction l as [|x l IH] using rev_ind; intros Hall.
  - simpl. repeat split; simpl; try tauto.
    + intros H. now apply not_elem_of_empty in H.
    + constructor.
    + intros l1 q1 l2 q2 l3 He. now destruct l1.
  - rewrite fold_left_app. simpl.
    apply Forall_app in Hall as [Hl Hx]. apply Forall_inv in Hx.
    apply add_input_invariant; auto.
Qed.

Lemma used_inputs_have_history bsyms :
  Forall (fun p => has_history p = true) (used_inputs bsyms).
Proof.
  apply Forall_forall. intros p Hp. apply list_elem_of_In in Hp.
  unfold used_inputs in Hp. now apply filter_In in Hp.
Qed.

(** [get_computation_inputs] returns, without two proxies of one name, the
    proxies with a history that the trace uses, in the order of their first
    use; every used name is among them. *)
Lemma get_computation_inputs_spec t :
  let used := used_inputs (bound_symbols t) in
  let outs := get_computation_inputs t in
  NoDup (map name outs)
  /\ (forall q, In q outs -> In q used)
  /\ (forall p, In p used -> In (name p) (map name outs))
  /\ in_first_use_order used outs.
Proof.
  intros used outs. subst outs. rewrite get_computation_inputs_fold.
  destruct (fold_add_input_invariant used (used_inputs_have_history _))
    as (_ & Hnd & Hsub & Hcov & Hord).
  auto.
Qed.

Lemma NoDup_map_inv {A B} (f : A -> B) (l : list A) :
  NoDup (map f l) -> NoDup l.
Proof.
  induction l as [|x l IH]; simpl; intros H; [constructor|].
  apply NoDup_cons in H as [Hx Hl]. apply NoDup_cons. split; [|auto].
  intros Hin. apply Hx. apply list_elem_of_In, in_map, list_elem_of_In, Hin.
Qed.

(** When names identify proxies, the inputs are exactly the used proxies,
    each once. *)
Lemma get_computation_inputs_exact t :
  names_identify (used_inputs (bound_symbols t)) ->
  NoDup (get_computation_inputs t)
  /\ (forall p, In p (get_computation_inputs t)
                <-> In p (used_inputs (bound_symbols t)))
  /\ in_first_use_order (used_inputs (bound_symbols t))
       (get_computation_inputs t).
Proof.
  intros Hid.
  destruct (get_computation_inputs_spec t) as (Hnd & Hsub & Hcov & Hord).
  repeat split; auto.
  - eapply NoDup_map_inv, Hnd.
  - intros Hp. destruct (proj1 (in_map_iff _ _ _) (Hcov p Hp)) as (q & Hn & Hq).
    rewrite <- (Hid q p (Hsub q Hq) Hp Hn). exact Hq.
Qed.

End ComputationInputsFacts.

(** ** Prologue synthesis *)

Section PrologueFacts.
Import JitExt JitExtSpec.

Variable proxy_index : Proxy -> option PyObj.

Lemma bind_Ok {A B} (m : M A) (k : A -> M B) s b s' :
  bind m k s = Ok (b, s') <->
  exists a s1, m s = Ok (a, s1) /\ k a s1 = Ok (b, s').
Proof.
  unfold bind. destruct (m s) as [[a s1]|e].
  - split; [eauto | intros (a' & s1' & [= <- <-] & H); exact H].
  - split; [discriminate | intros (a' & s1' & [=] & _)].
Qed.

Lemma only_unpacks_refl s : only_unpacks s s.
Proof.
  repeat split. exists []. split; [now rewrite app_nil_r | constructor].
Qed.

Lemma only_unpacks_trans s1 s2 s3 :
  only_unpacks s1 s2 -> only_unpacks s2 s3 -> only_unpacks s1 s3.
Proof.
  intros ((us & Hb & Hu) & Hn & Ha) ((us' & Hb' & Hu') & Hn' & Ha').
  repeat split; [|congruence|congruence].
  exists (us ++ us'). split.
  - now rewrite Hb', Hb, app_assoc.
  - now apply Forall_app.
Qed.

Lemma unpacking_ret {A} (a : A) : unpacking (ret a).
Proof. intros s a' s' [= _ <-]. apply only_unpacks_refl. Qed.

Lemma unpacking_raise {A} e : unpacking (@raise A e).
Proof. intros s a s' [=]. Qed.

Lemma unpacking_bind {A B} (m : M A) (k : A -> M B) :
  unpacking m -> (forall a, unpacking (k a)) -> unpacking (bind m k).
Proof.
  intros Hm Hk s b s' H. apply bind_Ok in H as (a & s1 & H1 & H2).
  eapply only_unpacks_trans; [eapply Hm, H1 | eapply Hk, H2].
Qed.

Lemma unpacking_mapM {A B} (f : A -> M B) l :
  (forall x, In x l -> unpacking (f x)) -> unpacking (mapM f l).
Proof.
  induction l as [|x l IH]; intros Hf; simpl.
  - apply unpacking_ret.
  - apply unpacking_bind; [apply Hf; now left|]. intros y.
    apply unpacking_bind; [apply IH; intros; apply Hf; now right|].
    intros ys. apply unpacking_ret.
Qed.

Lemma unpacking_append_bsym b :
  is_unpack_bsym b -> unpacking (append_bsym b).
Proof.
  intros Hb s [] s' [= <-]. repeat split. exists [b]. split; [reflexivity|].
  now constructor.
Qed.

Lemma unpacking_get_record_proxy r : unpacking (get_record_proxy r).
Proof. intros s a s' [= _ <-]. apply only_unpacks_refl. Qed.

Lemma unpacking_set_record_proxy r v : unpacking (set_record_proxy r v).
Proof.
  intros s [] s' [= <-]. repeat split. exists []. split; [|constructor].
  simpl. now rewrite app_nil_r.
Qed.

Create HintDb unpacking.

#[local] Hint Resolve unpacking_ret unpacking_raise unpacking_bind
  unpacking_mapM unpacking_append_bsym unpacking_get_record_proxy
  unpacking_set_record_proxy : unpacking.

Lemma unpacking_unpack_fn p rec f r new_output :
  (forall r' b, unpacking (rec r' b)) ->
  unpacking (unpack_fn proxy_index p rec f r new_output).
Proof.
  intros Hrec. destruct f; simpl.
  - unfold from_input. apply unpacking_bind.
    + destruct new_output.
      * apply unpacking_bind.
        -- repeat match goal with
                  | |- unpacking (if ?c then _ else _) => destruct c
                  end; auto with unpacking.
        -- intros n. auto with unpacking.
      * auto with unpacking.
    + intros output. apply unpacking_bind; [|auto with unpacking].
      apply unpacking_append_bsym. unfold is_unpack_bsym.
      destruct (inst_is (inst r) INPUT_FN); reflexivity.
  - unfold from_load_attr. apply unpacking_bind; [auto with unpacking|].
    intros [|i0 [|i1 l]]; auto with unpacking.
    apply unpacking_bind; [|auto with unpacking].
    now apply unpacking_append_bsym.
  - unfold from_constant.
    destruct (is_int_or_str (value r)); auto with unpacking.
  - unfold from_binary_subscr. apply unpacking_bind; [auto with unpacking|].
    intros [|obj [|idx [|x l]]]; auto with unpacking.
    destruct (subscr_index proxy_index idx); auto with unpacking.
    apply unpacking_bind; [|auto with unpacking].
    now apply unpacking_append_bsym.
  - unfold from_opaque.
    destruct (inputs r) as [|fn [|args l]]; auto with unpacking.
    destruct (negb (inst_is (inst fn) CONSTANT)); auto with unpacking.
    destruct (py_name (value fn)) as [n|]; auto with unpacking.
    destruct (String.eqb n "__getitem__").
    + destruct (inputs args) as [|idx [|obj [|x l']]]; auto with unpacking.
    + destruct (value fn); auto with unpacking.
      destruct (inputs args) as [|a0 [|a1 [|a2 [|x l']]]]; auto with unpacking.
      destruct (inst_is (inst a2) CONSTANT); auto with unpacking.
      destruct (value a2); auto with unpacking.
Qed.

Lemma from_provenance_S fuel p r new_output :
  from_provenance proxy_index (S fuel) p r new_output
  = (let! cached := get_record_proxy r in
     match cached with
     | Some v => ret v
     | None =>
         match dict_get d (inst_name (inst r)) with
         | None => raise (NotImplementedError
                            ("Unpacking from " +:+ inst_name (inst r)))
         | Some f =>
             let! res := unpack_fn proxy_index p
                           (from_provenance proxy_index fuel p) f r new_output in
             let! _ := set_record_proxy r res in
             ret res
         end
     end).
Proof. reflexivity. Qed.

(** [from_provenance] appends unpack symbols only. *)
Lemma unpacking_from_provenance fuel p r new_output :
  unpacking (from_provenance proxy_index fuel p r new_output).
Proof.
  revert r new_output. induction fuel as [|fuel IH]; intros r new_output.
  - apply unpacking_raise.
  - rewrite from_provenance_S. apply unpacking_bind; [auto with unpacking|].
    intros [v|]; [auto with unpacking|].
    destruct (dict_get d (inst_name (inst r))) as [f|]; [|auto with unpacking].
    apply unpacking_bind; [|intros; auto with unpacking].
    apply unpacking_unpack_fn. exact IH.
Qed.

End PrologueFacts.

Section UnpackFacts.
Import JitExt JitExtSpec.

Variable proxy_index : Proxy -> option PyObj.

(** [unpack] returns its argument. *)
Lemma unpack_returns_argument p s q s' :
  unpack proxy_index p s = Ok (q, s') -> q = p.
Proof.
  unfold unpack. destruct (history p) as [h|]; [|discriminate].
  intros H. apply bind_Ok in H as (seen & s1 & _ & H).
  destruct seen; [now injection H as <- _|].
  repeat (apply bind_Ok in H as (? & ? & _ & H)).
  now injection H as <- _.
Qed.

Lemma mapM_unpack_returns_arguments l s outs s' :
  mapM (unpack proxy_index) l s = Ok (outs, s') -> outs = l.
Proof.
  revert s outs s'. induction l as [|p l IH]; intros s outs s' H; simpl in H.
  - now injection H as <- _.
  - apply bind_Ok in H as (q & s1 & Hq & H).
    apply bind_Ok in H as (qs & s2 & Hqs & H).
    injection H as <- _.
    apply unpack_returns_argument in Hq. apply IH in Hqs. congruence.
Qed.

(** The first [unpack] of a proxy appends unpack symbols and then, for a
    tensor proxy, its guard. *)
Lemma unpack_first_time p s q s' :
  (forall i, pid p = Some i -> i ∉ already_unpacked s) ->
  unpack proxy_index p s = Ok (q, s') ->
  (exists us, bound_symbols (prologue_trace s')
              = bound_symbols (prologue_trace s) ++ us ++ tensor_guard p
              /\ Forall is_unpack_bsym us)
  /\ already_unpacked s'
     = match pid p with
       | Some i => {[i]} ∪ already_unpacked s
       | None => already_unpacked s
       end.
Proof.
  intros Hfresh. unfold unpack.
  destruct (history p) as [h|]; [|discriminate].
  intros H. apply bind_Ok in H as (seen & s1 & Hseen & H).
  unfold is_already_unpacked in Hseen. injection Hseen as <- <-.
  assert (Hs : match pid p with
               | Some i => bool_decide (i ∈ already_unpacked s)
               | None => false
               end = false).
  { destruct (pid p) as [i|]; [|reflexivity].
    apply bool_decide_eq_false. now apply Hfresh. }
  rewrite Hs in H.
  apply bind_Ok in H as ([] & s2 & Hreg & H).
  apply bind_Ok in H as (v & s3 & Hfrom & H).
  apply bind_Ok in H as ([] & s4 & Hmark & H).
  apply bind_Ok in H as ([] & s5 & Hguard & H).
  injection H as _ <-.
  unfold register_name in Hreg. injection Hreg as <-.
  apply unpacking_from_provenance in Hfrom as ((us & Hb & Hu) & _ & Ha).
  unfold mark_unpacked in Hmark. injection Hmark as <-.
  assert (Hs2 : bound_symbols
                  (if has_name (prologue_trace s) (name p)
                   then prologue_trace s
                   else add_name (prologue_trace s) (name p))
                = bound_symbols (prologue_trace s))
    by (destruct (has_name _ _); reflexivity).
  simpl in Hb, Ha. rewrite Hs2 in Hb.
  assert (Hfinal : bound_symbols (prologue_trace s5)
                   = bound_symbols (prologue_trace s) ++ us ++ tensor_guard p
                   /\ already_unpacked s5
                      = match pid p with
                        | Some i => {[i]} ∪ already_unpacked s
                        | None => already_unpacked s
                        end).
  { unfold tensor_guard. destruct (is_TensorProxy p).
    - unfold append_bsym in Hguard. injection Hguard as <-. simpl.
      rewrite Hb, Ha, <- app_assoc. split; reflexivity.
    - injection Hguard as <-. simpl. rewrite Hb, Ha, app_nil_r.
      split; reflexivity. }
  destruct Hfinal as [Hb5 Ha5]. split; [eauto | exact Ha5].
Qed.

(** The loop over the constraints and the final return only append. *)
Lemma unpack_appends p s q s' :
  unpack proxy_index p s = Ok (q, s') ->
  exists ext, bound_symbols (prologue_trace s')
              = bound_symbols (prologue_trace s) ++ ext.
Proof.
  unfold unpack. destruct (history p) as [h|]; [|discriminate].
  intros H. apply bind_Ok in H as (seen & s1 & Hseen & H).
  injection Hseen as _ <-.
  destruct seen.
  { injection H as _ <-. exists []. now rewrite app_nil_r. }
  apply bind_Ok in H as ([] & s2 & Hreg & H).
  apply bind_Ok in H as (v & s3 & Hfrom & H).
  apply bind_Ok in H as ([] & s4 & Hmark & H).
  apply bind_Ok in H as ([] & s5 & Hguard & H).
  injection H as _ <-.
  injection Hreg as <-. injection Hmark as <-.
  apply unpacking_from_provenance in Hfrom as ((us & Hb & _) & _ & _).
  simpl in Hb.
  assert (Hs2 : bound_symbols
                  (if has_name (prologue_trace s) (name p)
                   then prologue_trace s
                   else add_name (prologue_trace s) (name p))
                = bound_symbols (prologue_trace s))
    by (destruct (has_name _ _); reflexivity).
  rewrite Hs2 in Hb.
  destruct (is_TensorProxy p).
  - injection Hguard as <-. simpl. rewrite Hb, <- app_assoc. eauto.
  - injection Hguard as <-. simpl. eauto.
Qed.

Lemma mapM_appends {A B} (f : A -> M B) l :
  (forall x s y s', f x s = Ok (y, s') ->
     exists ext, bound_symbols (prologue_trace s')
                 = bound_symbols (prologue_trace s) ++ ext) ->
  forall s ys s', mapM f l s = Ok (ys, s') ->
    exists ext, bound_symbols (prologue_trace s')
                = bound_symbols (prologue_trace s) ++ ext.
Proof.
  intros Hf. induction l as [|x l IH]; intros s ys s' H; simpl in H.
  - injection H as _ <-. exists []. now rewrite app_nil_r.
  - apply bind_Ok in H as (y & s1 & Hy & H).
    apply bind_Ok in H as (ys' & s2 & Hys & H). injection H as _ <-.
    apply Hf in Hy as (e1 & He1). apply IH in Hys as (e2 & He2).
    exists (e1 ++ e2). now rewrite He2, He1, app_assoc.
Qed.

Lemma replay_constraint_appends c s u s' :
  replay_constraint proxy_index c s = Ok (u, s') ->
  exists ext, bound_symbols (prologue_trace s')
              = bound_symbols (prologue_trace s) ++ ext.
Proof.
  unfold replay_constraint. intros H.
  apply bind_Ok in H as (l & s1 & Hl & H).
  apply mapM_appends in Hl as (e1 & He1).
  - injection H as _ <-. simpl. rewrite He1, <- app_assoc. eauto.
  - intros [q|o|elts] s0 y s0' Hy.
    + apply bind_Ok in Hy as (q' & s3 & Hq & Hy). injection Hy as _ <-.
      eapply unpack_appends, Hq.
    + injection Hy as _ <-. exists []. now rewrite app_nil_r.
    + injection Hy as _ <-. exists []. now rewrite app_nil_r.
Qed.

(** The shape of the prologue that [unpack_inputs] leaves: what the trace
    held, the symbols of the inputs, the symbols of the constraints, the
    return of the tuple of the inputs. *)
Lemma unpack_inputs_shape ctx trace inputs outs trace' :
  unpack_inputs proxy_index ctx trace inputs = Ok (outs, trace') ->
  outs = inputs
  /\ exists s1 inputs_part guards_part,
       mapM (unpack proxy_index) inputs
         {| prologue_trace := trace; already_unpacked := ∅;
            record_proxy := ∅ |} = Ok (inputs, s1)
       /\ bound_symbols (prologue_trace s1)
          = bound_symbols trace ++ inputs_part
       /\ bound_symbols trace'
          = bound_symbols trace ++ inputs_part ++ guards_part
            ++ [python_return_bsym (ATuple (map AProxy inputs))].
Proof.
  unfold unpack_inputs, unpack_inputs_body. intros H.
  destruct (bind _ _ _) as [[o s]|e] eqn:E; [|discriminate].
  injection H as <- <-.
  apply bind_Ok in E as (outs & s1 & Houts & E).
  apply bind_Ok in E as (us & s2 & Hcs & E).
  apply bind_Ok in E as ([] & s3 & Hret & E).
  injection E as <- <-. injection Hret as <-.
  pose proof (mapM_unpack_returns_arguments _ _ _ _ Houts) as ->.
  split; [reflexivity|].
  destruct (mapM_appends _ _ unpack_appends _ _ _ Houts) as (e1 & He1).
  destruct (mapM_appends _ _ replay_constraint_appends _ _ _ Hcs) as (e2 & He2).
  simpl in He1. exists s1, e1, e2. repeat split; auto.
  simpl. now rewrite He2, He1, <- !app_assoc.
Qed.

(** The last symbol of the prologue trace is the return of the tuple of
    the inputs. *)
Lemma unpack_inputs_last ctx trace inputs outs trace' :
  unpack_inputs proxy_index ctx trace inputs = Ok (outs, trace') ->
  outs = inputs
  /\ last (bound_symbols trace')
     = Some (python_return_bsym (ATuple (map AProxy inputs))).
Proof.
  intros H.
  destruct (unpack_inputs_shape _ _ _ _ _ H)
    as (-> & s1 & ip & gp & _ & _ & Hb).
  split; [reflexivity|]. rewrite Hb, !app_assoc. apply last_snoc.
Qed.

Variable jfn : MesoCtx -> TraceCtx -> Result (Arg * MesoCtx * TraceCtx).


End UnpackFacts.

Section OpaqueFacts.
Import JitExt JitExtSpec.

Variable proxy_index : Proxy -> option PyObj.

Lemma inst_is_not_CONSTANT i : i <> CONSTANT -> inst_is i CONSTANT = false.
Proof.
  intros H. destruct (inst_is i CONSTANT) eqn:E; [|reflexivity].
  now apply inst_is_CONSTANT in E.
Qed.

Lemma get_record_proxy_uncached r s :
  uncached r s -> get_record_proxy r s = Ok (None, s).
Proof.
  unfold uncached, get_record_proxy. destruct (rid r); [now intros ->|reflexivity].
Qed.

(** [from_provenance] on a record without the attribute [proxy] whose tag
    is [OPAQUE] runs [from_opaque] and stores its result. *)
Lemma from_provenance_OPAQUE fuel p prov new_output s :
  inst_name (inst prov) = "OPAQUE" ->
  uncached prov s ->
  from_provenance proxy_index (S fuel) p prov new_output s
  = (let! res := from_opaque (from_provenance proxy_index fuel p)
                   prov new_output in
     let! _ := set_record_proxy prov res in
     ret res) s.
Proof.
  intros Hi Hu. rewrite from_provenance_S. unfold bind at 1.
  rewrite (get_record_proxy_uncached _ _ Hu), Hi. reflexivity.
Qed.

(** A record built by [from_opaque] has no identity: it is looked up in
    [d] at once and nothing is stored for it. *)
Lemma from_provenance_BINARY_SUBSCR_new fuel p obj idx new_output s :
  from_provenance proxy_index (S fuel) p
    (mkProvenanceRecord None BINARY_SUBSCR [obj; idx] PyNone) new_output s
  = (let! o := from_provenance proxy_index fuel p obj true in
     let! i := from_provenance proxy_index fuel p idx true in
     let output := if new_output then Proxy_new "subscr" else p in
     match subscr_index proxy_index i with
     | Some i =>
         let! _ := append_bsym
                     (bind_symbol unpack_getitem [o; AObj i] (AProxy output)) in
         ret (AProxy output)
     | None => raise (NotImplementedError
                        "Unpacking from BINARY_SUBSCR with elaborate inputs")
     end) s.
Proof.
  rewrite from_provenance_S.
  unfold bind, get_record_proxy, set_record_proxy, ret, raise. simpl.
  unfold from_binary_subscr, bind, ret. simpl. unfold bind, ret.
  destruct (from_provenance proxy_index fuel p obj true s) as [[o s1]|e];
    [|reflexivity].
  destruct (from_provenance proxy_index fuel p idx true s1) as [[i s2]|e];
    [|reflexivity].
  destruct (subscr_index proxy_index i); [|reflexivity].
  unfold append_bsym. destruct s2. reflexivity.
Qed.

Lemma from_provenance_CONSTANT_new fuel p attr_name new_output s :
  from_provenance proxy_index (S fuel) p
    (mkProvenanceRecord None CONSTANT [] (PyStr attr_name)) new_output s
  = Ok (AObj (PyStr attr_name), s).
Proof.
  rewrite from_provenance_S.
  unfold bind, get_record_proxy, set_record_proxy, ret. simpl.
  destruct s. reflexivity.
Qed.

Lemma from_provenance_LOAD_ATTR_new fuel p a1 attr_name s :
  from_provenance proxy_index (S (S fuel)) p
    (mkProvenanceRecord None LOAD_ATTR
       [a1; mkProvenanceRecord None CONSTANT [] (PyStr attr_name)] PyNone)
    false s
  = (let! o := from_provenance proxy_index (S fuel) p a1 true in
     let! _ := append_bsym
                 (bind_symbol unpack_attr [o; AObj (PyStr attr_name)]
                    (AProxy p)) in
     ret (AProxy p)) s.
Proof.
  rewrite from_provenance_S.
  remember (from_provenance proxy_index (S fuel) p) as rec eqn:Hrec.
  unfold bind, get_record_proxy, set_record_proxy, ret. simpl.
  unfold from_load_attr, bind, ret. simpl. unfold bind, ret.
  destruct (rec a1 true s) as [[o s1]|e]; [|reflexivity].
  rewrite Hrec, from_provenance_CONSTANT_new.
  unfold append_bsym. destruct s1. reflexivity.
Qed.


End OpaqueFacts.

(** ** The fuel of [from_provenance] suffices *)

Section FuelFacts.
Import JitExt JitExtSpec.

Variable proxy_index : Proxy -> option PyObj.

Lemma fueled_ret {A} (a : A) : fueled (ret a).
Proof. intros s. discriminate. Qed.

Lemma fueled_raise {A} e : e <> OutOfFuel -> fueled (@raise A e).
Proof. intros He s [= H]. now apply He. Qed.

Lemma fueled_bind {A B} (m : M A) (k : A -> M B) :
  fueled m -> (forall a, fueled (k a)) -> fueled (bind m k).
Proof.
  intros Hm Hk s. unfold bind. destruct (m s) as [[a s1]|e] eqn:E.
  - apply Hk.
  - intros [= ->]. now apply (Hm s).
Qed.

Lemma fueled_mapM {A B} (f : A -> M B) l :
  (forall x, In x l -> fueled (f x)) -> fueled (mapM f l).
Proof.
  induction l as [|x l IH]; intros Hf; simpl.
  - apply fueled_ret.
  - apply fueled_bind; [apply Hf; now left|]. intros y.
    apply fueled_bind; [apply IH; intros; apply Hf; now right|].
    intros ys. apply fueled_ret.
Qed.

Lemma fueled_append_bsym b : fueled (append_bsym b).
Proof. intros s. discriminate. Qed.

Lemma fueled_get_record_proxy r : fueled (get_record_proxy r).
Proof. intros s. discriminate. Qed.

Lemma fueled_set_record_proxy r v : fueled (set_record_proxy r v).
Proof. intros s. discriminate. Qed.

Create HintDb fueled.

#[local] Hint Resolve fueled_ret fueled_bind fueled_mapM fueled_append_bsym
  fueled_get_record_proxy fueled_set_record_proxy : fueled.
#[local] Hint Extern 1 (fueled (raise _)) =>
  (apply fueled_raise; discriminate) : fueled.

Lemma pr_size_input x l :
  In x l -> pr_size x <= list_sum (map pr_size l).
Proof.
  induction l as [|y l IH]; simpl; [contradiction|].
  intros [->|H]; [lia | apply IH in H; lia].
Qed.

Lemma pr_size_inputs r x : In x (inputs r) -> pr_size x < pr_size r.
Proof.
  destruct r as [i t l v]. simpl. intros H. apply pr_size_input in H. lia.
Qed.

Lemma fueled_unpack_fn p rec f r new_output :
  (forall r' b, pr_size r' < pr_size r -> fueled (rec r' b)) ->
  fueled (unpack_fn proxy_index p rec f r new_output).
Proof.
  intros Hrec.
  assert (Hin : forall x, In x (inputs r) -> fueled (rec x true))
    by (intros x Hx; apply Hrec; now apply pr_size_inputs).
  destruct f; simpl.
  - unfold from_input. apply fueled_bind.
    + destruct new_output; [|auto with fueled].
      apply fueled_bind; [|intros; auto with fueled].
      repeat match goal with
             | |- fueled (if ?c then _ else _) => destruct c
             end; auto with fueled.
    + intros output. auto with fueled.
  - unfold from_load_attr. apply fueled_bind; [auto with fueled|].
    intros [|i0 [|i1 l]]; auto with fueled.
  - unfold from_constant.
    destruct (is_int_or_str (value r)); auto with fueled.
  - unfold from_binary_subscr. apply fueled_bind; [auto with fueled|].
    intros [|obj [|idx [|x l]]]; auto with fueled.
    destruct (subscr_index proxy_index idx); auto with fueled.
  - unfold from_opaque.
    destruct (inputs r) as [|fn [|args l]] eqn:Hr; auto with fueled.
    assert (Hargs : pr_size args < pr_size r)
      by (apply pr_size_inputs; rewrite Hr; right; now left).
    destruct (negb (inst_is (inst fn) CONSTANT)); auto with fueled.
    destruct (py_name (value fn)) as [n|]; auto with fueled.
    destruct (String.eqb n "__getitem__").
    + destruct (inputs args) as [|idx [|obj [|x l']]] eqn:Ha;
        auto with fueled.
      apply Hrec. destruct args as [ai at_ al av]. simpl in Ha. subst al.
      simpl in *. lia.
    + destruct (value fn); auto with fueled.
      destruct (inputs args) as [|a0 [|a1 [|a2 [|x l']]]] eqn:Ha;
        auto with fueled.
      destruct (inst_is (inst a2) CONSTANT); auto with fueled.
      destruct (value a2); auto with fueled.
      apply Hrec. destruct args as [ai at_ al av]. simpl in Ha. subst al.
      destruct a0, a2. simpl in *. lia.
Qed.

(** With fuel at least the size of the record, [from_provenance] does not
    run out of fuel. *)
Lemma from_provenance_fueled fuel p r new_output :
  pr_size r <= fuel ->
  fueled (from_provenance proxy_index fuel p r new_output).
Proof.
  revert r new_output. induction fuel as [|fuel IH]; intros r new_output Hsz.
  - destruct r; simpl in Hsz; lia.
  - rewrite from_provenance_S. apply fueled_bind; [auto with fueled|].
    intros [v|]; [auto with fueled|].
    destruct (dict_get d (inst_name (inst r))) as [f|]; [|auto with fueled].
    apply fueled_bind; [|intros; auto with fueled].
    apply fueled_unpack_fn. intros r' b Hlt. apply IH. lia.
Qed.

Lemma unpack_fueled p : fueled (unpack proxy_index p).
Proof.
  unfold unpack. destruct (history p) as [h|]; [|auto with fueled].
  apply fueled_bind; [intros s; discriminate|].
  intros [|]; [auto with fueled|].
  apply fueled_bind; [intros s; discriminate|]. intros _.
  apply fueled_bind; [now apply from_provenance_fueled|]. intros _.
  apply fueled_bind; [intros s; discriminate|]. intros _.
  apply fueled_bind; [|auto with fueled].
  destruct (is_TensorProxy p); auto with fueled.
Qed.

(** [unpack_inputs] returns or raises one of the source's exceptions: the
    fuel given to [from_provenance] is never exhausted. *)
Lemma unpack_inputs_fueled ctx trace inputs :
  unpack_inputs proxy_index ctx trace inputs <> Raise OutOfFuel.
Proof.
  unfold unpack_inputs.
  assert (H : fueled (unpack_inputs_body proxy_index ctx inputs)).
  { unfold unpack_inputs_body.
    apply fueled_bind; [apply fueled_mapM; intros; apply unpack_fueled|].
    intros outs. apply fueled_bind; [|auto with fueled].
    apply fueled_mapM. intros c _. unfold replay_constraint.
    apply fueled_bind; [|auto with fueled].
    apply fueled_mapM. intros [q|o|l] _; auto with fueled.
    apply fueled_bind; [apply unpack_fueled | auto with fueled]. }
  specialize (H {| prologue_trace := trace; already_unpacked := ∅;
                   record_proxy := ∅ |}).
  destruct (unpack_inputs_body _ _ _ _) as [[o s]|e]; [discriminate|].
  intros [= ->]. now apply H.
Qed.

End FuelFacts.

(** ** The claims on concrete compilations *)

Section PrologueExamples.
Import JitExt JitExtSpec JitExtExamples.

Lemma add_trace_names_identify :
  names_identify
    (used_inputs (bound_symbols (record_bsym TraceCtx_new add_bsym)
                  ++ [python_return_bsym (AProxy t2)])).
Proof.
  intros p q Hp Hq Hn. vm_compute in Hp, Hq.
  destruct Hp as [<-|[<-|[]]], Hq as [<-|[<-|[]]];
    try reflexivity; discriminate Hn.
Qed.


(** The prologue of [f(x, y) = x + y]: [args] is unpacked once, each
    tensor is taken from it and guarded at once, the recorded constraints
    follow, and the tuple of the two tensors is returned. *)
Example add_prologue_symbols :
  match unpack_inputs no_proxy_index
          (add_constraint
             (add_constraint (MesoCtx_new ERROR)
                (check_tensor_shape_and_metadata, [AProxy t0]))
             (check_tensor_shape_and_metadata, [AProxy t1]))
          TraceCtx_new [t0; t1] with
  | Ok (outs, trace) => Some (outs, map sym (bound_symbols trace))
  | Raise _ => None
  end
  = Some ([t0; t1],
          [unpack_trivial; unpack_getitem; assert_tensor_metadata;
           unpack_getitem; assert_tensor_metadata;
           check_tensor_shape_and_metadata; check_tensor_shape_and_metadata;
           python_return]).
Proof. vm_compute. reflexivity. Qed.



(** The prologue of a tensor reached through the opaque [__getitem__]:
    [unpack_getitem(args, 0)] is bound to the tensor. *)
Example opaque_getitem_prologue :
  match unpack_inputs no_proxy_index (MesoCtx_new ERROR) TraceCtx_new [t5] with
  | Ok (_, trace) =>
      Some (map (fun b => (sym b, args b)) (bound_symbols trace))
  | Raise _ => None
  end
  = Some [ (unpack_trivial, [AProxy (Proxy_new "args")]);
           (unpack_getitem, [AProxy (Proxy_new "args"); AObj (PyInt 0)]);
           (assert_tensor_metadata,
            [AProxy t5; ATuple [AObj (PyInt 4); AObj (PyInt 4)];
             AObj (PyStr "cpu"); AObj (PyStr "float32"); AObj (PyBool false)]);
           (python_return, [ATuple [AProxy t5]]) ].
Proof. vm_compute. reflexivity. Qed.

End PrologueExamples.

(** ** More on the opcode table *)

Section StackEffectFacts.
Import PythonIR.
Local Open Scope Z_scope.

Lemma dict_get_In {V} (d : list (string * V)) k v :
  dict_get d k = Some v -> In (k, v) d.
Proof.
  induction d as [|[k' v'] d IH]; simpl; [discriminate|].
  destruct (String.eqb_spec k k') as [->|Hne].
  - intros [= ->]. now left.
  - intros H. right. auto.
Qed.

Lemma fixed_stack_effects_nonnegative :
  Forall (fun e => 0 <= fst (snd e) /\ 0 <= snd (snd e))
         fixed_stack_effects_detail.
Proof.
  unfold fixed_stack_effects_detail.
  repeat (constructor; [simpl; lia|]). constructor.
Qed.

Lemma flag_bounds oparg mask : 0 <= flag oparg mask <= 1.
Proof. unfold flag. destruct (negb _); simpl; lia. Qed.

(** X4: for an argument that is not negative, the two counts that
    [stack_effect_detail] returns are not negative. *)
Theorem stack_effect_detail_nonnegative opname oparg jump pops pushes :
  0 <= oparg ->
  stack_effect_detail opname oparg jump = Ok (pops, pushes) ->
  0 <= pops /\ 0 <= pushes.
Proof.
  intros Harg. unfold stack_effect_detail.
  destruct (dict_get fixed_stack_effects_detail opname) as [eff|] eqn:E.
  - intros [= ->]. apply dict_get_In in E.
    pose proof fixed_stack_effects_nonnegative as Hall.
    rewrite Forall_forall in Hall. apply list_elem_of_In in E.
    exact (Hall _ E).
  - pose proof (flag_bounds oparg 1). pose proof (flag_bounds oparg 2).
    pose proof (flag_bounds oparg 4). pose proof (flag_bounds oparg 8).
    pose proof (Z.land_nonneg oparg 255).
    pose proof (Z.shiftr_nonneg oparg 8).
    repeat match goal with
           | |- context [if ?c then _ else _] => destruct c
           end; intros [= <- <-]; lia.
Qed.

Lemma stack_effect_detail_nonnegative_witness :
  0 <= 2 + 1 /\ 0 <= 1.
Proof.
  apply (stack_effect_detail_nonnegative "CALL_METHOD" 1 false (2 + 1) 1).
  - lia.
  - reflexivity.
Defined.

(** X5: the jump flag changes the effect of five opcodes only. *)
Theorem stack_effect_detail_jump_independent opname oparg :
  ~ In opname ["JUMP_IF_TRUE_OR_POP"; "JUMP_IF_FALSE_OR_POP"; "SETUP_FINALLY";
               "SETUP_ASYNC_WITH"; "FOR_ITER"] ->
  stack_effect_detail opname oparg true = stack_effect_detail opname oparg false.
Proof.
  intros H. unfold stack_effect_detail.
  destruct (dict_get fixed_stack_effects_detail opname); [reflexivity|].
  assert (H1 : in_names opname ["JUMP_IF_TRUE_OR_POP"; "JUMP_IF_FALSE_OR_POP"]
               = false).
  { destruct (in_names _ _) eqn:E; [|reflexivity].
    apply in_names_In in E. exfalso. apply H. simpl in *. tauto. }
  rewrite H1.
  assert (H2 : forall s, In s ["SETUP_FINALLY"; "SETUP_ASYNC_WITH"; "FOR_ITER"] ->
                         String.eqb opname s = false).
  { intros s Hs. apply String.eqb_neq. intros ->. apply H. simpl in *. tauto. }
  rewrite (H2 "SETUP_FINALLY"), (H2 "SETUP_ASYNC_WITH"), (H2 "FOR_ITER")
    by (simpl; tauto).
  reflexivity.
Qed.

Lemma stack_effect_detail_jump_independent_witness :
  stack_effect_detail "UNPACK_EX" 258 true
  = stack_effect_detail "UNPACK_EX" 258 false.
Proof.
  apply (stack_effect_detail_jump_independent "UNPACK_EX" 258).
  intros H. apply in_names_In in H. vm_compute in H. discriminate.
Defined.

End StackEffectFacts.

(** ** The line table writer *)

Section LineTableFacts.
Import LineTable.
Local Open Scope Z_scope.

Lemma land_255_signed_byte x :
  -127 <= x <= 127 ->
  signed_byte (Z.land x 255) = x
  /\ 0 <= Z.land x 255 <= 255 /\ Z.land x 255 <> 128.
Proof.
  intros Hx.
  assert (Hl : Z.land x 255 = x mod 256)
    by (change 255 with (Z.ones 8); now rewrite Z.land_ones by lia).
  rewrite Hl. unfold signed_byte.
  destruct (Z_lt_le_dec x 0) as [Hneg|Hpos].
  - assert (Hm : x mod 256 = x + 256).
    { symmetry. apply Z.mod_unique with (-1); lia. }
    rewrite Hm. destruct (x + 256 <? 128) eqn:E.
    + apply Z.ltb_lt in E. lia.
    + lia.
  - rewrite Z.mod_small by lia. destruct (x <? 128) eqn:E.
    + lia.
    + apply Z.ltb_ge in E. lia.
Qed.

Lemma entries_app t1 t2 : entries t1 -> entries t2 -> entries (t1 ++ t2).
Proof. induction 1; simpl; intros; [assumption | constructor; auto]. Qed.

Lemma byte_total_app t1 t2 :
  entries t1 -> byte_total (t1 ++ t2) = byte_total t1 + byte_total t2.
Proof. induction 1; simpl; [reflexivity | rewrite IHentries; lia]. Qed.

Lemma line_total_app t1 t2 :
  entries t1 -> line_total (t1 ++ t2) = line_total t1 + line_total t2.
Proof. induction 1; simpl; [reflexivity | rewrite IHentries; lia]. Qed.

(** The loop on a non-negative address increment. *)
Lemma _update_loop_exact fuel : forall b l table,
  0 <= b -> (Z.to_nat (Z.abs b + Z.abs l) < fuel)%nat ->
  exists ext,
    _update_loop fuel b l table = Ok (table ++ ext)
    /\ entries ext /\ byte_total ext = b /\ line_total ext = l.
Proof.
  induction fuel as [|fuel IH]; intros b l table Hb Hf; [lia|].
  simpl. destruct (negb (b =? 0) || negb (l =? 0)) eqn:Hcond.
  - set (bo := Z.max 0 (Z.min b 254)). set (lo := Z.max (-127) (Z.min l 127)).
    assert (Hnz : negb (bo =? 0) || negb (lo =? 0) = true).
    { apply orb_true_iff in Hcond. apply orb_true_iff.
      destruct Hcond as [H|H]; apply negb_true_iff, Z.eqb_neq in H;
        [left | right]; apply negb_true_iff, Z.eqb_neq; subst bo lo; lia. }
    rewrite Hnz.
    destruct (IH (b - bo) (l - lo) (table ++ [bo; Z.land lo 255]))
      as (ext & He & Hent & Hbt & Hlt).
    { subst bo; lia. }
    { apply orb_true_iff in Hnz.
      destruct Hnz as [H|H]; apply negb_true_iff, Z.eqb_neq in H;
        subst bo lo; lia. }
    destruct (land_255_signed_byte lo) as (Hs & Hr & H128); [subst lo; lia|].
    exists (bo :: Z.land lo 255 :: ext). rewrite He, <- app_assoc. simpl.
    repeat split; try lia.
    + constructor; auto. subst bo; lia.
  - apply orb_false_iff in Hcond as [H1 H2].
    apply negb_false_iff, Z.eqb_eq in H1, H2. subst.
    exists []. rewrite app_nil_r. repeat split. constructor.
Qed.

(** The loop on a negative address increment: it consumes the line
    increment and then fails the assertion. *)
Lemma _update_loop_negative fuel : forall b l table,
  b < 0 -> (Z.to_nat (Z.abs l) < fuel)%nat ->
  _update_loop fuel b l table
  = Raise (AssertionError "byte_offset != 0 or line_offset != 0").
Proof.
  induction fuel as [|fuel IH]; intros b l table Hb Hf; [lia|].
  simpl. assert (Hb0 : (b =? 0) = false) by (apply Z.eqb_neq; lia).
  rewrite Hb0. simpl.
  assert (Hbo : Z.max 0 (Z.min b 254) = 0) by lia. rewrite Hbo. simpl.
  destruct (Z.max (-127) (Z.min l 127) =? 0) eqn:E; simpl; [reflexivity|].
  apply Z.eqb_neq in E. rewrite Z.sub_0_r. apply IH; lia.
Qed.

Lemma _update_exact (b l : Z) (table : list Z) :
  0 <= b ->
  exists ext,
    _update b l table = Ok (table ++ ext)
    /\ entries ext /\ byte_total ext = b /\ line_total ext = l.
Proof. intros Hb. apply _update_loop_exact; [exact Hb | lia]. Qed.

(** X1: for an address increment that is not negative, [_update] appends
    entries to the table, each an address byte in 0..254 and a line byte
    other than 128, whose address increments add up to the address
    increment asked for and whose line increments, read as signed bytes,
    add up to the line increment asked for. *)
Theorem _update_encodes_deltas (b l : Z) (table : list Z) :
  0 <= b ->
  exists ext,
    _update b l table = Ok (table ++ ext)
    /\ entries ext /\ byte_total ext = b /\ line_total ext = l.
Proof.
  intros Hb. unfold _update.
  apply _update_loop_exact; [exact Hb | lia].
Qed.

Lemma _update_encodes_deltas_witness :
  exists ext,
    _update 300 (-200) [] = Ok ([] ++ ext)
    /\ entries ext /\ byte_total ext = 300 /\ line_total ext = -200.
Proof. apply (_update_encodes_deltas 300 (-200) []). lia. Defined.

Example _update_300_minus_200 :
  _update 300 (-200) [] = Ok [254; 129; 46; 183].
Proof. reflexivity. Qed.

(** X2: [update] with an address below the address of the last update, and
    [end] with a total below it, raise [AssertionError]: an address
    increment that is negative is never encoded. *)
Theorem update_backwards_asserts (w : Writer) (line address : Z) :
  address < byteno w ->
  update w line address
  = Raise (AssertionError "byte_offset != 0 or line_offset != 0")
  /\ end_ w address
     = Raise (AssertionError "byte_offset != 0 or line_offset != 0").
Proof.
  intros H. unfold update, end_, _update.
  rewrite _update_loop_negative by lia. split; reflexivity.
Qed.

Lemma update_backwards_asserts_witness :
  update {| linetable := []; lineno := 1; lineno_delta := 0; byteno := 4 |} 2 2
  = Raise (AssertionError "byte_offset != 0 or line_offset != 0")
  /\ end_ {| linetable := []; lineno := 1; lineno_delta := 0; byteno := 4 |} 2
     = Raise (AssertionError "byte_offset != 0 or line_offset != 0").
Proof.
  apply (update_backwards_asserts
           {| linetable := []; lineno := 1; lineno_delta := 0; byteno := 4 |}
           2 2).
  simpl. lia.
Defined.

(** What a writer keeps true between calls. *)
Lemma update_invariant first w line address :
  writer_invariant first w -> byteno w <= address ->
  exists w',
    update w line address = Ok w'
    /\ writer_invariant first w'
    /\ lineno w' = line /\ byteno w' = address.
Proof.
  intros (He & Hb & Hl & H0) Ha. unfold update.
  destruct (_update_exact (address - byteno w) (lineno_delta w)
              (linetable w)) as (ext & Hu & Hent & Hbt & Hlt); [lia|].
  rewrite Hu. eexists. split; [reflexivity|].
  unfold writer_invariant. simpl.
  rewrite byte_total_app, line_total_app by exact He.
  repeat split; try lia. now apply entries_app.
Qed.

Lemma last_line_cons first line address marks :
  last_line first ((line, address) :: marks) = last_line line marks.
Proof. unfold last_line. rewrite last_cons. now destruct (last marks). Qed.

Lemma last_address_cons start line address marks :
  last_address start ((line, address) :: marks) = last_address address marks.
Proof. unfold last_address. rewrite last_cons. now destruct (last marks). Qed.

Lemma updates_invariant first marks : forall w,
  writer_invariant first w -> ascending (byteno w) marks ->
  exists w',
    updates w marks = Ok w'
    /\ writer_invariant first w'
    /\ lineno w' = last_line (lineno w) marks
    /\ byteno w' = last_address (byteno w) marks.
Proof.
  induction marks as [|[line address] marks IH]; intros w Hw Hasc.
  - exists w. repeat split; auto; apply Hw.
  - destruct Hasc as [Ha Hasc]. simpl.
    destruct (update_invariant first w line address Hw Ha)
      as (w1 & Hu & Hw1 & Hl1 & Hb1).
    rewrite Hu. rewrite <- Hb1 in Hasc.
    destruct (IH w1 Hw1 Hasc) as (w' & Hus & Hw' & Hl' & Hb').
    exists w'. rewrite last_line_cons, last_address_cons, <- Hl1, <- Hb1.
    auto.
Qed.

(** X3: for marks with addresses that do not decrease and a total length
    not below the last address, the writer yields a table of entries whose
    address increments add up to the total length and whose line
    increments add up to the distance from the first line to the line of
    the last mark. *)
Theorem write_table_totals (first : Z) (marks : list (Z * Z)) (total : Z) :
  ascending 0 marks -> last_address 0 marks <= total ->
  exists table,
    write_table first marks total = Ok table
    /\ entries table
    /\ byte_total table = total
    /\ line_total table = last_line first marks - first.
Proof.
  intros Hasc Htot. unfold write_table.
  assert (Hw0 : writer_invariant first (linetable_writer first)).
  { unfold writer_invariant, linetable_writer. simpl.
    repeat split; try lia. constructor. }
  destruct (updates_invariant first marks _ Hw0 Hasc)
    as (w & Hu & (He & Hb & Hl & H0) & Hln & Hbn).
  rewrite Hu. simpl in Hln, Hbn. unfold end_.
  destruct (_update_exact (total - byteno w) (lineno_delta w)
              (linetable w)) as (ext & Hup & Hent & Hbt & Hlt); [lia|].
  rewrite Hup. eexists. split; [reflexivity|]. simpl.
  rewrite byte_total_app, line_total_app by exact He.
  repeat split; try lia. now apply entries_app.
Qed.

Lemma write_table_totals_witness :
  exists table,
    write_table 10 [(12, 0); (11, 4); (400, 300)] 302 = Ok table
    /\ entries table
    /\ byte_total table = 302
    /\ line_total table = last_line 10 [(12, 0); (11, 4); (400, 300)] - 10.
Proof.
  apply (write_table_totals 10 [(12, 0); (11, 4); (400, 300)] 302).
  - simpl. lia.
  - vm_compute. discriminate.
Defined.

End LineTableFacts.

(** ** Blocks and nodes *)

Section GraphFacts.
Import GraphOps.

Lemma index_found pre x post :
  ~ In x pre -> index (pre ++ x :: post) x = Some (length pre).
Proof.
  induction pre as [|y pre IH]; simpl; intros H.
  - now rewrite decide_True.
  - rewrite decide_False by (intros ->; apply H; now left).
    rewrite IH by (intros Hin; apply H; now right). reflexivity.
Qed.

Lemma index_missing l x : ~ In x l -> index l x = None.
Proof.
  induction l as [|y l IH]; simpl; intros H; [reflexivity|].
  rewrite decide_False by (intros ->; apply H; now left).
  rewrite IH by (intros Hin; apply H; now right). reflexivity.
Qed.

Lemma first_position_found pre x post :
  ~ In x pre -> first_position (pre ++ x :: post) x = length pre.
Proof.
  induction pre as [|y pre IH]; simpl; intros H.
  - now rewrite decide_True.
  - rewrite decide_False by (intros ->; apply H; now left).
    rewrite IH by (intros Hin; apply H; now right). reflexivity.
Qed.

Lemma first_position_missing l x : ~ In x l -> first_position l x = length l.
Proof.
  induction l as [|y l IH]; simpl; intros H; [reflexivity|].
  rewrite decide_False by (intros ->; apply H; now left).
  rewrite IH by (intros Hin; apply H; now right). reflexivity.
Qed.

Lemma first_position_In l x : In x l -> (first_position l x < length l)%nat.
Proof.
  induction l as [|y l IH]; simpl; intros H; [contradiction|].
  destruct (decide (y = x)) as [->|Hne]; [lia|].
  destruct H as [H|H]; [congruence|]. apply IH in H. lia.
Qed.

Lemma py_insert_at pre x post :
  py_insert (length pre) x (pre ++ post) = pre ++ x :: post.
Proof. unfold py_insert. now rewrite take_app_length, drop_app_length. Qed.

Lemma nodes_of_set_nodes gr bl l b :
  nodes_of (set_nodes gr bl l) b = if decide (bl = b) then l else nodes_of gr b.
Proof.
  unfold nodes_of, set_nodes. simpl. rewrite lookup_insert.
  now destruct (decide (bl = b)).
Qed.

Lemma nodes_of_set_block gr n bl b :
  nodes_of (set_block gr n bl) b = nodes_of gr b.
Proof. reflexivity. Qed.

(** X6: [insert_before(new_n, n)] puts [new_n] right in front of the first
    occurrence of [n] in the block of [n], keeps the other nodes of the
    block in their order and the other blocks as they are, and makes the
    block of [n] the block of [new_n]; when [n] is not among the nodes of
    its block, it raises [ValueError]. *)
Theorem insert_before_places new_n n gr bl :
  block gr !! n = Some bl ->
  (forall pre post,
     nodes_of gr bl = pre ++ n :: post -> ~ In n pre ->
     exists gr',
       insert_before new_n n gr = Ok gr'
       /\ nodes_of gr' bl = pre ++ new_n :: n :: post
       /\ block gr' !! new_n = Some bl
       /\ (forall b, b <> bl -> nodes_of gr' b = nodes_of gr b)
       /\ (forall m, m <> new_n -> block gr' !! m = block gr !! m)
       /\ blocks gr' = blocks gr)
  /\ (~ In n (nodes_of gr bl) ->
      insert_before new_n n gr = Raise (ValueError "x is not in list")).
Proof.
  intros Hb. split.
  - intros pre post Hn Hpre. unfold insert_before. rewrite Hb, Hn.
    rewrite (index_found pre n post Hpre). eexists. split; [reflexivity|].
    rewrite nodes_of_set_block, nodes_of_set_nodes, decide_True by reflexivity.
    rewrite (py_insert_at pre new_n (n :: post)).
    repeat split.
    + simpl. apply lookup_insert_eq.
    + intros b Hne. rewrite nodes_of_set_block, nodes_of_set_nodes.
      now rewrite decide_False by congruence.
    + intros m Hne. simpl. now rewrite lookup_insert_ne by congruence.
  - intros Hn. unfold insert_before. rewrite Hb.
    now rewrite (index_missing _ _ Hn).
Qed.

(** X7: [insert_after(new_n, n)] puts [new_n] right behind the first
    occurrence of [n] in the block of [n], with the same side conditions
    and the same error. *)
Theorem insert_after_places new_n n gr bl :
  block gr !! n = Some bl ->
  (forall pre post,
     nodes_of gr bl = pre ++ n :: post -> ~ In n pre ->
     exists gr',
       insert_after new_n n gr = Ok gr'
       /\ nodes_of gr' bl = pre ++ n :: new_n :: post
       /\ block gr' !! new_n = Some bl
       /\ (forall b, b <> bl -> nodes_of gr' b = nodes_of gr b)
       /\ (forall m, m <> new_n -> block gr' !! m = block gr !! m)
       /\ blocks gr' = blocks gr)
  /\ (~ In n (nodes_of gr bl) ->
      insert_after new_n n gr = Raise (ValueError "x is not in list")).
Proof.
  intros Hb. split.
  - intros pre post Hn Hpre. unfold insert_after. rewrite Hb, Hn.
    rewrite (index_found pre n post Hpre). eexists. split; [reflexivity|].
    rewrite nodes_of_set_block, nodes_of_set_nodes, decide_True by reflexivity.
    replace (length pre + 1)%nat with (length (pre ++ [n]))
      by (rewrite length_app; reflexivity).
    replace (pre ++ n :: post) with ((pre ++ [n]) ++ post)
      by (now rewrite <- app_assoc).
    rewrite (py_insert_at (pre ++ [n]) new_n post), <- app_assoc.
    repeat split.
    + simpl. apply lookup_insert_eq.
    + intros b Hne. rewrite nodes_of_set_block, nodes_of_set_nodes.
      now rewrite decide_False by congruence.
    + intros m Hne. simpl. now rewrite lookup_insert_ne by congruence.
  - intros Hn. unfold insert_after. rewrite Hb.
    now rewrite (index_missing _ _ Hn).
Qed.

Lemma index_Some_In l x idx : index l x = Some idx -> In x l.
Proof.
  revert idx. induction l as [|y l IH]; simpl; intros idx; [discriminate|].
  destruct (decide (y = x)) as [->|Hne]; [now left|].
  destruct (index l x) eqn:E; [|discriminate]. intros _. right. eauto.
Qed.

Lemma In_py_insert idx x l y :
  In y (py_insert idx x l) <-> y = x \/ In y l.
Proof.
  unfold py_insert. rewrite in_app_iff. simpl.
  assert (H : In y l <-> In y (take idx l) \/ In y (drop idx l))
    by (now rewrite <- in_app_iff, take_drop).
  rewrite H. intuition.
Qed.

(** X8: when every listed node points back to its block and [new_n] is
    listed in no block, the same holds after [insert_before] and after
    [insert_after]. *)
Theorem insert_keeps_back_pointers new_n n gr gr' :
  back_pointers gr ->
  (forall bl, ~ In new_n (nodes_of gr bl)) ->
  insert_before new_n n gr = Ok gr' \/ insert_after new_n n gr = Ok gr' ->
  back_pointers gr'.
Proof.
  intros Hbp Hnew H.
  assert (Hshape : exists bl idx,
            block gr !! n = Some bl
            /\ gr' = set_block
                       (set_nodes gr bl (py_insert idx new_n (nodes_of gr bl)))
                       new_n bl).
  { unfold insert_before, insert_after in H.
    destruct (block gr !! n) as [bl|]; [|destruct H; discriminate].
    destruct (index (nodes_of gr bl) n) as [idx|]; [|destruct H; discriminate].
    destruct H as [[= <-]|[= <-]]; eauto. }
  destruct Hshape as (bl & idx & Hb & ->).
  intros b m Hm. rewrite nodes_of_set_block, nodes_of_set_nodes in Hm.
  simpl. destruct (decide (bl = b)) as [<-|Hne].
  - apply In_py_insert in Hm as [->|Hm].
    + apply lookup_insert_eq.
    + rewrite lookup_insert_ne; [now apply Hbp|].
      intros <-. now apply (Hnew bl).
  - rewrite lookup_insert_ne; [now apply Hbp|].
    intros <-. now apply (Hnew b).
Qed.

Lemma nodes_of_default gr bl l :
  nodes gr !! bl = Some l -> nodes_of gr bl = l.
Proof. unfold nodes_of. now intros ->. Qed.

(** X9: [split_block] fails its first assertion when the block is not in
    [gr.blocks] and its second when the node is not in the block. *)
Theorem split_block_not_found gr bl n :
  (~ In bl (blocks gr) ->
     split_block gr bl n = Raise (AssertionError "block not found"))
  /\ (In bl (blocks gr) -> ~ In n (nodes_of gr bl) ->
     split_block gr bl n = Raise (AssertionError "node not found")).
Proof.
  unfold split_block. split.
  - intros H. rewrite (first_position_missing _ _ H).
    now rewrite Nat.ltb_irrefl.
  - intros Hb Hn. pose proof (first_position_In _ _ Hb) as Hlt.
    apply Nat.ltb_lt in Hlt. rewrite Hlt. simpl.
    rewrite (first_position_missing _ _ Hn). now rewrite Nat.ltb_irrefl.
Qed.

(** X10: [split_block(gr, bl, n)] on a block of the graph that holds [n]
    returns a new block, placed right behind [bl] in [gr.blocks]; the new
    block holds [n] and the nodes behind it, [bl] keeps the nodes in front
    of [n] and ends with a new jump node whose only target is the new
    block and which is the only jump source of the new block; the nodes of
    the other blocks stay as they are. *)
Theorem split_block_splits gr bl n bpre bpost pre post :
  fresh gr ->
  blocks gr = bpre ++ bl :: bpost -> ~ In bl bpre ->
  nodes_of gr bl = pre ++ n :: post -> ~ In n pre ->
  exists gr',
    let nbl := next_object gr in
    let jump_node := S (next_object gr) in
    split_block gr bl n = Ok (gr', nbl)
    /\ blocks gr' = bpre ++ bl :: nbl :: bpost
    /\ nodes_of gr' bl = pre ++ [jump_node]
    /\ nodes_of gr' nbl = n :: post
    /\ jump_targets gr' !! jump_node = Some [((0, 0)%Z, nbl)]
    /\ jump_sources_of gr' nbl = [jump_node]
    /\ opname gr' !! jump_node = Some "JUMP_ABSOLUTE"
    /\ (forall b, b <> bl -> b <> nbl -> nodes_of gr' b = nodes_of gr b).
Proof.
  intros Hfresh Hbl Hbpre Hn Hpre.
  assert (Hne : next_object gr <> bl).
  { intros He. destruct (Hfresh (next_object gr) (le_n _)) as (Hnb & _).
    apply Hnb. rewrite Hbl, He. apply in_or_app. right. now left. }
  unfold split_block.
  rewrite Hbl, (first_position_found bpre bl bpost Hbpre), <- Hbl.
  assert (Hi : (length bpre <? length (blocks gr))%nat = true).
  { apply Nat.ltb_lt. rewrite Hbl, length_app. simpl. lia. }
  rewrite Hi. simpl negb. cbv iota.
  rewrite Hn, (first_position_found pre n post Hpre).
  assert (Hj : (length pre <? length (pre ++ n :: post))%nat = true).
  { apply Nat.ltb_lt. rewrite length_app. simpl. lia. }
  rewrite Hj. simpl negb. cbv iota.
  eexists. cbv zeta. split; [reflexivity|].
  assert (Hold : default [] (<[next_object gr := drop (length pre)
                                  (pre ++ n :: post)]> (nodes gr) !! bl)
                 = pre ++ n :: post).
  { rewrite lookup_insert_ne by exact Hne. exact Hn. }
  unfold nodes_of, jump_sources_of. simpl. rewrite Hold.
  rewrite take_app_length, drop_app_length.
  repeat split.
  - rewrite Hbl.
    replace (length bpre + 1)%nat with (length (bpre ++ [bl]))
      by (rewrite length_app; reflexivity).
    replace (bpre ++ bl :: bpost) with ((bpre ++ [bl]) ++ bpost)
      by (now rewrite <- app_assoc).
    unfold py_insert. rewrite take_app_length, drop_app_length.
    now rewrite <- app_assoc.
  - now rewrite lookup_insert_eq.
  - rewrite lookup_insert_ne by congruence. now rewrite lookup_insert_eq.
  - apply lookup_insert_eq.
  - now rewrite lookup_insert_eq.
  - apply lookup_insert_eq.
  - intros b Hb1 Hb2. now rewrite !lookup_insert_ne by congruence.
Qed.

End GraphFacts.

Section GraphExampleFacts.
Import GraphOps GraphExamples.

Lemma two_blocks_fresh : fresh two_blocks.
Proof.
  intros id Hid. simpl in Hid. unfold two_blocks, nodes_of. simpl.
  repeat split.
  - intros [H|[H|[]]]; lia.
  - rewrite !lookup_insert_ne by lia. apply lookup_empty.
  - intros bl. destruct (decide (bl = 0)) as [->|H0].
    + rewrite lookup_insert_eq. simpl. lia.
    + rewrite lookup_insert_ne by congruence.
      destruct (decide (bl = 1)) as [->|H1].
      * rewrite lookup_insert_eq. simpl. lia.
      * rewrite lookup_insert_ne by congruence. rewrite lookup_empty.
        simpl. tauto.
Qed.

Lemma two_blocks_back_pointers : back_pointers two_blocks.
Proof.
  intros bl n. unfold two_blocks, nodes_of. simpl.
  destruct (decide (bl = 0)) as [->|H0].
  - rewrite lookup_insert_eq. simpl.
    intros [<-|[<-|[<-|[]]]]; reflexivity.
  - rewrite lookup_insert_ne by congruence.
    destruct (decide (bl = 1)) as [->|H1].
    + rewrite lookup_insert_eq. simpl. intros [<-|[]]. reflexivity.
    + rewrite lookup_insert_ne by congruence. rewrite lookup_empty.
      simpl. tauto.
Qed.

Lemma two_blocks_free_node : forall bl, ~ In 14 (nodes_of two_blocks bl).
Proof.
  intros bl. unfold two_blocks, nodes_of. simpl.
  destruct (decide (bl = 0)) as [->|H0].
  - rewrite lookup_insert_eq. simpl. lia.
  - rewrite lookup_insert_ne by congruence.
    destruct (decide (bl = 1)) as [->|H1].
    + rewrite lookup_insert_eq. simpl. lia.
    + rewrite lookup_insert_ne by congruence. rewrite lookup_empty.
      simpl. tauto.
Qed.

Lemma insert_before_places_witness :
  (exists gr',
     insert_before 14 11 two_blocks = Ok gr'
     /\ nodes_of gr' 0 = [10] ++ 14 :: 11 :: [12]
     /\ block gr' !! 14 = Some 0
     /\ (forall b, b <> 0 -> nodes_of gr' b = nodes_of two_blocks b)
     /\ (forall m, m <> 14 -> block gr' !! m = block two_blocks !! m)
     /\ blocks gr' = blocks two_blocks)
  /\ insert_before 14 99 (set_block two_blocks 99 0)
     = Raise (ValueError "x is not in list").
Proof.
  split.
  - apply (proj1 (insert_before_places 14 11 two_blocks 0 eq_refl) [10] [12]).
    + reflexivity.
    + simpl. lia.
  - apply (proj2 (insert_before_places 14 99 (set_block two_blocks 99 0) 0
                    eq_refl)).
    vm_compute. lia.
Defined.

Lemma insert_after_places_witness :
  exists gr',
    insert_after 14 11 two_blocks = Ok gr'
    /\ nodes_of gr' 0 = [10] ++ 11 :: 14 :: [12]
    /\ block gr' !! 14 = Some 0
    /\ (forall b, b <> 0 -> nodes_of gr' b = nodes_of two_blocks b)
    /\ (forall m, m <> 14 -> block gr' !! m = block two_blocks !! m)
    /\ blocks gr' = blocks two_blocks.
Proof.
  apply (proj1 (insert_after_places 14 11 two_blocks 0 eq_refl) [10] [12]).
  - reflexivity.
  - simpl. lia.
Defined.

Lemma insert_keeps_back_pointers_witness :
  exists gr', insert_before 14 11 two_blocks = Ok gr' /\ back_pointers gr'.
Proof.
  destruct (insert_before 14 11 two_blocks) as [gr'|e] eqn:E.
  - exists gr'. split; [reflexivity|].
    apply (insert_keeps_back_pointers 14 11 two_blocks gr'
             two_blocks_back_pointers two_blocks_free_node).
    left. exact E.
  - vm_compute in E. discriminate E.
Defined.

Lemma split_block_not_found_witness :
  split_block two_blocks 7 11 = Raise (AssertionError "block not found")
  /\ split_block two_blocks 1 11 = Raise (AssertionError "node not found").
Proof.
  split.
  - apply (proj1 (split_block_not_found two_blocks 7 11)). simpl. lia.
  - apply (proj2 (split_block_not_found two_blocks 1 11)).
    + simpl. lia.
    + vm_compute. lia.
Defined.

Lemma split_block_splits_witness :
  exists gr',
    split_block two_blocks 0 11 = Ok (gr', 20)
    /\ blocks gr' = [] ++ 0 :: 20 :: [1]
    /\ nodes_of gr' 0 = [10] ++ [21]
    /\ nodes_of gr' 20 = 11 :: [12]
    /\ jump_targets gr' !! 21 = Some [((0, 0)%Z, 20)]
    /\ jump_sources_of gr' 20 = [21]
    /\ opname gr' !! 21 = Some "JUMP_ABSOLUTE"
    /\ (forall b, b <> 0 -> b <> 20 -> nodes_of gr' b = nodes_of two_blocks b).
Proof.
  apply (split_block_splits two_blocks 0 11 [] [1] [10] [12] two_blocks_fresh).
  - reflexivity.
  - simpl. tauto.
  - reflexivity.
  - simpl. lia.
Defined.

End GraphExampleFacts.

(** ** The global callbacks *)

Section GlobalCallbackFacts.
Import JitExt GlobalCallbacks.

Lemma sharp_edge_returns desc ctx ctx' :
  _sharp_edge desc ctx = Ok ctx' \/ _meso_sharp_edge desc ctx = Ok ctx' ->
  sharp_edges ctx <> ERROR
  /\ _constraints ctx' = _constraints ctx
  /\ sharp_edges ctx' = sharp_edges ctx.
Proof.
  unfold _sharp_edge, _meso_sharp_edge.
  intros [H|H]; destruct (sharp_edges ctx) eqn:E; try discriminate;
    injection H as <-; simpl; rewrite ?E; repeat split; discriminate.
Qed.

Lemma string_app_assoc (a b c : string) : (a +:+ b) +:+ c = a +:+ (b +:+ c).
Proof.
  induction a as [|x a IH]; [reflexivity|].
  change (String x ((a +:+ b) +:+ c) = String x (a +:+ (b +:+ c))).
  now f_equal.
Qed.

(** X23: when a global callback returns, it returns the value that the
    globals hold under the name, and it has recorded no constraint; at the
    level [ERROR] the context is untouched and the value is a module for
    [_minimal_global_callback], one of the eight supported objects for
    [_lit_global_callback]. *)
Theorem global_callbacks_return_the_global globals_dict name ctx value ctx' :
  (_minimal_global_callback globals_dict name ctx = Found (Ok (value, ctx')) ->
   globals_dict !! name = Some value
   /\ _constraints ctx' = _constraints ctx
   /\ (sharp_edges ctx = ERROR -> is_module value = true /\ ctx' = ctx))
  /\ (_lit_global_callback globals_dict name ctx = Found (Ok (value, ctx')) ->
      globals_dict !! name = Some value
      /\ _constraints ctx' = _constraints ctx
      /\ (sharp_edges ctx = ERROR ->
          is_supported_global value = true /\ ctx' = ctx)).
Proof.
  unfold _minimal_global_callback, _lit_global_callback.
  destruct (globals_dict !! name) as [v|]; [|split; discriminate].
  split; intros H.
  - destruct (is_module v) eqn:Ev; simpl in H.
    + injection H as <- <-. repeat split; try reflexivity; exact Ev.
    + destruct (_sharp_edge _ ctx) as [c|e] eqn:E; [|discriminate].
      injection H as <- <-.
      destruct (sharp_edge_returns _ _ _ (or_introl E)) as (Hne & Hc & _).
      split; [reflexivity|]. split; [exact Hc|]. intros He. contradiction.
  - destruct (is_supported_global v) eqn:Ev.
    + injection H as <- <-. repeat split; try reflexivity; exact Ev.
    + destruct (_meso_sharp_edge _ ctx) as [c|e] eqn:E; [|discriminate].
      injection H as <- <-.
      destruct (sharp_edge_returns _ _ _ (or_intror E)) as (Hne & Hc & _).
      split; [reflexivity|]. split; [exact Hc|]. intros He. contradiction.
Qed.

(** X24: a name that the globals do not hold is a [KeyError] of both
    callbacks, whatever the sharp-edge level: the lookup comes before the
    test.  At the level [ERROR], [_minimal_global_callback] raises for
    every value that is not a module, and [_lit_global_callback] for every
    value that is not one of the eight supported objects, other modules
    included; the message of the latter names the global. *)
Theorem global_callbacks_reject globals_dict name ctx :
  (globals_dict !! name = None ->
     _minimal_global_callback globals_dict name ctx = KeyError name
     /\ _lit_global_callback globals_dict name ctx = KeyError name)
  /\ (forall value,
        globals_dict !! name = Some value -> sharp_edges ctx = ERROR ->
        (is_module value = false ->
           exists msg, _minimal_global_callback globals_dict name ctx
                       = Found (Raise (AssertionError msg)))
        /\ (is_supported_global value = false ->
           exists rest, _lit_global_callback globals_dict name ctx
                        = Found (Raise (AssertionError
                             ("Tried to loading global " +:+ name +:+ rest))))).
Proof.
  unfold _minimal_global_callback, _lit_global_callback. split.
  - intros ->. split; reflexivity.
  - intros value -> He. split; intros ->; simpl.
    + unfold _sharp_edge. rewrite He. eauto.
    + unfold _meso_sharp_edge. rewrite He. eexists.
      now rewrite !string_app_assoc.
Qed.

End GlobalCallbackFacts.

Section GlobalCallbackExamples.
Import JitExt GlobalCallbacks GlobalExamples.

Lemma global_callbacks_return_the_global_witness :
  (some_globals !! "torch" = Some torch
   /\ _constraints (MesoCtx_new ERROR) = _constraints (MesoCtx_new ERROR)
   /\ (sharp_edges (MesoCtx_new ERROR) = ERROR ->
       is_module torch = true /\ MesoCtx_new ERROR = MesoCtx_new ERROR))
  /\ (some_globals !! "x" = Some (other_object "x")
      /\ _constraints
           (warn (MesoCtx_new WARN)
              ("Tried to loading global x. Global support is limited."
               +:+ _meso_sharp_edge_suffix))
         = _constraints (MesoCtx_new WARN)
      /\ (sharp_edges (MesoCtx_new WARN) = ERROR ->
          is_supported_global (other_object "x") = true
          /\ warn (MesoCtx_new WARN)
               ("Tried to loading global x. Global support is limited."
                +:+ _meso_sharp_edge_suffix)
             = MesoCtx_new WARN)).
Proof.
  split.
  - apply (proj1 (global_callbacks_return_the_global some_globals
                    "torch" (MesoCtx_new ERROR) torch (MesoCtx_new ERROR))).
    vm_compute. reflexivity.
  - apply (proj2 (global_callbacks_return_the_global some_globals
                    "x" (MesoCtx_new WARN) (other_object "x") _)).
    vm_compute. reflexivity.
Defined.

Lemma global_callbacks_reject_witness :
  (exists msg, _minimal_global_callback some_globals "x" (MesoCtx_new ERROR)
               = Found (Raise (AssertionError msg)))
  /\ (exists rest, _lit_global_callback some_globals "math" (MesoCtx_new ERROR)
                   = Found (Raise (AssertionError
                        ("Tried to loading global " +:+ "math" +:+ rest))))
  /\ _lit_global_callback some_globals "y" (MesoCtx_new ERROR) = KeyError "y".
Proof.
  split; [|split].
  - apply (proj1 (proj2 (global_callbacks_reject some_globals "x"
                           (MesoCtx_new ERROR))
                    (other_object "x") eq_refl eq_refl)).
    reflexivity.
  - apply (proj2 (proj2 (global_callbacks_reject some_globals "math"
                           (MesoCtx_new ERROR))
                    (other_module "math") eq_refl eq_refl)).
    reflexivity.
  - apply (proj1 (global_callbacks_reject some_globals "y"
                    (MesoCtx_new ERROR))).
    reflexivity.
Defined.

End GlobalCallbackExamples.

(** ** More on the wrap callback and the lookasides *)

Section CollectFacts.
Import JitExt JitExtSpec.

(** X11: [collect_provenance_inst] returns exactly the tags of the record
    and of the records reached through inputs; in particular the tag of
    the record itself is in the set, and so is every tag collected from an
    input. *)
Theorem collect_provenance_inst_closure (pr : ProvenanceRecord) :
  (forall t, t ∈ collect_provenance_inst pr <-> tag_of_closure t pr)
  /\ inst_name (inst pr) ∈ collect_provenance_inst pr
  /\ (forall x, In x (inputs pr) ->
        collect_provenance_inst x ⊆ collect_provenance_inst pr).
Proof.
  split; [|split].
  - intros t. apply collect_provenance_inst_spec.
  - apply collect_provenance_inst_spec. now apply tag_here.
  - intros x Hx t Ht. apply collect_provenance_inst_spec.
    apply tag_below with x; [exact Hx|].
    now apply collect_provenance_inst_spec.
Qed.

End CollectFacts.

Section WrapCallbackMoreFacts.
Import JitExt JitExtSpec.

Variable make_proxy_name : nat -> string.

Lemma _meso_sharp_edge_Ok desc ctx ctx' :
  _meso_sharp_edge desc ctx = Ok ctx' ->
  _constraints ctx' = _constraints ctx
  /\ sharp_edges ctx' = sharp_edges ctx
  /\ next_id ctx' = next_id ctx.
Proof.
  unfold _meso_sharp_edge. destruct (sharp_edges ctx) eqn:E;
    intros [= <-]; simpl; auto.
Qed.

Lemma _meso_sharp_edge_Raise desc ctx e :
  _meso_sharp_edge desc ctx = Raise e ->
  sharp_edges ctx = ERROR /\ exists msg, e = AssertionError msg.
Proof.
  unfold _meso_sharp_edge. destruct (sharp_edges ctx) eqn:E;
    intros [= <-]; eauto.
Qed.

Lemma proxify_number_or_tensor ctx o h :
  is_number_or_str o = true \/ is_tensor (Obj o) = true ->
  exists p, proxify make_proxy_name ctx (Obj o) None h
            = Ok (Proxied p, bump_id ctx)
            /\ history p = Some h.
Proof.
  intros H. destruct o; simpl in H; try (destruct H; discriminate);
    eexists; split; reflexivity.
Qed.

(** X12: whenever the wrap callback returns, the wrapped value keeps its
    concrete value and its provenance, a proxy already bound stays bound,
    the constraints recorded before are still there, in order, followed by
    at most one new constraint, and the sharp-edge level is the same. *)
Theorem wrap_callback_only_adds ctx value ctx' value' :
  _lit_wrap_callback make_proxy_name ctx value = Ok (ctx', value') ->
  concrete_value value' = concrete_value value
  /\ provenance value' = provenance value
  /\ (forall p, bound_proxy value = Some p -> value' = value)
  /\ (exists new, _constraints ctx' = _constraints ctx ++ new
                  /\ (length new <= 1)%nat)
  /\ sharp_edges ctx' = sharp_edges ctx.
Proof.
  unfold _lit_wrap_callback.
  assert (Hreg : forall p, concrete_value (register_proxy value p)
                           = concrete_value value
                           /\ provenance (register_proxy value p)
                              = provenance value
                           /\ (forall q, bound_proxy value = Some q ->
                                 register_proxy value p = value)).
  { intros p. unfold register_proxy.
    destruct (bound_proxy value); simpl; repeat split; auto; discriminate. }
  assert (Hsame : forall c : MesoCtx,
            _constraints c = _constraints ctx -> sharp_edges c = sharp_edges ctx ->
            (exists new, _constraints c = _constraints ctx ++ new
                         /\ (length new <= 1)%nat)
            /\ sharp_edges c = sharp_edges ctx).
  { intros c Hc Hs. split; [|exact Hs]. exists []. rewrite app_nil_r. auto. }
  destruct (wv_value value) as [o|q| |i] eqn:Hv.
  - (* a Python object *)
    destruct (is_tensor (Obj o)) eqn:Ht.
    + destruct (proxify_number_or_tensor ctx o (provenance value)
                  (or_intror Ht)) as (p & Hp & _).
      rewrite Hp. intros [= <- <-]. destruct (Hreg p) as (H1 & H2 & H3).
      repeat split; auto. exists [(check_tensor_shape_and_metadata,
                                   [proxified_arg (Proxied p) (Obj o)])].
      split; [reflexivity | simpl; lia].
    + destruct (inst_is (inst (provenance value)) CONSTANT);
        [intros [= <- <-]; repeat split; auto; now apply Hsame|].
      destruct (callable (Obj o));
        [intros [= <- <-]; repeat split; auto; now apply Hsame|].
      destruct (is_basic_container (Obj o));
        [intros [= <- <-]; repeat split; auto; now apply Hsame|].
      destruct (is_plain_number_or_str (Obj o)) eqn:Hn.
      * destruct (bool_decide _).
        -- destruct (proxify_number_or_tensor ctx o (provenance value)
                       (or_introl Hn)) as (p & Hp & Hh).
           rewrite Hp. simpl proxified_history. rewrite Hh.
           destruct (Hreg p) as (H1 & H2 & H3).
           destruct (is_str (Obj o)); intros [= <- <-];
             repeat split; auto; eexists; (split; [reflexivity | simpl; lia]).
        -- destruct (_meso_sharp_edge _ ctx) as [c|e] eqn:E; [|discriminate].
           intros [= <- <-]. apply _meso_sharp_edge_Ok in E as (Hc & Hs & _).
           repeat split; auto; now apply Hsame.
      * destruct (_meso_sharp_edge _ ctx) as [c|e] eqn:E; [|discriminate].
        intros [= <- <-]. apply _meso_sharp_edge_Ok in E as (Hc & Hs & _).
        repeat split; auto; now apply Hsame.
  - (* a proxy *)
    simpl. destruct (inst_is (inst (provenance value)) CONSTANT);
      [intros [= <- <-]; repeat split; auto; now apply Hsame|].
    destruct (_meso_sharp_edge _ ctx) as [c|e] eqn:E; [|discriminate].
    intros [= <- <-]. apply _meso_sharp_edge_Ok in E as (Hc & Hs & _).
    repeat split; auto; now apply Hsame.
  - simpl. destruct (inst_is (inst (provenance value)) CONSTANT);
      [intros [= <- <-]; repeat split; auto; now apply Hsame|].
    destruct (_meso_sharp_edge _ ctx) as [c|e] eqn:E; [|discriminate].
    intros [= <- <-]. apply _meso_sharp_edge_Ok in E as (Hc & Hs & _).
    repeat split; auto; now apply Hsame.
  - simpl. destruct (inst_is (inst (provenance value)) CONSTANT);
      [intros [= <- <-]; repeat split; auto; now apply Hsame|].
    destruct (_meso_sharp_edge _ ctx) as [c|e] eqn:E; [|discriminate].
    intros [= <- <-]. apply _meso_sharp_edge_Ok in E as (Hc & Hs & _).
    repeat split; auto; now apply Hsame.
Qed.

(** X13: the wrap callback raises under the level [ERROR] only, and what
    it raises is the [AssertionError] of a sharp edge; under [WARN] and
    [ALLOW] it returns for every wrapped value. *)
Theorem wrap_callback_raises_only_under_ERROR ctx value :
  (forall e, _lit_wrap_callback make_proxy_name ctx value = Raise e ->
     sharp_edges ctx = ERROR /\ exists msg, e = AssertionError msg)
  /\ (sharp_edges ctx <> ERROR ->
      exists r, _lit_wrap_callback make_proxy_name ctx value = Ok r).
Proof.
  assert (H : forall e, _lit_wrap_callback make_proxy_name ctx value = Raise e ->
                sharp_edges ctx = ERROR /\ exists msg, e = AssertionError msg).
  { intros e. unfold _lit_wrap_callback.
    destruct (wv_value value) as [o|q| |i] eqn:Hv.
    - destruct (is_tensor (Obj o)) eqn:Ht.
      + destruct (proxify_number_or_tensor ctx o (provenance value)
                    (or_intror Ht)) as (p & Hp & _).
        rewrite Hp. discriminate.
      + destruct (inst_is (inst (provenance value)) CONSTANT); [discriminate|].
        destruct (callable (Obj o)); [discriminate|].
        destruct (is_basic_container (Obj o)); [discriminate|].
        destruct (is_plain_number_or_str (Obj o)) eqn:Hn.
        * destruct (bool_decide _).
          -- destruct (proxify_number_or_tensor ctx o (provenance value)
                         (or_introl Hn)) as (p & Hp & Hh).
             rewrite Hp. simpl proxified_history. rewrite Hh.
             destruct (is_str (Obj o)); discriminate.
          -- destruct (_meso_sharp_edge _ ctx) as [c|e'] eqn:E; [discriminate|].
             intros [= <-]. eapply _meso_sharp_edge_Raise, E.
        * destruct (_meso_sharp_edge _ ctx) as [c|e'] eqn:E; [discriminate|].
          intros [= <-]. eapply _meso_sharp_edge_Raise, E.
    - simpl. destruct (inst_is (inst (provenance value)) CONSTANT);
        [discriminate|].
      destruct (_meso_sharp_edge _ ctx) as [c|e'] eqn:E; [discriminate|].
      intros [= <-]. eapply _meso_sharp_edge_Raise, E.
    - simpl. destruct (inst_is (inst (provenance value)) CONSTANT);
        [discriminate|].
      destruct (_meso_sharp_edge _ ctx) as [c|e'] eqn:E; [discriminate|].
      intros [= <-]. eapply _meso_sharp_edge_Raise, E.
    - simpl. destruct (inst_is (inst (provenance value)) CONSTANT);
        [discriminate|].
      destruct (_meso_sharp_edge _ ctx) as [c|e'] eqn:E; [discriminate|].
      intros [= <-]. eapply _meso_sharp_edge_Raise, E. }
  split; [exact H|].
  intros Hne. destruct (_lit_wrap_callback make_proxy_name ctx value) as [r|e].
  - eauto.
  - destruct (H e eq_refl) as [He _]. contradiction.
Qed.

End WrapCallbackMoreFacts.

Section WrapCallbackMoreExamples.
Import JitExt JitExtSpec JitExtExamples.

Lemma wrap_callback_only_adds_witness :
  exists ctx' value',
    _lit_wrap_callback mk_name (MesoCtx_new WARN) int_computed
    = Ok (ctx', value')
    /\ concrete_value value' = concrete_value int_computed
    /\ provenance value' = provenance int_computed
    /\ (forall p, bound_proxy int_computed = Some p -> value' = int_computed)
    /\ (exists new, _constraints ctx' = _constraints (MesoCtx_new WARN) ++ new
                    /\ (length new <= 1)%nat)
    /\ sharp_edges ctx' = sharp_edges (MesoCtx_new WARN).
Proof.
  destruct (_lit_wrap_callback mk_name (MesoCtx_new WARN) int_computed)
    as [[ctx' value']|e] eqn:E.
  - exists ctx', value'. split; [reflexivity|].
    exact (wrap_callback_only_adds mk_name _ _ _ _ E).
  - vm_compute in E. discriminate E.
Defined.

Lemma wrap_callback_raises_only_under_ERROR_witness :
  exists r, _lit_wrap_callback mk_name (MesoCtx_new WARN) int_computed = Ok r.
Proof.
  apply (proj2 (wrap_callback_raises_only_under_ERROR mk_name
                  (MesoCtx_new WARN) int_computed)).
  discriminate.
Defined.

End WrapCallbackMoreExamples.

Section LookasideMoreFacts.
Import JitExt JitExtSpec JitExtMore.

Variable _torch_to_thunder_function_map : list (PyCallable * PyCallable).
Variable dir_NumberProxy dir_TensorProxy : list Member.
Variable is_symbol_or_clang_fn : PyCallable -> bool.
Variable default_lookaside : PyCallable -> option PyCallable.
Variable is_opaque : PyCallable -> bool.
Variable extract_callable_name : PyCallable -> string.

(** X14: the entry of [_lit_lookaside_map] for a key is its last binding
    among the written-out entries, else among the entries for the members
    of [TensorProxy], else among those for the members of [NumberProxy],
    else the entry for [bool], [hasattr] or [getattr], else its last
    binding in the translation table of the torch functions. *)
Theorem _lit_lookaside_map_precedence (k : PyCallable) :
  fn_dict_get (_lit_lookaside_map _torch_to_thunder_function_map
                 dir_NumberProxy dir_TensorProxy) k
  = or_else (last_binding explicit_lookasides k)
      (or_else (last_binding
                  (wrapped (get_methods_properties dir_TensorProxy)) k)
         (or_else (last_binding
                     (wrapped (get_methods_properties dir_NumberProxy)) k)
            (if decide (k = builtin_function "bool")
             then Some _lit_bool_lookaside
             else if decide (k = builtin_function "hasattr")
             then Some _lit_hasattr_lookaside
             else if decide (k = builtin_function "getattr")
             then Some _lit_getattr_lookaside
             else last_binding (wrapped _torch_to_thunder_function_map) k))).
Proof.
  unfold _lit_lookaside_map, last_binding, or_else, wrapped, explicit_lookasides.
  rewrite fn_dict_get_update.
  rewrite fn_dict_get_rev by (apply fn_dict_update_NoDup; constructor).
  rewrite fn_dict_get_update, !rev_app_distr, !fn_dict_get_app.
  rewrite !fn_dict_get_set, fn_dict_get_update. simpl (fn_dict_get [] k).
  destruct (fn_dict_get (rev [_; _; _; _; _; _; _; _; _; _; _]) k);
    [reflexivity|].
  destruct (fn_dict_get (rev (map _ (get_methods_properties dir_TensorProxy))) k);
    [reflexivity|].
  destruct (fn_dict_get (rev (map _ (get_methods_properties dir_NumberProxy))) k);
    [reflexivity|].
  repeat (destruct (decide _); [reflexivity|]).
  now destruct (fn_dict_get _ k).
Qed.

(** X15: [lit_lookaside] raises only for a function that has no lookaside,
    is opaque and is not in [_safe_functions], under the level [ERROR];
    for a function of [_safe_functions], and for a function that is not
    opaque, it returns and leaves the context as it was. *)
Theorem lit_lookaside_sharp_edge fn ctx :
  (forall e,
     lit_lookaside _torch_to_thunder_function_map dir_NumberProxy
       dir_TensorProxy is_symbol_or_clang_fn default_lookaside is_opaque
       extract_callable_name fn ctx = Raise e ->
     sharp_edges ctx = ERROR /\ is_opaque fn = true /\ (fn ∉ _safe_functions)
     /\ is_symbol_or_clang_fn fn = false
     /\ fn_dict_get (_lit_lookaside_map _torch_to_thunder_function_map
                       dir_NumberProxy dir_TensorProxy) fn = None
     /\ default_lookaside fn = None)
  /\ ((fn ∈ _safe_functions) \/ is_opaque fn = false ->
      exists lookaside,
        lit_lookaside _torch_to_thunder_function_map dir_NumberProxy
          dir_TensorProxy is_symbol_or_clang_fn default_lookaside is_opaque
          extract_callable_name fn ctx = Ok (lookaside, ctx)).
Proof.
  unfold lit_lookaside. split.
  - intros e.
    destruct (is_symbol_or_clang_fn fn); [discriminate|].
    destruct (fn_dict_get _ fn); [discriminate|].
    destruct (default_lookaside fn); [discriminate|].
    destruct (is_opaque fn); [|discriminate]. simpl.
    destruct (bool_decide (fn ∈ _safe_functions)) eqn:Es; [discriminate|].
    apply bool_decide_eq_false in Es. simpl.
    destruct (_meso_sharp_edge _ ctx) as [c|e'] eqn:E; [discriminate|].
    intros _. unfold _meso_sharp_edge in E.
    destruct (sharp_edges ctx); try discriminate. repeat split; auto.
  - intros H.
    destruct (is_symbol_or_clang_fn fn); [eauto|].
    destruct (fn_dict_get _ fn); [eauto|].
    destruct (default_lookaside fn); [eauto|].
    destruct H as [H| ->].
    + rewrite (bool_decide_eq_true_2 _ H), andb_false_r. eauto.
    + simpl. eauto.
Qed.

End LookasideMoreFacts.

Lemma lit_lookaside_sharp_edge_witness :
  exists lookaside,
    JitExt.lit_lookaside [] [] [] (fun _ => false) (fun _ => None)
      (fun _ => true) (fun _ => "isinstance")
      (JitExt.builtin_function "isinstance") (JitExt.MesoCtx_new JitExt.ERROR)
    = Ok (lookaside, JitExt.MesoCtx_new JitExt.ERROR).
Proof.
  apply (proj2 (lit_lookaside_sharp_edge [] [] [] (fun _ => false)
                  (fun _ => None) (fun _ => true) (fun _ => "isinstance")
                  (JitExt.builtin_function "isinstance")
                  (JitExt.MesoCtx_new JitExt.ERROR))).
  left. apply (bool_decide_unpack _). vm_compute. exact I.
Defined.

(** ** More on the prologue synthesis *)

Section KeptFacts.
Import JitExt JitExtSpec JitExtMore.

Variable proxy_index : Proxy -> option PyObj.

(** A property of the state that the four elementary steps keep is kept by
    the whole synthesis. *)
Variable P : UnpackState -> Prop.
Hypothesis P_append : forall b, kept P (append_bsym b).
Hypothesis P_set : forall r v, kept P (set_record_proxy r v).
Hypothesis P_register : forall n, kept P (register_name n).
Hypothesis P_mark : forall p, kept P (mark_unpacked p).

Lemma kept_ret {A} (a : A) : kept P (ret a).
Proof. intros s a' s' HP [= _ <-]. exact HP. Qed.

Lemma kept_raise {A} e : kept P (@raise A e).
Proof. intros s a s' _ [=]. Qed.

Lemma kept_bind {A B} (m : M A) (k : A -> M B) :
  kept P m -> (forall a, kept P (k a)) -> kept P (bind m k).
Proof.
  intros Hm Hk s b s' HP H. apply bind_Ok in H as (a & s1 & H1 & H2).
  eapply Hk; [|exact H2]. eapply Hm; eauto.
Qed.

Lemma kept_mapM {A B} (f : A -> M B) l :
  (forall x, kept P (f x)) -> kept P (mapM f l).
Proof.
  intros Hf. induction l as [|x l IH]; simpl.
  - apply kept_ret.
  - apply kept_bind; [apply Hf|]. intros y.
    apply kept_bind; [apply IH|]. intros ys. apply kept_ret.
Qed.

Lemma kept_get_record_proxy r : kept P (get_record_proxy r).
Proof. intros s a s' HP [= _ <-]. exact HP. Qed.

Lemma kept_is_already_unpacked p : kept P (is_already_unpacked p).
Proof. intros s a s' HP [= _ <-]. exact HP. Qed.

Create HintDb kept.

#[local] Hint Resolve kept_ret kept_raise kept_bind kept_mapM
  kept_get_record_proxy kept_is_already_unpacked P_append P_set P_register
  P_mark : kept.

Lemma kept_unpack_fn p rec f r new_output :
  (forall r' b, kept P (rec r' b)) ->
  kept P (unpack_fn proxy_index p rec f r new_output).
Proof.
  intros Hrec. destruct f; simpl.
  - unfold from_input. apply kept_bind.
    + destruct new_output; [|auto with kept].
      apply kept_bind; [|intros; auto with kept].
      repeat match goal with
             | |- kept P (if ?c then _ else _) => destruct c
             end; auto with kept.
    + intros output. auto with kept.
  - unfold from_load_attr. apply kept_bind; [auto with kept|].
    intros [|i0 [|i1 l]]; auto with kept.
  - unfold from_constant.
    destruct (is_int_or_str (value r)); auto with kept.
  - unfold from_binary_subscr. apply kept_bind; [auto with kept|].
    intros [|obj [|idx [|x l]]]; auto with kept.
    destruct (subscr_index proxy_index idx); auto with kept.
  - unfold from_opaque.
    destruct (inputs r) as [|fn [|args l]]; auto with kept.
    destruct (negb (inst_is (inst fn) CONSTANT)); auto with kept.
    destruct (py_name (value fn)) as [n|]; auto with kept.
    destruct (String.eqb n "__getitem__").
    + destruct (inputs args) as [|idx [|obj [|x l']]]; auto with kept.
    + destruct (value fn); auto with kept.
      destruct (inputs args) as [|a0 [|a1 [|a2 [|x l']]]]; auto with kept.
      destruct (inst_is (inst a2) CONSTANT); auto with kept.
      destruct (value a2); auto with kept.
Qed.

Lemma kept_from_provenance fuel p r new_output :
  kept P (from_provenance proxy_index fuel p r new_output).
Proof.
  revert r new_output. induction fuel as [|fuel IH]; intros r new_output.
  - apply kept_raise.
  - rewrite from_provenance_S. apply kept_bind; [auto with kept|].
    intros [v|]; [auto with kept|].
    destruct (dict_get d (inst_name (inst r))) as [f|]; [|auto with kept].
    apply kept_bind; [|intros; auto with kept].
    apply kept_unpack_fn. exact IH.
Qed.

Lemma kept_unpack p : kept P (unpack proxy_index p).
Proof.
  unfold unpack. destruct (history p) as [h|]; [|auto with kept].
  apply kept_bind; [auto with kept|]. intros [|]; [auto with kept|].
  apply kept_bind; [auto with kept|]. intros _.
  apply kept_bind; [apply kept_from_provenance|]. intros _.
  apply kept_bind; [auto with kept|]. intros _.
  apply kept_bind; [|auto with kept].
  destruct (is_TensorProxy p); auto with kept.
Qed.

Lemma kept_replay_constraint c : kept P (replay_constraint proxy_index c).
Proof.
  unfold replay_constraint. apply kept_bind; [|auto with kept].
  apply kept_mapM. intros [q|o|l]; auto with kept.
  apply kept_bind; [apply kept_unpack | auto with kept].
Qed.

Lemma kept_unpack_inputs_body ctx inputs :
  kept P (unpack_inputs_body proxy_index ctx inputs).
Proof.
  unfold unpack_inputs_body.
  apply kept_bind; [apply kept_mapM, kept_unpack|]. intros outs.
  apply kept_bind; [apply kept_mapM, kept_replay_constraint|]. intros _.
  auto with kept.
Qed.

End KeptFacts.

Section PrologueMoreFacts.
Import JitExt JitExtSpec JitExtMore.

Variable proxy_index : Proxy -> option PyObj.

(** X16: once [from_provenance] has returned for a record, the record
    carries the value returned as its attribute [proxy], and every later
    [from_provenance] on the record returns that value at once: the state
    stays as it is, so no symbol is bound a second time. *)
Theorem from_provenance_memoizes fuel p r new_output s v s' i :
  rid r = Some i ->
  from_provenance proxy_index fuel p r new_output s = Ok (v, s') ->
  record_proxy s' !! i = Some v
  /\ forall fuel' p' new_output',
       from_provenance proxy_index (S fuel') p' r new_output' s' = Ok (v, s').
Proof.
  intros Hi H.
  assert (Hstored : record_proxy s' !! i = Some v).
  { destruct fuel as [|fuel]; [discriminate|].
    rewrite from_provenance_S in H.
    apply bind_Ok in H as (cached & s0 & Hget & H).
    unfold get_record_proxy in Hget. rewrite Hi in Hget.
    injection Hget as <- <-.
    destruct (record_proxy s !! i) as [v0|] eqn:E.
    - injection H as <- <-. exact E.
    - destruct (dict_get d (inst_name (inst r))) as [f|]; [|discriminate].
      apply bind_Ok in H as (res & s1 & _ & H).
      apply bind_Ok in H as ([] & s2 & Hset & H).
      injection H as <- <-. unfold set_record_proxy in Hset.
      rewrite Hi in Hset. injection Hset as <-. simpl.
      apply lookup_insert_eq. }
  split; [exact Hstored|].
  intros fuel' p' no'. rewrite from_provenance_S. unfold bind, get_record_proxy.
  now rewrite Hi, Hstored.
Qed.

(** A proxy that [unpack] has returned for is marked as unpacked. *)
Lemma unpack_marks p s q s' i :
  pid p = Some i ->
  unpack proxy_index p s = Ok (q, s') -> i ∈ already_unpacked s'.
Proof.
  intros Hi H. unfold unpack in H.
  destruct (history p) as [h|]; [|discriminate].
  apply bind_Ok in H as (seen & s0 & Hseen & H).
  unfold is_already_unpacked in Hseen. rewrite Hi in Hseen.
  injection Hseen as <- <-.
  destruct (bool_decide (i ∈ already_unpacked s)) eqn:E.
  - injection H as _ <-. now apply bool_decide_eq_true in E.
  - apply bind_Ok in H as ([] & s2 & Hreg & H).
    apply bind_Ok in H as (v & s3 & Hfrom & H).
    apply bind_Ok in H as ([] & s4 & Hmark & H).
    apply bind_Ok in H as ([] & s5 & Hguard & H).
    injection H as _ <-.
    unfold mark_unpacked in Hmark. rewrite Hi in Hmark.
    injection Hmark as <-.
    destruct (is_TensorProxy p); injection Hguard as <-; simpl;
      apply elem_of_union; left; now apply elem_of_singleton.
Qed.

(** [unpack] of a proxy that is marked returns at once. *)
Lemma unpack_marked p s i :
  pid p = Some i -> i ∈ already_unpacked s ->
  unpack proxy_index p s
  = match history p with
    | Some _ => Ok (p, s)
    | None => Raise (AssertionError "p.history is None")
    end.
Proof.
  intros Hi Hin. unfold unpack. destruct (history p) as [h|]; [|reflexivity].
  unfold bind, is_already_unpacked. rewrite Hi.
  now rewrite (bool_decide_eq_true_2 _ Hin).
Qed.

(** X17: a second [unpack] of a proxy returns it and leaves the state as
    it is: nothing is bound twice for one proxy. *)
Theorem unpack_twice p s q s' i :
  pid p = Some i ->
  unpack proxy_index p s = Ok (q, s') ->
  unpack proxy_index p s' = Ok (p, s').
Proof.
  intros Hi H. rewrite (unpack_marked p s' i Hi (unpack_marks _ _ _ _ _ Hi H)).
  unfold unpack in H. now destruct (history p).
Qed.

(** X18: [unpack] raises [NotImplementedError] for a proxy, not unpacked
    before, whose history is a record whose tag has no entry in the
    dispatch table, and for one whose history is a [CONSTANT] record that
    holds neither an [int] nor a [str]; the records not having been
    unpacked either. *)
Theorem unpack_unsupported_history p h s :
  history p = Some h ->
  (forall i, pid p = Some i -> i ∉ already_unpacked s) ->
  uncached h s ->
  (dict_get d (inst_name (inst h)) = None ->
     unpack proxy_index p s
     = Raise (NotImplementedError ("Unpacking from " +:+ inst_name (inst h))))
  /\ (inst_name (inst h) = "CONSTANT" -> is_int_or_str (value h) = false ->
     unpack proxy_index p s = Raise (NotImplementedError "constant of type")).
Proof.
  intros Hh Hfresh Hu.
  assert (Hseen : is_already_unpacked p s = Ok (false, s)).
  { unfold is_already_unpacked. destruct (pid p) as [i|]; [|reflexivity].
    now rewrite (bool_decide_eq_false_2 _ (Hfresh i eq_refl)). }
  assert (Hu' : forall t, uncached h
                  {| prologue_trace := t; already_unpacked := already_unpacked s;
                     record_proxy := record_proxy s |})
    by (intros t; exact Hu).
  assert (Hsz : exists k, pr_size h = S k) by (destruct h; simpl; eauto).
  destruct Hsz as [k Hk].
  split.
  - intros Hd. unfold unpack. rewrite Hh. unfold bind at 1. rewrite Hseen.
    unfold bind at 1. unfold register_name. unfold bind at 1.
    rewrite Hk, from_provenance_S. unfold bind at 1.
    rewrite (get_record_proxy_uncached _ _ (Hu' _)), Hd. reflexivity.
  - intros Hc Hv. unfold unpack. rewrite Hh. unfold bind at 1. rewrite Hseen.
    unfold bind at 1. unfold register_name. unfold bind at 1.
    rewrite Hk, from_provenance_S. unfold bind at 1.
    rewrite (get_record_proxy_uncached _ _ (Hu' _)), Hc. simpl.
    unfold bind, from_constant. now rewrite Hv.
Qed.

(** The names of the prologue trace only grow, and [already_unpacked]
    too. *)
Lemma keeps_name_steps n :
  (forall b, kept (fun s => n ∈ names (prologue_trace s)) (append_bsym b))
  /\ (forall r v, kept (fun s => n ∈ names (prologue_trace s))
                       (set_record_proxy r v))
  /\ (forall m, kept (fun s => n ∈ names (prologue_trace s)) (register_name m))
  /\ (forall p, kept (fun s => n ∈ names (prologue_trace s)) (mark_unpacked p)).
Proof.
  repeat split.
  - intros b s [] s' HP [= <-]. exact HP.
  - intros r v s [] s' HP [= <-]. exact HP.
  - intros m s [] s' HP [= <-]. simpl.
    destruct (has_name (prologue_trace s) m); [exact HP|].
    simpl. apply elem_of_union. now right.
  - intros p s [] s' HP [= <-]. exact HP.
Qed.

Lemma keeps_mark_steps i :
  (forall b, kept (fun s => i ∈ already_unpacked s) (append_bsym b))
  /\ (forall r v, kept (fun s => i ∈ already_unpacked s) (set_record_proxy r v))
  /\ (forall m, kept (fun s => i ∈ already_unpacked s) (register_name m))
  /\ (forall p, kept (fun s => i ∈ already_unpacked s) (mark_unpacked p)).
Proof.
  repeat split.
  - intros b s [] s' HP [= <-]. exact HP.
  - intros r v s [] s' HP [= <-]. exact HP.
  - intros m s [] s' HP [= <-]. exact HP.
  - intros p s [] s' HP [= <-]. simpl. destruct (pid p); [|exact HP].
    apply elem_of_union. now right.
Qed.

(** The first [unpack] of a proxy registers its name. *)
Lemma unpack_registers_name p s q s' :
  (forall i, pid p = Some i -> i ∉ already_unpacked s) ->
  unpack proxy_index p s = Ok (q, s') ->
  name p ∈ names (prologue_trace s').
Proof.
  intros Hfresh H. unfold unpack in H.
  destruct (history p) as [h|]; [|discriminate].
  apply bind_Ok in H as (seen & s0 & Hseen & H).
  unfold is_already_unpacked in Hseen. injection Hseen as <- <-.
  assert (Hs : match pid p with
               | Some i => bool_decide (i ∈ already_unpacked s)
               | None => false
               end = false).
  { destruct (pid p) as [i|]; [|reflexivity].
    apply bool_decide_eq_false. now apply Hfresh. }
  rewrite Hs in H.
  apply bind_Ok in H as ([] & s2 & Hreg & H).
  destruct (keeps_name_steps (name p)) as (Ha & Hset & Hr & Hm).
  assert (H2 : name p ∈ names (prologue_trace s2)).
  { injection Hreg as <-. simpl.
    destruct (has_name (prologue_trace s) (name p)) eqn:E.
    - now apply bool_decide_eq_true in E.
    - simpl. apply elem_of_union. left. now apply elem_of_singleton. }
  refine (kept_bind (fun s => name p ∈ names (prologue_trace s))
                    _ _ _ _ _ _ _ H2 H).
  - apply kept_from_provenance; auto.
  - intros _. apply kept_bind; [apply Hm|]. intros _.
    apply kept_bind; [|intros; apply kept_ret].
    destruct (is_TensorProxy p); [apply Ha | apply kept_ret].
Qed.

Lemma mapM_unpack_registers inputs : forall s outs s',
  NoDup (map pid inputs) ->
  (forall p i, In p inputs -> pid p = Some i -> i ∉ already_unpacked s) ->
  mapM (unpack proxy_index) inputs s = Ok (outs, s') ->
  forall p, In p inputs -> name p ∈ names (prologue_trace s').
Proof.
  induction inputs as [|p0 l IH]; intros s outs s' Hnd Hfresh H p Hp;
    [contradiction|].
  simpl in H. apply bind_Ok in H as (q & s1 & Hq & H).
  apply bind_Ok in H as (qs & s2 & Hqs & H). injection H as _ <-.
  simpl in Hnd. apply NoDup_cons in Hnd as [Hp0 Hnd].
  assert (Hf0 : forall i, pid p0 = Some i -> i ∉ already_unpacked s)
    by (intros i Hi; apply (Hfresh p0 i); [now left | exact Hi]).
  destruct Hp as [<-|Hp].
  - destruct (keeps_name_steps (name p0)) as (Ha & Hset & Hr & Hm).
    refine (kept_mapM (fun s => name p0 ∈ names (prologue_trace s)) _ _
                      (kept_unpack proxy_index _ Ha Hset Hr Hm) _ _ _ _ Hqs).
    eapply unpack_registers_name; eauto.
  - eapply (IH s1 qs s2 Hnd); eauto.
    intros p' i Hp' Hi.
    destruct (unpack_first_time proxy_index p0 s q s1 Hf0 Hq) as (_ & Ha).
    rewrite Ha. destruct (pid p0) as [j|] eqn:Ej.
    + rewrite elem_of_union, elem_of_singleton. intros [->|Hin].
      * apply Hp0. rewrite <- Hi. apply list_elem_of_In, in_map, Hp'.
      * revert Hin. apply (Hfresh p' i); [now right | exact Hi].
    + apply (Hfresh p' i); [now right | exact Hi].
Qed.

(** X19: the names of the inputs are names of the prologue trace that
    [unpack_inputs] returns, and the names the trace had are still
    there. *)
Theorem unpack_inputs_registers_names ctx trace inputs outs trace' :
  NoDup (map pid inputs) ->
  unpack_inputs proxy_index ctx trace inputs = Ok (outs, trace') ->
  (forall p, In p inputs -> has_name trace' (name p) = true)
  /\ (forall n, has_name trace n = true -> has_name trace' n = true).
Proof.
  intros Hnd H. unfold unpack_inputs in H.
  destruct (unpack_inputs_body proxy_index ctx inputs _) as [[o s]|e] eqn:E;
    [|discriminate].
  injection H as <- <-. split.
  - intros p Hp. apply bool_decide_eq_true.
    unfold unpack_inputs_body in E.
    apply bind_Ok in E as (outs & s1 & Houts & E).
    destruct (keeps_name_steps (name p)) as (Ha & Hset & Hr & Hm).
    assert (H1 : name p ∈ names (prologue_trace s1)).
    { eapply mapM_unpack_registers; eauto.
      intros p' i _ _. simpl. apply not_elem_of_empty. }
    refine (kept_bind (fun s => name p ∈ names (prologue_trace s))
                      _ _ _ _ _ _ _ H1 E).
    + apply kept_mapM. intros c.
      apply kept_replay_constraint; auto.
    + intros _. apply kept_bind; [apply Ha | intros; apply kept_ret].
  - intros n Hn. apply bool_decide_eq_true in Hn. apply bool_decide_eq_true.
    destruct (keeps_name_steps n) as (Ha & Hset & Hr & Hm).
    refine (kept_unpack_inputs_body proxy_index
              (fun s => n ∈ names (prologue_trace s)) Ha Hset Hr Hm _ _
              _ _ _ _ E). exact Hn.
Qed.

Lemma mapM_unpack_marks inputs : forall s outs s' p i,
  mapM (unpack proxy_index) inputs s = Ok (outs, s') ->
  In p inputs -> pid p = Some i -> i ∈ already_unpacked s'.
Proof.
  induction inputs as [|p0 l IH]; intros s outs s' p i H Hp Hi;
    [contradiction|].
  simpl in H. apply bind_Ok in H as (q & s1 & Hq & H).
  apply bind_Ok in H as (qs & s2 & Hqs & H). injection H as _ <-.
  destruct Hp as [->|Hp]; [|eapply IH; eauto].
  destruct (keeps_mark_steps i) as (Ha & Hset & Hr & Hm).
  refine (kept_mapM (fun s => i ∈ already_unpacked s) _ _
            (kept_unpack proxy_index _ Ha Hset Hr Hm) _ _ _ _ Hqs).
  eapply unpack_marks; eauto.
Qed.

Lemma mapM_same_state {A B} (f : A -> M B) l s :
  (forall x y s', In x l -> f x s = Ok (y, s') -> s' = s) ->
  forall ys s', mapM f l s = Ok (ys, s') -> s' = s.
Proof.
  induction l as [|x l IH]; intros Hf ys s' H; simpl in H.
  - now injection H as _ <-.
  - apply bind_Ok in H as (y & s1 & Hy & H).
    apply bind_Ok in H as (ys' & s2 & Hys & H). injection H as _ <-.
    apply Hf in Hy; [subst s1 | now left].
    eapply IH; [|exact Hys]. intros x' y' s'' Hx'. apply Hf. now right.
Qed.

(** Replaying a constraint whose proxies are all unpacked records the
    guard and nothing else. *)
Lemma replay_constraint_marked c s u s' :
  (forall q, In (AProxy q) (snd c) ->
     exists i, pid q = Some i /\ i ∈ already_unpacked s) ->
  replay_constraint proxy_index c s = Ok (u, s') ->
  s' = {| prologue_trace := record_bsym (prologue_trace s) (constraint_bsym c);
          already_unpacked := already_unpacked s;
          record_proxy := record_proxy s |}.
Proof.
  intros Hc H. unfold replay_constraint in H.
  apply bind_Ok in H as (l & s1 & Hl & H).
  apply mapM_same_state in Hl.
  - subst s1. now injection H as _ <-.
  - intros [q|o|elts] y s0 Hin Hy.
    + apply bind_Ok in Hy as (q' & s3 & Hq & Hy). injection Hy as _ <-.
      destruct (Hc q Hin) as (i & Hi & Hm).
      rewrite (unpack_marked q s i Hi Hm) in Hq.
      destruct (history q); [now injection Hq as _ <- | discriminate].
    + now injection Hy as _ <-.
    + now injection Hy as _ <-.
Qed.

Lemma mapM_replay_marked cs : forall s us s',
  (forall c q, In c cs -> In (AProxy q) (snd c) ->
     exists i, pid q = Some i /\ i ∈ already_unpacked s) ->
  mapM (replay_constraint proxy_index) cs s = Ok (us, s') ->
  bound_symbols (prologue_trace s')
  = bound_symbols (prologue_trace s) ++ map constraint_bsym cs.
Proof.
  induction cs as [|c cs IH]; intros s us s' Hc H; simpl in H.
  - injection H as _ <-. simpl. now rewrite app_nil_r.
  - apply bind_Ok in H as ([] & s1 & H1 & H).
    apply bind_Ok in H as (us' & s2 & H2 & H). injection H as _ <-.
    apply replay_constraint_marked in H1;
      [|intros q Hq; apply (Hc c q); [now left | exact Hq]].
    subst s1. apply IH in H2.
    + rewrite H2. simpl. now rewrite <- app_assoc.
    + intros c' q Hc' Hq. simpl. apply (Hc c' q); [now right | exact Hq].
Qed.

Lemma keeps_siginfo_steps x :
  (forall b, kept (fun s => _siginfo (prologue_trace s) = x) (append_bsym b))
  /\ (forall r v, kept (fun s => _siginfo (prologue_trace s) = x)
                       (set_record_proxy r v))
  /\ (forall m, kept (fun s => _siginfo (prologue_trace s) = x)
                     (register_name m))
  /\ (forall p, kept (fun s => _siginfo (prologue_trace s) = x)
                     (mark_unpacked p)).
Proof.
  repeat split.
  - intros b s [] s' HP [= <-]. exact HP.
  - intros r v s [] s' HP [= <-]. exact HP.
  - intros m s [] s' HP [= <-]. simpl.
    now destruct (has_name (prologue_trace s) m).
  - intros p s [] s' HP [= <-]. exact HP.
Qed.

Lemma unpack_inputs_siginfo ctx trace inputs outs trace' :
  unpack_inputs proxy_index ctx trace inputs = Ok (outs, trace') ->
  _siginfo trace' = _siginfo trace.
Proof.
  intros H. unfold unpack_inputs in H.
  destruct (unpack_inputs_body proxy_index ctx inputs _) as [[o s]|e] eqn:E;
    [|discriminate].
  injection H as <- <-.
  destruct (keeps_siginfo_steps (_siginfo trace)) as (Ha & Hset & Hr & Hm).
  refine (kept_unpack_inputs_body proxy_index
            (fun s => _siginfo (prologue_trace s) = _siginfo trace)
            Ha Hset Hr Hm _ _ _ _ _ _ E). reflexivity.
Qed.

Variable jfn : MesoCtx -> TraceCtx -> Result (Arg * MesoCtx * TraceCtx).


End PrologueMoreFacts.

Section InputsAgainFacts.
Import JitExt JitExtSpec JitExtMore.

Lemma get_computation_inputs_flat t :
  get_computation_inputs t
  = (fold_left add_input
       (flat_map flat_variableified_proxy_args (bound_symbols t)) ([], ∅)).1.
Proof. unfold get_computation_inputs. now rewrite fold_left_flat_map. Qed.

Lemma flat_args_unpack_trivial outs :
  flat_map flat_variableified_proxy_args (map unpack_trivial_bsym outs) = outs.
Proof. induction outs as [|p l IH]; simpl; [reflexivity | now rewrite IH]. Qed.

(** Inputs with a history and distinct names are all added, in order. *)
Lemma fold_add_input_fresh l :
  Forall (fun p => has_history p = true) l -> NoDup (map name l) ->
  exists S, fold_left add_input l ([], ∅) = (l, S)
            /\ forall n, n ∈ S <-> In n (map name l).
Proof.
  induction l as [|x l IH] using rev_ind; intros Hall Hnd.
  - exists ∅. split; [reflexivity|]. intros n. simpl.
    split; [intros H; now apply not_elem_of_empty in H | tauto].
  - apply Forall_app in Hall as [Hl Hx]. apply Forall_inv in Hx.
    rewrite map_app in Hnd. simpl in Hnd.
    apply NoDup_app in Hnd as (Hnd & Hnx & _).
    destruct (IH Hl Hnd) as (S & HS & Hin).
    rewrite fold_left_app, HS. simpl. unfold add_input.
    unfold has_history in Hx. destruct (history x); [|discriminate].
    simpl. rewrite bool_decide_eq_false_2.
    + eexists. split; [reflexivity|]. intros n.
      rewrite elem_of_union, elem_of_singleton, map_app, in_app_iff, Hin.
      simpl. split; [intros [->|H]; auto | intros [H|[<-|[]]]; auto].
    + intros Hx'. apply Hin in Hx'. apply (Hnx (name x)).
      * now apply list_elem_of_In.
      * apply list_elem_of_In. now left.
Qed.

(** Uses whose names are all known change nothing. *)
Lemma fold_add_input_known l acc :
  (forall p, In p l -> has_history p = true -> name p ∈ acc.2) ->
  fold_left add_input l acc = acc.
Proof.
  induction l as [|x l IH]; intros H; simpl; [reflexivity|].
  assert (Hx : add_input acc x = acc).
  { unfold add_input. pose proof (H x (or_introl eq_refl)) as Hn.
    unfold has_history in Hn. destruct (history x); [|reflexivity].
    now rewrite (bool_decide_eq_true_2 _ (Hn eq_refl)). }
  rewrite Hx. apply IH. intros p Hp. apply H. now right.
Qed.

(** The inputs of a trace are the inputs of the trace with their unpacks
    in front. *)
Lemma get_computation_inputs_hoisted t :
  get_computation_inputs (hoist_unpacks (get_computation_inputs t) t)
  = get_computation_inputs t.
Proof.
  destruct (get_computation_inputs_spec t) as (Hnd & Hsub & Hcov & _).
  rewrite (get_computation_inputs_flat (hoist_unpacks _ _)).
  rewrite hoist_unpacks_bound_symbols, flat_map_app, flat_args_unpack_trivial.
  rewrite fold_left_app.
  destruct (fold_add_input_fresh (get_computation_inputs t)) as (S & HS & Hin).
  - apply List.Forall_forall. intros p Hp. apply Hsub in Hp.
    unfold used_inputs in Hp. now apply filter_In in Hp as [_ Hp].
  - exact Hnd.
  - rewrite HS, fold_add_input_known; [reflexivity|].
    intros p Hp Hh. simpl. apply Hin, Hcov. unfold used_inputs.
    apply filter_In. now split.
Qed.

Variable proxy_index : Proxy -> option PyObj.
Variable jfn : MesoCtx -> TraceCtx -> Result (Arg * MesoCtx * TraceCtx).

(** X22: the computation trace of a compilation that succeeds is
    consistent: collecting the inputs of the returned trace gives the
    arguments of the trace, and its signature lists their names. *)
Theorem meso_thunder_interpreter_inputs_consistent co sharp_edges evs
    prologue computation :
  meso_thunder_interpreter proxy_index jfn co sharp_edges
  = (evs, Ok (prologue, computation)) ->
  get_computation_inputs computation = trace_args computation
  /\ exists si, _siginfo computation = Some si
                /\ si_args si = map name (trace_args computation).
Proof.
  intros H. unfold meso_thunder_interpreter in H.
  destruct (negb (cache_option_supported co)); [discriminate|].
  unfold interpret_and_build in H.
  destruct (jfn _ _) as [[[result ctx] trace]|e]; [|discriminate].
  destruct (unpack_inputs proxy_index ctx _ _) as [[outs pt]|e] eqn:E;
    [|discriminate].
  injection H as _ _ <-.
  destruct (unpack_inputs_shape _ _ _ _ _ _ E) as (-> & _).
  split.
  - rewrite get_computation_inputs_flat.
    unfold set_trace_args, set_siginfo. cbn [bound_symbols trace_args].
    rewrite <- get_computation_inputs_flat.
    apply get_computation_inputs_hoisted.
  - eexists. split; reflexivity.
Qed.

End InputsAgainFacts.

Section PrologueMoreExamples.
Import JitExt JitExtSpec JitExtMore JitExtExamples.

Lemma from_provenance_memoizes_witness :
  exists v s',
    from_provenance no_proxy_index (pr_size rec_x) t0 rec_x false empty_state
    = Ok (v, s')
    /\ record_proxy s' !! 2 = Some v
    /\ forall fuel' p' new_output',
         from_provenance no_proxy_index (S fuel') p' rec_x new_output' s'
         = Ok (v, s').
Proof.
  destruct (from_provenance no_proxy_index (pr_size rec_x) t0 rec_x false
              empty_state) as [[v s']|e] eqn:E.
  - exists v, s'. split; [reflexivity|].
    exact (from_provenance_memoizes no_proxy_index _ t0 rec_x false
             empty_state v s' 2 eq_refl E).
  - vm_compute in E. discriminate E.
Defined.

Lemma unpack_twice_witness :
  exists q s',
    unpack no_proxy_index t0 empty_state = Ok (q, s')
    /\ unpack no_proxy_index t0 s' = Ok (t0, s').
Proof.
  destruct (unpack no_proxy_index t0 empty_state) as [[q s']|e] eqn:E.
  - exists q, s'. split; [reflexivity|].
    exact (unpack_twice no_proxy_index t0 empty_state q s' 0 eq_refl E).
  - vm_compute in E. discriminate E.
Defined.

Lemma unpack_unsupported_history_witness :
  unpack no_proxy_index
    {| pid := Some 7; name := "i7"; kind := NumberProxy (PyInt 7);
       history := Some (provenance int_computed) |} empty_state
  = Raise (NotImplementedError
             ("Unpacking from "
              +:+ inst_name (inst (provenance int_computed))))
  /\ unpack no_proxy_index
       {| pid := Some 8; name := "t8"; kind := float_4x4;
          history := Some (provenance tensor_const) |} empty_state
     = Raise (NotImplementedError "constant of type").
Proof.
  split.
  - apply (proj1 (unpack_unsupported_history no_proxy_index
                    {| pid := Some 7; name := "i7";
                       kind := NumberProxy (PyInt 7);
                       history := Some (provenance int_computed) |}
                    (provenance int_computed) empty_state eq_refl
                    (fun i _ => not_elem_of_empty (C := gset nat) i)
                    (lookup_empty (M := gmap nat) 3))).
    reflexivity.
  - apply (proj2 (unpack_unsupported_history no_proxy_index
                    {| pid := Some 8; name := "t8"; kind := float_4x4;
                       history := Some (provenance tensor_const) |}
                    (provenance tensor_const) empty_state eq_refl
                    (fun i _ => not_elem_of_empty (C := gset nat) i)
                    (lookup_empty (M := gmap nat) 0)));
      reflexivity.
Defined.

Lemma unpack_inputs_registers_names_witness :
  exists outs trace',
    unpack_inputs no_proxy_index (MesoCtx_new ERROR) TraceCtx_new [t0; t1]
    = Ok (outs, trace')
    /\ (forall p, In p [t0; t1] -> has_name trace' (name p) = true)
    /\ (forall n, has_name TraceCtx_new n = true -> has_name trace' n = true).
Proof.
  destruct (unpack_inputs no_proxy_index (MesoCtx_new ERROR) TraceCtx_new
              [t0; t1]) as [[outs trace']|e] eqn:E.
  - exists outs, trace'. split; [reflexivity|].
    apply (unpack_inputs_registers_names no_proxy_index (MesoCtx_new ERROR)
             TraceCtx_new [t0; t1] outs trace').
    + apply (bool_decide_unpack _). vm_compute. exact I.
    + exact E.
  - vm_compute in E. discriminate E.
Defined.


Lemma meso_thunder_interpreter_inputs_consistent_witness :
  exists evs prologue computation,
    meso_thunder_interpreter no_proxy_index add_jfn NO_CACHING ERROR
    = (evs, Ok (prologue, computation))
    /\ get_computation_inputs computation = trace_args computation
    /\ exists si, _siginfo computation = Some si
                  /\ si_args si = map name (trace_args computation).
Proof.
  destruct (meso_thunder_interpreter no_proxy_index add_jfn NO_CACHING ERROR)
    as [evs [[prologue computation]|e]] eqn:E.
  - exists evs, prologue, computation. split; [reflexivity|].
    exact (meso_thunder_interpreter_inputs_consistent no_proxy_index add_jfn
             NO_CACHING ERROR evs prologue computation E).
  - vm_compute in E. discriminate E.
Defined.

End PrologueMoreExamples.

(** ** The chunk of an input *)

Section SteppingFacts.
Import JitExt JitExtSpec JitExtMore.

Variable proxy_index : Proxy -> option PyObj.
Variable p : Proxy.
Variable r : ProvenanceRecord.

(** A relation on states that holds across the two steps of
    [from_provenance], binding an unpack symbol of [p] and giving a record
    reached from [r] its attribute [proxy], holds across
    [from_provenance]. *)
Variable R : UnpackState -> UnpackState -> Prop.
Hypothesis R_refl : forall s, R s s.
Hypothesis R_trans : forall s1 s2 s3, R s1 s2 -> R s2 s3 -> R s1 s3.
Hypothesis R_append : forall b, unpacks_for p b -> stepping R (append_bsym b).
Hypothesis R_set : forall r' v,
  rid r' = None \/ reached_from r r' -> stepping R (set_record_proxy r' v).

Lemma stepping_ret {A} (a : A) : stepping R (ret a).
Proof. intros s a' s' [= _ <-]. apply R_refl. Qed.

Lemma stepping_raise {A} e : stepping R (@raise A e).
Proof. intros s a s' [=]. Qed.

Lemma stepping_bind {A B} (m : M A) (k : A -> M B) :
  stepping R m -> (forall a, stepping R (k a)) -> stepping R (bind m k).
Proof.
  intros Hm Hk s b s' H. apply bind_Ok in H as (a & s1 & H1 & H2).
  eapply R_trans; [eapply Hm, H1 | eapply Hk, H2].
Qed.

Lemma stepping_mapM {A B} (f : A -> M B) l :
  (forall x, In x l -> stepping R (f x)) -> stepping R (mapM f l).
Proof.
  induction l as [|x l IH]; intros Hf; simpl.
  - apply stepping_ret.
  - apply stepping_bind; [apply Hf; now left|]. intros y.
    apply stepping_bind; [apply IH; intros; apply Hf; now right|].
    intros ys. apply stepping_ret.
Qed.

Lemma stepping_get_record_proxy r' : stepping R (get_record_proxy r').
Proof. intros s a s' [= _ <-]. apply R_refl. Qed.

(** The records that [from_provenance] visits from a record [r0]: those
    reached from [r0] are reached from [r], or are new. *)
Lemma below_input r0 x :
  (forall r', reached_from r0 r' -> rid r' = None \/ reached_from r r') ->
  In x (inputs r0) ->
  forall r', reached_from x r' -> rid r' = None \/ reached_from r r'.
Proof. intros H Hx r' Hr. apply H. eapply reached_below; eauto. Qed.

Lemma unpacks_for_self prim args :
  is_unpack_prim prim = true -> unpacks_for p (bind_symbol prim args (AProxy p)).
Proof. intros H. split; [exact H|]. exists p. auto. Qed.

Lemma unpacks_for_new prim args n :
  is_unpack_prim prim = true ->
  unpacks_for p (bind_symbol prim args (AProxy (Proxy_new n))).
Proof. intros H. split; [exact H|]. exists (Proxy_new n). auto. Qed.

Lemma stepping_from_input r0 new_output :
  rid r0 = None \/ reached_from r r0 ->
  stepping R (from_input p r0 new_output).
Proof.
  intros Hself s a s' H. unfold from_input in H.
  apply bind_Ok in H as (output & s1 & Hout & H).
  apply bind_Ok in H as ([] & s2 & Happ & H). injection H as _ <-.
  assert (Hstep : R s s1 /\ (output = p \/ pid output = None)).
  { destruct new_output.
    - apply bind_Ok in Hout as (n & s0 & Hn & Hout).
      apply bind_Ok in Hout as ([] & s3 & Hset & Hout).
      injection Hout as <- <-.
      assert (s0 = s) as ->.
      { repeat match type of Hn with
               | (if ?c then _ else _) _ = _ => destruct c
               end; now inversion Hn. }
      split; [eapply R_set, Hset; exact Hself | now right].
    - apply bind_Ok in Hout as ([] & s3 & Hset & Hout).
      injection Hout as <- <-.
      split; [eapply R_set, Hset; exact Hself | now left]. }
  destruct Hstep as [Hs Hout']. eapply R_trans; [exact Hs|].
  eapply R_append, Happ. split.
  - destruct (inst_is (inst r0) INPUT_FN); reflexivity.
  - exists output. split; [|exact Hout'].
    destruct (inst_is (inst r0) INPUT_FN); reflexivity.
Qed.

Lemma stepping_unpack_fn rec f r0 new_output :
  (forall r', reached_from r0 r' -> rid r' = None \/ reached_from r r') ->
  (forall r1 b,
     (forall r', reached_from r1 r' -> rid r' = None \/ reached_from r r') ->
     stepping R (rec r1 b)) ->
  stepping R (unpack_fn proxy_index p rec f r0 new_output).
Proof.
  intros Hr0 Hrec.
  assert (Hself : rid r0 = None \/ reached_from r r0)
    by (apply Hr0; constructor).
  assert (Hin : forall x, In x (inputs r0) -> stepping R (rec x true))
    by (intros x Hx; apply Hrec; now apply (below_input r0)).
  destruct f; simpl.
  - now apply stepping_from_input.
  - unfold from_load_attr. apply stepping_bind; [now apply stepping_mapM|].
    intros [|i0 [|i1 l]]; try apply stepping_raise.
    apply stepping_bind; [|intros; apply stepping_ret].
    apply R_append.
    destruct new_output; [now apply unpacks_for_new | now apply unpacks_for_self].
  - unfold from_constant.
    destruct (is_int_or_str (value r0));
      [apply stepping_ret | apply stepping_raise].
  - unfold from_binary_subscr. apply stepping_bind; [now apply stepping_mapM|].
    intros [|obj [|idx [|x l]]]; try apply stepping_raise.
    destruct (subscr_index proxy_index idx); [|apply stepping_raise].
    apply stepping_bind; [|intros; apply stepping_ret].
    apply R_append.
    destruct new_output; [now apply unpacks_for_new | now apply unpacks_for_self].
  - unfold from_opaque.
    destruct (inputs r0) as [|fn [|args l]] eqn:E0; try apply stepping_raise.
    destruct (negb (inst_is (inst fn) CONSTANT)); [apply stepping_raise|].
    destruct (py_name (value fn)) as [n|]; [|apply stepping_raise].
    assert (Hargs : forall x, In x (inputs args) ->
              forall r', reached_from x r' ->
                rid r' = None \/ reached_from r r').
    { intros x Hx. apply (below_input args); [|exact Hx].
      apply (below_input r0); [exact Hr0|]. rewrite E0. right. now left. }
    destruct (String.eqb n "__getitem__").
    + destruct (inputs args) as [|idx [|obj [|x l']]] eqn:Ea;
        try apply stepping_raise.
      apply Hrec. intros r' Hr'. inversion Hr' as [|x r'' Hx Hr'']; subst.
      * now left.
      * simpl in Hx. destruct Hx as [<-|[<-|[]]];
          (eapply Hargs; [|exact Hr'']); simpl; auto.
    + destruct (value fn); try apply stepping_raise.
      destruct (inputs args) as [|a0 [|a1 [|a2 [|x l']]]] eqn:Ea;
        try apply stepping_raise.
      destruct (inst_is (inst a2) CONSTANT); [|apply stepping_raise].
      destruct (value a2); try apply stepping_raise.
      apply Hrec. intros r' Hr'. inversion Hr' as [|x r'' Hx Hr'']; subst.
      * now left.
      * simpl in Hx. destruct Hx as [<-|[<-|[]]].
        -- eapply Hargs; [|exact Hr'']. simpl. auto.
        -- inversion Hr'' as [|y r3 Hy _]; subst; [now left | destruct Hy].
Qed.

Lemma stepping_from_provenance fuel : forall r0 new_output,
  (forall r', reached_from r0 r' -> rid r' = None \/ reached_from r r') ->
  stepping R (from_provenance proxy_index fuel p r0 new_output).
Proof.
  induction fuel as [|fuel IH]; intros r0 new_output Hr0.
  - apply stepping_raise.
  - rewrite from_provenance_S.
    apply stepping_bind; [apply stepping_get_record_proxy|].
    intros [v|]; [apply stepping_ret|].
    destruct (dict_get d (inst_name (inst r0))) as [f|]; [|apply stepping_raise].
    apply stepping_bind.
    + apply stepping_unpack_fn; [exact Hr0|]. intros r1 b Hr1. now apply IH.
    + intros res. apply stepping_bind; [|intros; apply stepping_ret].
      apply R_set, Hr0. constructor.
Qed.

End SteppingFacts.

Section ChunkFacts.
Import JitExt JitExtSpec JitExtMore.

Variable proxy_index : Proxy -> option PyObj.

Lemma appends_for_refl p s : appends_for p s s.
Proof. exists []. split; [now rewrite app_nil_r | constructor]. Qed.

Lemma appends_for_trans p s1 s2 s3 :
  appends_for p s1 s2 -> appends_for p s2 s3 -> appends_for p s1 s3.
Proof.
  intros (us & Hb & Hu) (us' & Hb' & Hu'). exists (us ++ us'). split.
  - now rewrite Hb', Hb, app_assoc.
  - now apply Forall_app.
Qed.

Lemma appends_for_append p b :
  unpacks_for p b -> stepping (appends_for p) (append_bsym b).
Proof.
  intros Hb s [] s' [= <-]. exists [b]. split; [reflexivity | now constructor].
Qed.

Lemma appends_for_set p r' v :
  stepping (appends_for p) (set_record_proxy r' v).
Proof.
  intros s [] s' [= <-]. exists []. split; [|constructor].
  simpl. now rewrite app_nil_r.
Qed.

(** [from_provenance] for [p] appends unpack symbols of [p] only. *)
Lemma from_provenance_appends_for fuel p r new_output :
  stepping (appends_for p) (from_provenance proxy_index fuel p r new_output).
Proof.
  apply (stepping_from_provenance proxy_index p r (appends_for p)
           (appends_for_refl p) (appends_for_trans p) (appends_for_append p)
           (fun r' v _ => appends_for_set p r' v)).
  intros r' Hr'. now right.
Qed.

Lemma caches_below_refl r s : caches_below r s s.
Proof. intros i Hi. now left. Qed.

Lemma caches_below_trans r s1 s2 s3 :
  caches_below r s1 s2 -> caches_below r s2 s3 -> caches_below r s1 s3.
Proof.
  intros H12 H23 i Hi. destruct (H23 i Hi) as [H2|H]; [auto | now right].
Qed.

Lemma caches_below_append r b : stepping (caches_below r) (append_bsym b).
Proof. intros s [] s' [= <-] i Hi. now left. Qed.

Lemma caches_below_set r r' v :
  rid r' = None \/ reached_from r r' ->
  stepping (caches_below r) (set_record_proxy r' v).
Proof.
  intros Hr s [] s' [= <-] i Hi. simpl in Hi.
  destruct (rid r') as [j|] eqn:Ej; [|now left].
  destruct (decide (i = j)) as [->|Hne].
  - right. destruct Hr as [Hr|Hr]; [discriminate|]. eauto.
  - left. now rewrite lookup_insert_ne in Hi by congruence.
Qed.

(** [from_provenance] on [r] gives the attribute [proxy] to records reached
    from [r] only. *)
Lemma from_provenance_caches_below fuel p r new_output :
  stepping (caches_below r)
    (from_provenance proxy_index fuel p r new_output).
Proof.
  apply (stepping_from_provenance proxy_index p r (caches_below r)
           (caches_below_refl r) (caches_below_trans r)
           (fun b _ => caches_below_append r b) (caches_below_set r)).
  intros r' Hr'. now right.
Qed.

Lemma d_from_constant k :
  dict_get d k = Some from_constant_fn -> k = "CONSTANT".
Proof.
  unfold d. simpl.
  repeat match goal with
         | |- context [String.eqb k ?x] =>
             destruct (String.eqb_spec k x) as [->|_];
             [intros H; (discriminate H || reflexivity)|]
         end.
  intros H. discriminate H.
Qed.

Lemma mapM_from_provenance_appends fuel p l s vs s' :
  mapM (fun i => from_provenance proxy_index fuel p i true) l s = Ok (vs, s') ->
  appends_for p s s'.
Proof.
  apply (stepping_mapM (appends_for p) (appends_for_refl p)
           (appends_for_trans p)).
  intros x _. apply from_provenance_appends_for.
Qed.

(** For a record met for the first time, other than a constant,
    [from_provenance] ends with the symbol that binds [p]. *)
Lemma from_provenance_binds fuel p : forall r s v s',
  uncached r s -> inst_name (inst r) <> "CONSTANT" ->
  from_provenance proxy_index fuel p r false s = Ok (v, s') ->
  exists us b,
    bound_symbols (prologue_trace s')
    = bound_symbols (prologue_trace s) ++ us ++ [b]
    /\ output b = Some (AProxy p).
Proof.
  induction fuel as [|fuel IH]; intros r s v s' Hu Hc H; [discriminate|].
  rewrite from_provenance_S in H. unfold bind at 1 in H.
  rewrite (get_record_proxy_uncached _ _ Hu) in H.
  destruct (dict_get d (inst_name (inst r))) as [f|] eqn:Ed; [|discriminate].
  apply bind_Ok in H as (res & s1 & Hf & H).
  apply bind_Ok in H as ([] & s2 & Hset & H). injection H as _ <-.
  injection Hset as <-. simpl.
  destruct f; simpl in Hf.
  - unfold from_input in Hf.
    apply bind_Ok in Hf as (output & s3 & Hout & Hf).
    apply bind_Ok in Hout as ([] & s4 & Hset & Hout).
    injection Hout as <- <-. injection Hset as <-.
    apply bind_Ok in Hf as ([] & s5 & Happ & Hf). injection Hf as _ <-.
    injection Happ as <-. simpl. exists []. eexists. split; [reflexivity|].
    destruct (inst_is (inst r) INPUT_FN); reflexivity.
  - unfold from_load_attr in Hf.
    apply bind_Ok in Hf as (ins & s3 & Hins & Hf).
    apply mapM_from_provenance_appends in Hins as (us & Hus & _).
    destruct ins as [|i0 [|i1 l]]; try discriminate.
    apply bind_Ok in Hf as ([] & s5 & Happ & Hf). injection Hf as _ <-.
    injection Happ as <-. simpl. exists us. eexists.
    split; [now rewrite Hus, <- app_assoc | reflexivity].
  - now apply d_from_constant in Ed.
  - unfold from_binary_subscr in Hf.
    apply bind_Ok in Hf as (ins & s3 & Hins & Hf).
    apply mapM_from_provenance_appends in Hins as (us & Hus & _).
    destruct ins as [|obj [|idx [|x l]]]; try discriminate.
    destruct (subscr_index proxy_index idx); [|discriminate].
    apply bind_Ok in Hf as ([] & s5 & Happ & Hf). injection Hf as _ <-.
    injection Happ as <-. simpl. exists us. eexists.
    split; [now rewrite Hus, <- app_assoc | reflexivity].
  - unfold from_opaque in Hf.
    destruct (inputs r) as [|fn [|args l]]; try discriminate.
    destruct (negb (inst_is (inst fn) CONSTANT)); [discriminate|].
    destruct (py_name (value fn)) as [n|]; [|discriminate].
    destruct (String.eqb n "__getitem__").
    + destruct (inputs args) as [|idx [|obj [|x l']]]; try discriminate.
      apply IH in Hf; [exact Hf | exact I | discriminate].
    + destruct (value fn); try discriminate.
      destruct (inputs args) as [|a0 [|a1 [|a2 [|x l']]]]; try discriminate.
      destruct (inst_is (inst a2) CONSTANT); [|discriminate].
      destruct (value a2); try discriminate.
      apply IH in Hf; [exact Hf | exact I | discriminate].
Qed.

(** The first [unpack] of an input, after the inputs [earlier]. *)
Lemma unpack_input_chunk earlier p s q s' :
  (forall i, pid p = Some i -> i ∉ already_unpacked s) ->
  cached_from earlier s ->
  unpack proxy_index p s = Ok (q, s') ->
  exists chunk,
    bound_symbols (prologue_trace s')
    = bound_symbols (prologue_trace s) ++ chunk
    /\ input_chunk earlier p chunk
    /\ cached_from (earlier ++ [p]) s'.
Proof.
  intros Hfresh Hcached H. unfold unpack in H.
  destruct (history p) as [h|] eqn:Eh; [|discriminate].
  apply bind_Ok in H as (seen & s1 & Hseen & H).
  unfold is_already_unpacked in Hseen. injection Hseen as <- <-.
  assert (Hs : match pid p with
               | Some i => bool_decide (i ∈ already_unpacked s)
               | None => false
               end = false).
  { destruct (pid p) as [i|]; [|reflexivity].
    apply bool_decide_eq_false. now apply Hfresh. }
  rewrite Hs in H.
  apply bind_Ok in H as ([] & s2 & Hreg & H).
  apply bind_Ok in H as (v & s3 & Hfrom & H).
  apply bind_Ok in H as ([] & s4 & Hmark & H).
  apply bind_Ok in H as ([] & s5 & Hguard & H).
  injection H as _ <-.
  assert (Hs2 : bound_symbols (prologue_trace s2)
                = bound_symbols (prologue_trace s)
                /\ record_proxy s2 = record_proxy s).
  { injection Hreg as <-. simpl.
    destruct (has_name _ _); split; reflexivity. }
  destruct Hs2 as [Hb2 Hr2].
  pose proof (from_provenance_appends_for _ _ _ _ _ _ _ Hfrom)
    as (us & Hus & Hall).
  pose proof (from_provenance_caches_below _ _ _ _ _ _ _ Hfrom) as Hcb.
  assert (Hs5 : bound_symbols (prologue_trace s5)
                = bound_symbols (prologue_trace s3) ++ tensor_guard p
                /\ record_proxy s5 = record_proxy s3).
  { injection Hmark as <-. unfold tensor_guard.
    destruct (is_TensorProxy p); injection Hguard as <-; simpl;
      [|rewrite app_nil_r]; split; reflexivity. }
  destruct Hs5 as [Hb5 Hr5].
  exists (us ++ tensor_guard p). split; [|split].
  - now rewrite Hb5, Hus, Hb2, <- app_assoc.
  - exists us. split; [reflexivity|]. split; [exact Hall|].
    intros (h' & Eh' & Hc & Hnew). rewrite Eh in Eh'. injection Eh' as <-.
    assert (Hu : uncached h s2).
    { unfold uncached. destruct (rid h) as [i|] eqn:Ei; [|exact I].
      rewrite Hr2. destruct (record_proxy s !! i) eqn:El; [|reflexivity].
      exfalso.
      destruct (Hcached i) as (q0 & hq & r' & Hq & Hhq & Hr' & Hi);
        [now rewrite El|].
      exact (Hnew i q0 hq r' eq_refl Hq Hhq Hr' Hi). }
    destruct (from_provenance_binds _ _ _ _ _ _ Hu Hc Hfrom)
      as (us' & b & Hb & Hout).
    exists us', b. split; [|exact Hout].
    rewrite Hus in Hb. apply app_inv_head in Hb. exact Hb.
  - intros i Hi. rewrite Hr5 in Hi. destruct (Hcb i Hi) as [Hold|(r' & Hr' & Hri)].
    + rewrite Hr2 in Hold.
      destruct (Hcached i Hold) as (q0 & hq & r' & Hq & Hhq & Hr' & Hri).
      exists q0, hq, r'. repeat split; auto. apply in_or_app. now left.
    + exists p, h, r'. repeat split; auto. apply in_or_app. right. now left.
Qed.

(** The loop over the inputs, for inputs that are distinct objects, none
    of them unpacked before. *)
Lemma mapM_unpack_input_chunks inputs : forall earlier s outs s',
  NoDup (map pid inputs) ->
  (forall p i, In p inputs -> pid p = Some i -> i ∉ already_unpacked s) ->
  cached_from earlier s ->
  mapM (unpack proxy_index) inputs s = Ok (outs, s') ->
  exists chunks,
    bound_symbols (prologue_trace s')
    = bound_symbols (prologue_trace s) ++ concat chunks
    /\ input_chunks earlier inputs chunks.
Proof.
  induction inputs as [|p l IH]; intros earlier s outs s' Hnd Hfresh Hc H;
    simpl in H.
  - injection H as _ <-. exists []. split; [now rewrite app_nil_r | exact I].
  - apply bind_Ok in H as (q & s1 & Hq & H).
    apply bind_Ok in H as (qs & s2 & Hqs & H). injection H as _ <-.
    simpl in Hnd. apply NoDup_cons in Hnd as [Hp Hnd].
    assert (Hf0 : forall i, pid p = Some i -> i ∉ already_unpacked s)
      by (intros i Hi; apply (Hfresh p i); [now left | exact Hi]).
    destruct (unpack_first_time proxy_index p s q s1 Hf0 Hq) as (_ & Ha).
    destruct (unpack_input_chunk earlier p s q s1 Hf0 Hc Hq)
      as (c & Hb1 & Hchunk & Hc1).
    destruct (IH (earlier ++ [p]) s1 qs s2 Hnd) as (chunks & Hb & Hall); auto.
    { intros p' i Hp' Hi. rewrite Ha.
      destruct (pid p) as [j|] eqn:Ej.
      - rewrite elem_of_union, elem_of_singleton. intros [->|Hin].
        + apply Hp. rewrite <- Hi. apply list_elem_of_In, in_map, Hp'.
        + revert Hin. apply (Hfresh p' i); [now right | exact Hi].
      - apply (Hfresh p' i); [now right | exact Hi]. }
    exists (c :: chunks). split.
    + simpl. now rewrite Hb, Hb1, <- app_assoc.
    + split; assumption.
Qed.

End ChunkFacts.

Section ChunkTheorems.
Import JitExt JitExtSpec JitExtMore.

Variable proxy_index : Proxy -> option PyObj.

Lemma cached_from_start earlier trace :
  cached_from earlier
    {| prologue_trace := trace; already_unpacked := ∅; record_proxy := ∅ |}.
Proof. intros i Hi. simpl in Hi. now rewrite lookup_empty in Hi. Qed.



End ChunkTheorems.

Section ChunkExamples.
Import JitExt JitExtSpec JitExtMore JitExtExamples.


(** The two tensors of [x + y] are met for the first time when they are
    unpacked. *)
Lemma add_inputs_first_reached :
  first_reached [] t0 /\ first_reached [t0] t1.
Proof.
  split.
  - eexists. split; [reflexivity|]. split; [discriminate|].
    intros i q hq r' _ [].
  - eexists. split; [reflexivity|]. split; [discriminate|].
    intros i q hq r' [= <-] [<-|[]] [= <-] Hr.
    inversion Hr as [|x r'' Hx Hr'']; subst; [discriminate|].
    destruct Hx as [<-|[<-|[]]];
      (inversion Hr'' as [|y r3 Hy _]; subst; [discriminate | destruct Hy]).
Qed.

(** The prologue of [x + y] and its two groups. *)
Example add_prologue_chunks :
  let u_args := bind_symbol unpack_trivial [AProxy (Proxy_new "args")]
                  (AProxy (Proxy_new "args")) in
  let u_t0 := bind_symbol unpack_getitem
                [AProxy (Proxy_new "args"); AObj (PyInt 0)] (AProxy t0) in
  let u_t1 := bind_symbol unpack_getitem
                [AProxy (Proxy_new "args"); AObj (PyInt 1)] (AProxy t1) in
  let chunks := [ [u_args; u_t0; assert_tensor_metadata_bsym t0];
                  [u_t1; assert_tensor_metadata_bsym t1] ] in
  match unpack_inputs no_proxy_index (MesoCtx_new ERROR) TraceCtx_new
          [t0; t1] with
  | Ok (_, trace) =>
      bound_symbols trace
      = concat chunks ++ [python_return_bsym (ATuple [AProxy t0; AProxy t1])]
  | Raise _ => False
  end
  /\ input_chunks [] [t0; t1] chunks.
Proof.
  cbv zeta. split; [vm_compute; reflexivity|].
  split; [|split; [|exact I]].
  - eexists [_; _]. split; [reflexivity|]. split.
    + repeat constructor; eexists; (split; [reflexivity|]); auto.
    + intros _. eexists [_], _. split; reflexivity.
  - eexists [_]. split; [reflexivity|]. split.
    + repeat constructor; eexists; (split; [reflexivity|]); auto.
    + intros _. eexists [], _. split; reflexivity.
Qed.

(** The same symbols with the two guards behind the two unpacks are not
    the groups of [t0] and [t1]: the group of [t0] would hold the symbol
    that binds [t1]. *)
Example guards_behind_all_unpacks_are_no_chunks :
  let u_args := bind_symbol unpack_trivial [AProxy (Proxy_new "args")]
                  (AProxy (Proxy_new "args")) in
  let u_t0 := bind_symbol unpack_getitem
                [AProxy (Proxy_new "args"); AObj (PyInt 0)] (AProxy t0) in
  let u_t1 := bind_symbol unpack_getitem
                [AProxy (Proxy_new "args"); AObj (PyInt 1)] (AProxy t1) in
  ~ exists chunks rest,
      [u_args; u_t0; u_t1; assert_tensor_metadata_bsym t0;
       assert_tensor_metadata_bsym t1;
       python_return_bsym (ATuple [AProxy t0; AProxy t1])]
      = concat chunks ++ rest
      /\ input_chunks [] [t0; t1] chunks.
Proof.
  cbv zeta. intros (chunks & rest & He & Hc).
  destruct chunks as [|c0 chunks]; [destruct Hc|].
  destruct Hc as [(us & -> & Hus & _) _].
  change (tensor_guard t0) with [assert_tensor_metadata_bsym t0] in He.
  destruct us as [|b0 [|b1 [|b2 [|b3 us]]]]; simpl in He.
  - discriminate He.
  - discriminate He.
  - discriminate He.
  - injection He as <- <- <- _.
    apply Forall_inv_tail, Forall_inv_tail, Forall_inv in Hus.
    destruct Hus as (_ & q & [= <-] & [Hq|Hq]); discriminate Hq.
  - injection He as <- <- <- <- _.
    apply Forall_inv_tail, Forall_inv_tail, Forall_inv_tail, Forall_inv in Hus.
    destruct Hus as (Hu & _). discriminate Hu.
Qed.

(** Nor are they with each guard in front of the unpack of its tensor:
    the group of [t0] would lack the symbol that binds [t0]. *)
Example guard_in_front_of_unpack_is_no_chunk :
  let u_args := bind_symbol unpack_trivial [AProxy (Proxy_new "args")]
                  (AProxy (Proxy_new "args")) in
  let u_t0 := bind_symbol unpack_getitem
                [AProxy (Proxy_new "args"); AObj (PyInt 0)] (AProxy t0) in
  let u_t1 := bind_symbol unpack_getitem
                [AProxy (Proxy_new "args"); AObj (PyInt 1)] (AProxy t1) in
  ~ exists chunks rest,
      [assert_tensor_metadata_bsym t0; u_args; u_t0;
       assert_tensor_metadata_bsym t1; u_t1;
       python_return_bsym (ATuple [AProxy t0; AProxy t1])]
      = concat chunks ++ rest
      /\ input_chunks [] [t0; t1] chunks.
Proof.
  cbv zeta. intros (chunks & rest & He & Hc).
  destruct chunks as [|c0 chunks]; [destruct Hc|].
  destruct Hc as [(us & -> & Hus & Hlast) _].
  destruct (Hlast (proj1 add_inputs_first_reached)) as (us' & b & -> & Hb).
  change (tensor_guard t0) with [assert_tensor_metadata_bsym t0] in He.
  apply Forall_app in Hus as [Hus' Hb'].
  destruct us' as [|b0 us']; simpl in He.
  - injection He as <- _. discriminate Hb.
  - injection He as <- _. apply Forall_inv in Hus'.
    destruct Hus' as (Hu & _). discriminate Hu.
Qed.


End ChunkExamples.
